(** * uni-api: credential pool, SSE emitter, first-chunk check, stream adapters

    A shallow embedding of [utils.py] and [response.py].

    Conventions of the embedding:
    - a Python [str] is a [string]; every character is read as a code point
      below 256;
    - a dynamically typed Python value (what [json.loads] returns, what the
      emitter receives) is a [pyval]; numbers are integers, a fractional
      JSON number is outside the embedding;
    - a Python exception is a constructor of [exn]; a call that may raise
      returns a [result];
    - [time()] is an oracle [nat -> Z]: the n-th reading of the clock, in
      whole seconds;
    - the module-level generator of [random] is the Mersenne Twister state
      [mt_state], seeded and advanced as CPython does for integer seeds;
    - [json.loads] and the [unicode-escape] codec belong to the runtime: the
      functions that call them take them as parameters ([json_loads],
      [unicode_escape]); [json_decode] is an executable decoder for the
      fragment above, used to run the functions on concrete inputs. *)

From Stdlib Require Import ZArith List String Ascii Bool Lia DecimalString
  DecimalPos DecimalZ.
From stdpp Require Import gmap strings.

Set Warnings "-register-all".
Open Scope string_scope.
Open Scope Z_scope.

(* ===================================================================== *)
(** ** Python strings *)
(* ===================================================================== *)

(** The line feed and the characters that a Rocq literal cannot hold. *)
Definition LF : ascii := "010"%char.
Definition DQ : ascii := "034"%char.
Definition SQ : ascii := "039"%char.
Definition BS : ascii := "092"%char.

Definition chr (c : ascii) : string := String c EmptyString.

(** [end_of_line = "\n\n"] (utils.py, line 710). *)
Definition end_of_line : string := String LF (String LF EmptyString).

(** [s.startswith(p)]. *)
Definition startswith (p s : string) : bool := String.prefix p s.

(** [sub in s]. *)
Fixpoint contains (sub s : string) : bool :=
  String.prefix sub s ||
  match s with
  | EmptyString => false
  | String _ s' => contains sub s'
  end.

Fixpoint mem_char (c : ascii) (chars : string) : bool :=
  match chars with
  | EmptyString => false
  | String d chars' => Ascii.eqb c d || mem_char c chars'
  end.

(** [s.lstrip(chars)]: drops the leading characters that belong to the set
    [chars]. *)
Fixpoint lstrip (chars s : string) : string :=
  match s with
  | EmptyString => EmptyString
  | String c s' => if mem_char c chars then lstrip chars s' else s
  end.

(** [s.rstrip(chars)]. *)
Fixpoint rstrip (chars s : string) : string :=
  match s with
  | EmptyString => EmptyString
  | String c s' =>
      match rstrip chars s' with
      | EmptyString => if mem_char c chars then EmptyString else chr c
      | r => String c r
      end
  end.

(** The characters for which [str.isspace] holds, below 256: tab, line feed,
    vertical tab, form feed, carriage return, the four separators 28..31,
    the space, the next-line control 133 and the no-break space 160. *)
Definition whitespace : string :=
  String "009" (String "010" (String "011" (String "012" (String "013"
  (String "028" (String "029" (String "030" (String "031" (String " "
  (String "133" (String "160" EmptyString))))))))))).

(** [s.strip()]. *)
Definition strip (s : string) : string := rstrip whitespace (lstrip whitespace s).

(** [line, buffer = buffer.split("\n", 1)], defined when the buffer holds a
    line feed. *)
Fixpoint split_nl (s : string) : option (string * string) :=
  match s with
  | EmptyString => None
  | String c s' =>
      if Ascii.eqb c LF then Some (EmptyString, s')
      else match split_nl s' with
           | Some (l, r) => Some (String c l, r)
           | None => None
           end
  end.

(** The lines that the loop
    [while "\n" in buffer: line, buffer = buffer.split("\n", 1)]
    takes out of a buffer, in order, and the buffer it leaves. *)
Fixpoint take_lines (s : string) : list string * string :=
  match s with
  | EmptyString => ([], EmptyString)
  | String c s' =>
      let '(ls, rest) := take_lines s' in
      if Ascii.eqb c LF then (EmptyString :: ls, rest)
      else match ls with
           | [] => ([], String c rest)
           | l :: ls' => (String c l :: ls', rest)
           end
  end.

Fixpoint rev_string (acc s : string) : string :=
  match s with
  | EmptyString => acc
  | String c s' => rev_string (String c acc) s'
  end.

(** [s.split(sep)] for a non-empty separator. [skip] counts the characters
    of a separator still to pass, [cur] holds the current piece reversed. *)
Fixpoint split_go (sep : string) (skip : nat) (cur s : string) : list string :=
  match s with
  | EmptyString => [rev_string EmptyString cur]
  | String c s' =>
      match skip with
      | S k => split_go sep k cur s'
      | O =>
          if String.prefix sep s
          then rev_string EmptyString cur
               :: split_go sep (String.length sep - 1) EmptyString s'
          else split_go sep O (String c cur) s'
      end
  end.

Definition split (sep s : string) : list string := split_go sep O EmptyString s.

(** [sep.join(l)]. *)
Definition join (sep : string) (l : list string) : string := String.concat sep l.

(** [s[:n]]. *)
Fixpoint take (n : nat) (s : string) : string :=
  match n, s with
  | S k, String c s' => String c (take k s')
  | _, _ => EmptyString
  end.

(** [s[a:b]] for [0 <= a <= b]. *)
Definition slice (a b : nat) (s : string) : string := String.substring a (b - a) s.

(** [str(n)] for an integer. *)
Definition str_of_Z (z : Z) : string := NilZero.string_of_int (Z.to_int z).

Definition is_digit (c : ascii) : bool :=
  let n := nat_of_ascii c in (48 <=? n)%nat && (n <=? 57)%nat.

Definition is_ascii_letter (c : ascii) : bool :=
  let n := nat_of_ascii c in
  ((65 <=? n)%nat && (n <=? 90)%nat) || ((97 <=? n)%nat && (n <=? 122)%nat).

Definition is_alnum (c : ascii) : bool := is_digit c || is_ascii_letter c.

Fixpoint all_chars (p : ascii -> bool) (s : string) : bool :=
  match s with
  | EmptyString => true
  | String c s' => p c && all_chars p s'
  end.

(** [int(s)] for a string of decimal digits. *)
Fixpoint digits_value (acc : Z) (s : string) : Z :=
  match s with
  | EmptyString => acc
  | String c s' => digits_value (10 * acc + (Z.of_nat (nat_of_ascii c) - 48)) s'
  end.

(* ===================================================================== *)
(** ** Python values and exceptions *)
(* ===================================================================== *)

(** A dynamically typed value. A [dict] keeps its keys in insertion order and
    holds each key once. *)
Inductive pyval : Type :=
| PNone
| PBool (b : bool)
| PInt (z : Z)
| PStr (s : string)
| PList (l : list pyval)
| PDict (d : list (string * pyval)).

Inductive exn : Type :=
| IndexError
| KeyError
| TypeError
| AttributeError
| ValueError (msg : string)
| JSONDecodeError
| StopAsyncIteration
| UnicodeDecodeError
| RuntimeError
| HTTPException (status_code : pyval) (detail : string)
(** a step of the runtime that the embedding does not cover *)
| NotModelled (what : string).

Inductive result (A : Type) : Type :=
| Ok (a : A)
| Raise (e : exn).
Arguments Ok {A} a.
Arguments Raise {A} e.

Definition bind {A B} (r : result A) (k : A -> result B) : result B :=
  match r with
  | Ok a => k a
  | Raise e => Raise e
  end.

Notation "'let!' x ':=' r 'in' k" := (bind r (fun x => k))
  (at level 10, x name, r at level 100, k at level 200).

(** [bool(v)]. *)
Definition truthy (v : pyval) : bool :=
  match v with
  | PNone => false
  | PBool b => b
  | PInt z => negb (z =? 0)
  | PStr s => negb (String.eqb s EmptyString)
  | PList l => match l with [] => false | _ => true end
  | PDict d => match d with [] => false | _ => true end
  end.

(** [d.get(k)] as an option, [k in d], [d[k] = v]. *)
Fixpoint dict_lookup (k : string) (d : list (string * pyval)) : option pyval :=
  match d with
  | [] => None
  | (k', v) :: d' => if String.eqb k k' then Some v else dict_lookup k d'
  end.

Definition dict_has (k : string) (d : list (string * pyval)) : bool :=
  match dict_lookup k d with Some _ => true | None => false end.

Fixpoint dict_set (k : string) (v : pyval) (d : list (string * pyval))
  : list (string * pyval) :=
  match d with
  | [] => [(k, v)]
  | (k', v') :: d' =>
      if String.eqb k k' then (k', v) :: d' else (k', v') :: dict_set k v d'
  end.

(** [d.get(k, dflt)]. *)
Definition dict_get (k : string) (dflt : pyval) (d : list (string * pyval)) : pyval :=
  match dict_lookup k d with Some v => v | None => dflt end.

(** [v.get(k, dflt)]: only a dict has the method. *)
Definition py_get (v : pyval) (k : string) (dflt : pyval) : result pyval :=
  match v with
  | PDict d => Ok (dict_get k dflt d)
  | _ => Raise AttributeError
  end.

(** [v[k]] for a string key. *)
Definition py_getitem (v : pyval) (k : string) : result pyval :=
  match v with
  | PDict d => match dict_lookup k d with Some x => Ok x | None => Raise KeyError end
  | _ => Raise TypeError
  end.

(** [k in v] for a string key: a dict looks among its keys, a string looks
    for a substring, a list looks among its elements. *)
Definition py_contains (k : string) (v : pyval) : result bool :=
  match v with
  | PDict d => Ok (dict_has k d)
  | PStr s => Ok (contains k s)
  | PList l =>
      Ok (existsb (fun x => match x with PStr s => String.eqb s k | _ => false end) l)
  | _ => Raise TypeError
  end.

(** [a == b]: booleans compare as the integers 0 and 1, dicts compare without
    regard to the order of their keys. *)
Fixpoint py_eqb (a b : pyval) {struct a} : bool :=
  match a, b with
  | PNone, PNone => true
  | PBool x, PBool y => Bool.eqb x y
  | PBool x, PInt y => (if x then 1 else 0) =? y
  | PInt x, PBool y => x =? (if y then 1 else 0)
  | PInt x, PInt y => x =? y
  | PStr x, PStr y => String.eqb x y
  | PList x, PList y =>
      (fix go (x y : list pyval) {struct x} : bool :=
         match x, y with
         | [], [] => true
         | u :: x', v :: y' => py_eqb u v && go x' y'
         | _, _ => false
         end) x y
  | PDict x, PDict y =>
      Nat.eqb (List.length x) (List.length y) &&
      (fix go (x : list (string * pyval)) {struct x} : bool :=
         match x with
         | [] => true
         | (k, u) :: x' =>
             match dict_lookup k y with
             | Some v => py_eqb u v && go x'
             | None => false
             end
         end) x
  | _, _ => false
  end.

(** [a + b]. *)
Definition py_add (a b : pyval) : result pyval :=
  let as_int v := match v with
                  | PInt z => Some z
                  | PBool c => Some (if c then 1 else 0)
                  | _ => None
                  end in
  match a, b with
  | PStr x, PStr y => Ok (PStr (x ++ y))
  | PList x, PList y => Ok (PList (x ++ y))
  | _, _ =>
      match as_int a, as_int b with
      | Some x, Some y => Ok (PInt (x + y))
      | _, _ => Raise TypeError
      end
  end.

(** A step of a path given to [safe_get]: a dict key or a list index. *)
Inductive key : Type :=
| KStr (s : string)
| KIdx (i : Z).

(** [data[key]], [None] when it raises [KeyError], [IndexError] or
    [TypeError]; on anything but a dict or a list, [data.get(key)], which
    raises [AttributeError]. *)
Definition safe_step (data : pyval) (k : key) : option pyval :=
  match data, k with
  | PDict d, KStr s => dict_lookup s d
  | PDict _, KIdx _ => None
  | PList l, KIdx i =>
      let n := Z.of_nat (List.length l) in
      let j := if i <? 0 then i + n else i in
      if (0 <=? j) && (j <? n) then nth_error l (Z.to_nat j) else None
  | PList _, KStr _ => None
  | _, _ => None
  end.

(** [safe_get(data, *keys, default=default)] (utils.py, lines 698-704). *)
Fixpoint safe_get (data : pyval) (keys : list key) (default : pyval) : pyval :=
  match keys with
  | [] => data
  | k :: keys' =>
      match safe_step data k with
      | Some data' => safe_get data' keys' default
      | None => default
      end
  end.

(* ===================================================================== *)
(** ** json.dumps, str and repr *)
(* ===================================================================== *)

Definition hex_digit (n : nat) : ascii :=
  ascii_of_nat (if (n <? 10)%nat then 48 + n else 87 + n).

Definition hex2 (c : ascii) : string :=
  let n := nat_of_ascii c in
  String (hex_digit (n / 16)) (String (hex_digit (n mod 16)) EmptyString).

(** The escape of one character inside a JSON string. With [ensure_ascii]
    every character outside the range space..tilde is escaped; without it
    only the control characters below 32, the quote and the backslash. *)
Definition json_escape_char (ensure_ascii : bool) (c : ascii) : string :=
  let n := nat_of_ascii c in
  if Ascii.eqb c DQ then String BS (chr DQ)
  else if Ascii.eqb c BS then String BS (chr BS)
  else if Ascii.eqb c LF then String BS "n"
  else if Ascii.eqb c "013" then String BS "r"
  else if Ascii.eqb c "009" then String BS "t"
  else if Ascii.eqb c "008" then String BS "b"
  else if Ascii.eqb c "012" then String BS "f"
  else if (n <? 32)%nat || (ensure_ascii && (126 <? n)%nat)
       then String BS ("u00" ++ hex2 c)
  else chr c.

Fixpoint json_escape (ensure_ascii : bool) (s : string) : string :=
  match s with
  | EmptyString => EmptyString
  | String c s' => json_escape_char ensure_ascii c ++ json_escape ensure_ascii s'
  end.

Definition json_string (ensure_ascii : bool) (s : string) : string :=
  String DQ (json_escape ensure_ascii s ++ chr DQ).

(** [json.dumps(v, ensure_ascii=ensure_ascii)] with the default separators. *)
Fixpoint json_dumps (ensure_ascii : bool) (v : pyval) : string :=
  match v with
  | PNone => "null"
  | PBool b => if b then "true" else "false"
  | PInt z => str_of_Z z
  | PStr s => json_string ensure_ascii s
  | PList l =>
      "[" ++ join ", " (List.map (json_dumps ensure_ascii) l) ++ "]"
  | PDict d =>
      "{" ++ join ", "
               (List.map (fun kv => json_string ensure_ascii (fst kv) ++ ": "
                                    ++ json_dumps ensure_ascii (snd kv)) d)
          ++ "}"
  end.

(** Whether [repr] prints a character as it is: what is printable below
    256. *)
Definition printable (c : ascii) : bool :=
  let n := nat_of_ascii c in
  ((32 <=? n)%nat && (n <? 127)%nat) ||
  ((161 <=? n)%nat && negb (n =? 173)%nat).

Definition repr_char (quote c : ascii) : string :=
  if Ascii.eqb c quote || Ascii.eqb c BS then String BS (chr c)
  else if Ascii.eqb c "009" then String BS "t"
  else if Ascii.eqb c LF then String BS "n"
  else if Ascii.eqb c "013" then String BS "r"
  else if printable c then chr c
  else String BS ("x" ++ hex2 c).

Fixpoint repr_chars (quote : ascii) (s : string) : string :=
  match s with
  | EmptyString => EmptyString
  | String c s' => repr_char quote c ++ repr_chars quote s'
  end.

(** [repr(s)] for a string: single quotes, unless the string holds a single
    quote and no double quote. *)
Definition repr_str (s : string) : string :=
  let quote := if mem_char SQ s && negb (mem_char DQ s) then DQ else SQ in
  String quote (repr_chars quote s ++ chr quote).

(** [repr(v)]. *)
Fixpoint py_repr (v : pyval) : string :=
  match v with
  | PNone => "None"
  | PBool b => if b then "True" else "False"
  | PInt z => str_of_Z z
  | PStr s => repr_str s
  | PList l => "[" ++ join ", " (List.map py_repr l) ++ "]"
  | PDict d =>
      "{" ++ join ", " (List.map (fun kv => repr_str (fst kv) ++ ": " ++ py_repr (snd kv)) d)
          ++ "}"
  end.

(** [str(v)], which is also what an f-string prints for [v]. *)
Definition py_str (v : pyval) : string :=
  match v with
  | PStr s => s
  | _ => py_repr v
  end.

(** Writes a text that holds double quotes with single quotes in their
    place: [quoted "{'a': 1}"] is the text [{"a": 1}]. *)
Fixpoint quoted (s : string) : string :=
  match s with
  | EmptyString => EmptyString
  | String c s' => String (if Ascii.eqb c SQ then DQ else c) (quoted s')
  end.

(* ===================================================================== *)
(** ** json.loads on the fragment of the embedding *)
(* ===================================================================== *)

Definition is_json_ws (c : ascii) : bool :=
  Ascii.eqb c " " || Ascii.eqb c "009" || Ascii.eqb c LF || Ascii.eqb c "013".

Fixpoint skip_ws (s : string) : string :=
  match s with
  | EmptyString => EmptyString
  | String c s' => if is_json_ws c then skip_ws s' else s
  end.

Fixpoint drop (n : nat) (s : string) : string :=
  match n, s with
  | S k, String _ s' => drop k s'
  | _, _ => s
  end.

Definition hex_value (c : ascii) : option nat :=
  let n := nat_of_ascii c in
  if is_digit c then Some (n - 48)%nat
  else if (97 <=? n)%nat && (n <=? 102)%nat then Some (n - 87)%nat
  else if (65 <=? n)%nat && (n <=? 70)%nat then Some (n - 55)%nat
  else None.

Definition hex4 (a b c d : ascii) : option nat :=
  match hex_value a, hex_value b, hex_value c, hex_value d with
  | Some x, Some y, Some z, Some w => Some (((x * 16 + y) * 16 + z) * 16 + w)%nat
  | _, _, _, _ => None
  end.

(** The character that a backslash and [e] stand for inside a JSON string. *)
Definition json_unescape (e : ascii) : option ascii :=
  if Ascii.eqb e DQ then Some DQ
  else if Ascii.eqb e BS then Some BS
  else if Ascii.eqb e "/" then Some "/"%char
  else if Ascii.eqb e "b" then Some "008"%char
  else if Ascii.eqb e "f" then Some "012"%char
  else if Ascii.eqb e "n" then Some LF
  else if Ascii.eqb e "r" then Some "013"%char
  else if Ascii.eqb e "t" then Some "009"%char
  else None.

Definition cons_char (c : ascii) (r : option (string * string)) : option (string * string) :=
  match r with
  | Some (x, rest) => Some (String c x, rest)
  | None => None
  end.

(** Reads a JSON string from the character after its opening quote: the
    string it denotes and the text after its closing quote. *)
Fixpoint scan_string (s : string) : option (string * string) :=
  match s with
  | EmptyString => None
  | String c r =>
      if Ascii.eqb c DQ then Some (EmptyString, r)
      else if Ascii.eqb c BS then
        match r with
        | EmptyString => None
        | String e r1 =>
            if Ascii.eqb e "u" then
              match r1 with
              | String h1 (String h2 (String h3 (String h4 r2))) =>
                  match hex4 h1 h2 h3 h4 with
                  | Some n =>
                      if (n <? 256)%nat then cons_char (ascii_of_nat n) (scan_string r2)
                      else None
                  | None => None
                  end
              | _ => None
              end
            else
              match json_unescape e with
              | Some ch => cons_char ch (scan_string r1)
              | None => None
              end
        end
      else if (nat_of_ascii c <? 32)%nat then None
      else cons_char c (scan_string r)
  end.

Fixpoint span_digits (s : string) : string * string :=
  match s with
  | String c s' =>
      if is_digit c then let '(ds, rest) := span_digits s' in (String c ds, rest)
      else (EmptyString, s)
  | EmptyString => (EmptyString, EmptyString)
  end.

(** Reads a JSON integer; a fraction or an exponent is outside the
    fragment. *)
Definition scan_number (s : string) : option (pyval * string) :=
  let '(neg, s1) := match s with
                    | String c r => if Ascii.eqb c "-" then (true, r) else (false, s)
                    | EmptyString => (false, s)
                    end in
  let finish (z : Z) (rest : string) :=
    match rest with
    | String c _ =>
        if Ascii.eqb c "." || Ascii.eqb c "e" || Ascii.eqb c "E" then None
        else Some (PInt (if neg then - z else z), rest)
    | EmptyString => Some (PInt (if neg then - z else z), rest)
    end in
  match s1 with
  | String c r =>
      if Ascii.eqb c "0" then finish 0 r
      else if is_digit c then
        let '(ds, rest) := span_digits s1 in finish (digits_value 0 ds) rest
      else None
  | EmptyString => None
  end.

Fixpoint parse_value (fuel : nat) (s : string) : option (pyval * string) :=
  match fuel with
  | O => None
  | S f =>
      match s with
      | EmptyString => None
      | String c r =>
          if Ascii.eqb c DQ then
            match scan_string r with
            | Some (x, r') => Some (PStr x, r')
            | None => None
            end
          else if Ascii.eqb c "[" then
            match skip_ws r with
            | String c' r' =>
                if Ascii.eqb c' "]" then Some (PList [], r')
                else match parse_elems f (String c' r') with
                     | Some (vs, r'') => Some (PList vs, r'')
                     | None => None
                     end
            | EmptyString => None
            end
          else if Ascii.eqb c "{" then
            match skip_ws r with
            | String c' r' =>
                if Ascii.eqb c' "}" then Some (PDict [], r')
                else match parse_members f [] (String c' r') with
                     | Some (d, r'') => Some (PDict d, r'')
                     | None => None
                     end
            | EmptyString => None
            end
          else if String.prefix "null" s then Some (PNone, drop 4 s)
          else if String.prefix "true" s then Some (PBool true, drop 4 s)
          else if String.prefix "false" s then Some (PBool false, drop 5 s)
          else scan_number s
      end
  end
with parse_elems (fuel : nat) (s : string) : option (list pyval * string) :=
  match fuel with
  | O => None
  | S f =>
      match parse_value f s with
      | Some (v, r) =>
          match skip_ws r with
          | String c r' =>
              if Ascii.eqb c "]" then Some ([v], r')
              else if Ascii.eqb c "," then
                match parse_elems f (skip_ws r') with
                | Some (vs, r'') => Some (v :: vs, r'')
                | None => None
                end
              else None
          | EmptyString => None
          end
      | None => None
      end
  end
with parse_members (fuel : nat) (acc : list (string * pyval)) (s : string)
  : option (list (string * pyval) * string) :=
  match fuel with
  | O => None
  | S f =>
      match s with
      | String c r =>
          if Ascii.eqb c DQ then
            match scan_string r with
            | Some (k, r1) =>
                match skip_ws r1 with
                | String c1 r2 =>
                    if Ascii.eqb c1 ":" then
                      match parse_value f (skip_ws r2) with
                      | Some (v, r3) =>
                          let acc' := dict_set k v acc in
                          match skip_ws r3 with
                          | String c3 r4 =>
                              if Ascii.eqb c3 "}" then Some (acc', r4)
                              else if Ascii.eqb c3 ","
                                   then parse_members f acc' (skip_ws r4)
                              else None
                          | EmptyString => None
                          end
                      | None => None
                      end
                    else None
                | EmptyString => None
                end
            | None => None
            end
          else None
      | EmptyString => None
      end
  end.

(** [json.loads(s)] on the fragment: [None] stands for [JSONDecodeError]
    (and for a text outside the fragment). *)
Definition json_decode (s : string) : option pyval :=
  match parse_value (2 * String.length s + 2) (skip_ws s) with
  | Some (v, rest) =>
      match skip_ws rest with
      | EmptyString => Some v
      | _ => None
      end
  | None => None
  end.

(* ===================================================================== *)
(** ** The random module: MT19937 as CPython seeds and reads it *)
(* ===================================================================== *)

Definition MT_N : nat := 624.
Definition MT_M : nat := 397.
Definition MATRIX_A : Z := 2567483615.
Definition UPPER_MASK : Z := 2147483648.
Definition LOWER_MASK : Z := 2147483647.

(** The value of a 32-bit unsigned word. *)
Definition u32 (z : Z) : Z := z mod 4294967296.

(** The generator: the 624 words and the index of the next one. *)
Record mt_state : Type := { mt : list Z; mti : nat }.

Definition mt_get (a : list Z) (i : nat) : Z := nth i a 0.
Definition mt_set (a : list Z) (i : nat) (x : Z) : list Z := <[i := x]> a.

Fixpoint init_genrand_go (n : nat) (i prev : Z) : list Z :=
  match n with
  | O => []
  | S n' =>
      let x := u32 (1812433253 * Z.lxor prev (Z.shiftr prev 30) + i) in
      x :: init_genrand_go n' (i + 1) x
  end.

(** [init_genrand(s)]. *)
Definition init_genrand (s : Z) : list Z :=
  u32 s :: init_genrand_go (MT_N - 1) 1 (u32 s).

(** The first loop of [init_by_array]: [k] rounds from [i], [j]. *)
Fixpoint init_mix_key (k i j : nat) (key a : list Z) : list Z * nat :=
  match k with
  | O => (a, i)
  | S k' =>
      let prev := mt_get a (i - 1) in
      let x := u32 (Z.lxor (mt_get a i) (u32 (Z.lxor prev (Z.shiftr prev 30) * 1664525))
                    + nth j key 0 + Z.of_nat j) in
      let a := mt_set a i x in
      let '(a, i) := if (MT_N <=? S i)%nat
                     then (mt_set a 0 (mt_get a (MT_N - 1)), 1%nat)
                     else (a, S i) in
      let j := if (List.length key <=? S j)%nat then O else S j in
      init_mix_key k' i j key a
  end.

(** The second loop of [init_by_array]. *)
Fixpoint init_mix_index (k i : nat) (a : list Z) : list Z :=
  match k with
  | O => a
  | S k' =>
      let prev := mt_get a (i - 1) in
      let x := u32 (Z.lxor (mt_get a i) (u32 (Z.lxor prev (Z.shiftr prev 30) * 1566083941))
                    - Z.of_nat i) in
      let a := mt_set a i x in
      let '(a, i) := if (MT_N <=? S i)%nat
                     then (mt_set a 0 (mt_get a (MT_N - 1)), 1%nat)
                     else (a, S i) in
      init_mix_index k' i a
  end.

(** [init_by_array(key)]. *)
Definition init_by_array (key : list Z) : mt_state :=
  let a := init_genrand 19650218 in
  let '(a, i) := init_mix_key (Nat.max MT_N (List.length key)) 1 0 key a in
  let a := init_mix_index (MT_N - 1) i a in
  {| mt := mt_set a 0 2147483648; mti := MT_N |}.

Fixpoint key_words (fuel : nat) (n : Z) : list Z :=
  match fuel with
  | O => []
  | S f => if n =? 0 then [] else u32 n :: key_words f (n / 4294967296)
  end.

(** The 32-bit words of the absolute value of an integer seed, least
    significant first; one zero word for the seed 0. *)
Definition seed_key (a : Z) : list Z :=
  let n := Z.abs a in
  if n =? 0 then [0] else key_words (S (Z.to_nat (Z.log2 n))) n.

(** [random.seed(a)] for an integer [a]: the state it leaves does not depend
    on the state it finds. *)
Definition seed_int (a : Z) : mt_state := init_by_array (seed_key a).

(** [random.seed(a)]. An integer (a [bool] is one) seeds as above; a list or
    a dict raises [TypeError]; [None] draws from the operating system and a
    string is hashed first, two steps outside the embedding. *)
Definition random_seed (a : pyval) (g : mt_state) : result mt_state :=
  match a with
  | PInt z => Ok (seed_int z)
  | PBool b => Ok (seed_int (if b then 1 else 0))
  | PNone => Raise (NotModelled "random.seed(None)")
  | PStr _ => Raise (NotModelled "random.seed(str)")
  | PList _ | PDict _ => Raise TypeError
  end.

(** The regeneration of the 624 words, in place, from word [kk] on. *)
Fixpoint twist_go (n kk : nat) (a : list Z) : list Z :=
  match n with
  | O => a
  | S n' =>
      let y := Z.lor (Z.land (mt_get a kk) UPPER_MASK)
                     (Z.land (mt_get a ((kk + 1) mod MT_N)) LOWER_MASK) in
      let x := Z.lxor (Z.lxor (mt_get a ((kk + MT_M) mod MT_N)) (Z.shiftr y 1))
                      (if Z.odd y then MATRIX_A else 0) in
      twist_go n' (S kk) (mt_set a kk x)
  end.

Definition temper (y : Z) : Z :=
  let y := Z.lxor y (Z.shiftr y 11) in
  let y := Z.lxor y (Z.land (u32 (Z.shiftl y 7)) 2636928640) in
  let y := Z.lxor y (Z.land (u32 (Z.shiftl y 15)) 4022730752) in
  u32 (Z.lxor y (Z.shiftr y 18)).

(** [genrand_uint32]. *)
Definition genrand_uint32 (g : mt_state) : Z * mt_state :=
  let g := if (MT_N <=? mti g)%nat
           then {| mt := twist_go MT_N 0 (mt g); mti := 0 |} else g in
  (temper (mt_get (mt g) (mti g)), {| mt := mt g; mti := S (mti g) |}).

(** [random.random()]: the double it returns is [m / 2^53] for the integer
    [m] given here. *)
Definition random53 (g : mt_state) : Z * mt_state :=
  let '(a, g) := genrand_uint32 g in
  let '(b, g) := genrand_uint32 g in
  (Z.shiftr a 5 * 67108864 + Z.shiftr b 6, g).

(** The double nearest to [v / 2^53], as [round53 v / 2^53]: [v] rounded to
    53 significant bits, ties to even. *)
Definition round53 (v : Z) : Z :=
  let e := Z.log2 v - 52 in
  if e <=? 0 then v
  else
    let q := v / 2 ^ e in
    let r := v mod 2 ^ e in
    let half := 2 ^ (e - 1) in
    let q' := if (half <? r) || ((r =? half) && Z.odd q) then q + 1 else q in
    q' * 2 ^ e.

(** [floor(random() * n)] for the float [n = len(population) + 0.0]. *)
Definition random_index (n : nat) (g : mt_state) : nat * mt_state :=
  let '(m, g) := random53 g in
  (Z.to_nat (round53 (m * Z.of_nat n) / 9007199254740992), g).

(** [random.choices(population, k=k)] joined into a string; [IndexError]
    cannot arise for a non-empty population (see [random_index_lt]). *)
Fixpoint random_choices (population : string) (k : nat) (g : mt_state)
  : string * mt_state :=
  match k with
  | O => (EmptyString, g)
  | S k' =>
      let '(i, g) := random_index (String.length population) g in
      let c := match String.get i population with Some c => c | None => " "%char end in
      let '(s, g) := random_choices population k' g in
      (String c s, g)
  end.

(** [string.ascii_letters + string.digits]. *)
Definition alphabet : string :=
  "abcdefghijklmnopqrstuvwxyzABCDEFGHIJKLMNOPQRSTUVWXYZ0123456789".

(* ===================================================================== *)
(** ** The SSE and JSON emitters (utils.py, lines 716-781) *)
(* ===================================================================== *)

(** [random.seed(timestamp)] followed by
    [''.join(random.choices(string.ascii_letters + string.digits, k=29))]. *)
Definition seeded_random_str (timestamp : pyval) (g : mt_state)
  : result string * mt_state :=
  match random_seed timestamp g with
  | Raise e => (Raise e, g)
  | Ok g =>
      let '(random_str, g) := random_choices alphabet 29 g in
      (Ok random_str, g)
  end.

(** [sample_data["choices"][0]["delta"] = delta]. *)
Definition set_delta (sample_data delta : pyval) : pyval :=
  match sample_data with
  | PDict d =>
      match dict_lookup "choices" d with
      | Some (PList (PDict c :: cs)) =>
          PDict (dict_set "choices" (PList (PDict (dict_set "delta" delta c) :: cs)) d)
      | _ => sample_data
      end
  | _ => sample_data
  end.

(** [sample_data[k] = v]. *)
Definition set_item (sample_data : pyval) (k : string) (v : pyval) : pyval :=
  match sample_data with
  | PDict d => PDict (dict_set k v d)
  | _ => sample_data
  end.

(** The object that [generate_sse_response] serializes, given the
    [random_str] it drew. *)
Definition sse_sample_data (random_str : string)
    (timestamp model content tools_id function_call_name function_call_content
     role total_tokens prompt_tokens completion_tokens : pyval) : result pyval :=
  let sample_data :=
    PDict [ ("id", PStr ("chatcmpl-" ++ random_str));
            ("object", PStr "chat.completion.chunk");
            ("created", timestamp);
            ("model", model);
            ("choices",
             PList [ PDict [ ("index", PInt 0);
                             ("delta", if truthy content
                                       then PDict [("content", content)]
                                       else PDict []);
                             ("logprobs", PNone);
                             ("finish_reason", if truthy content
                                               then PNone else PStr "stop") ] ]);
            ("usage", PNone);
            ("system_fingerprint", PStr "fp_d576307f90") ] in
  let sample_data :=
    if truthy function_call_content
    then set_delta sample_data
           (PDict [("tool_calls",
                    PList [PDict [("index", PInt 0);
                                  ("function",
                                   PDict [("arguments", function_call_content)])]])])
    else sample_data in
  let sample_data :=
    if truthy tools_id && truthy function_call_name
    then set_delta sample_data
           (PDict [("tool_calls",
                    PList [PDict [("index", PInt 0);
                                  ("id", tools_id);
                                  ("type", PStr "function");
                                  ("function",
                                   PDict [("name", function_call_name);
                                          ("arguments", PStr "")])]])])
    else sample_data in
  let sample_data :=
    if truthy role
    then set_delta sample_data (PDict [("role", role); ("content", PStr "")])
    else sample_data in
  if truthy total_tokens
  then
    let! total_tokens := py_add prompt_tokens completion_tokens in
    let sample_data :=
      set_item sample_data "usage"
        (PDict [("prompt_tokens", prompt_tokens);
                ("completion_tokens", completion_tokens);
                ("total_tokens", total_tokens)]) in
    Ok (set_item sample_data "choices" (PList []))
  else Ok sample_data.

(** [generate_sse_response(timestamp, model, content, tools_id,
    function_call_name, function_call_content, role, total_tokens,
    prompt_tokens, completion_tokens)]; an argument left out in a call is
    [None], a token count left out is [0]. *)
Definition generate_sse_response (g : mt_state)
    (timestamp model content tools_id function_call_name function_call_content
     role total_tokens prompt_tokens completion_tokens : pyval)
  : result string * mt_state :=
  let '(random_str, g) := seeded_random_str timestamp g in
  (let! random_str := random_str in
   let! sample_data :=
     sse_sample_data random_str timestamp model content tools_id
       function_call_name function_call_content role
       total_tokens prompt_tokens completion_tokens in
   let json_data := json_dumps false sample_data in
   Ok ("data: " ++ json_data ++ end_of_line),
   g).

(** The object that [generate_no_stream_response] serializes. *)
Definition no_stream_sample_data (random_str : string)
    (timestamp model content role total_tokens prompt_tokens completion_tokens : pyval)
  : result pyval :=
  let sample_data :=
    PDict [ ("id", PStr ("chatcmpl-" ++ random_str));
            ("object", PStr "chat.completion");
            ("created", timestamp);
            ("model", model);
            ("choices",
             PList [ PDict [ ("index", PInt 0);
                             ("message", PDict [ ("role", role);
                                                 ("content", content);
                                                 ("refusal", PNone) ]);
                             ("logprobs", PNone);
                             ("finish_reason", PStr "stop") ] ]);
            ("usage", PNone);
            ("system_fingerprint", PStr "fp_a7d06e42a7") ] in
  if truthy total_tokens
  then
    let! total_tokens := py_add prompt_tokens completion_tokens in
    Ok (set_item sample_data "usage"
          (PDict [("prompt_tokens", prompt_tokens);
                  ("completion_tokens", completion_tokens);
                  ("total_tokens", total_tokens)]))
  else Ok sample_data.

(** [generate_no_stream_response]; the arguments [tools_id],
    [function_call_name] and [function_call_content] are not read. *)
Definition generate_no_stream_response (g : mt_state)
    (timestamp model content tools_id function_call_name function_call_content
     role total_tokens prompt_tokens completion_tokens : pyval)
  : result string * mt_state :=
  let '(random_str, g) := seeded_random_str timestamp g in
  (let! random_str := random_str in
   let! sample_data :=
     no_stream_sample_data random_str timestamp model content role
       total_tokens prompt_tokens completion_tokens in
   Ok (json_dumps false sample_data),
   g).

(** The value found by following a path of dict keys and list indices. *)
Fixpoint at_path (data : pyval) (keys : list key) : option pyval :=
  match keys with
  | [] => Some data
  | k :: keys' =>
      match safe_step data k with
      | Some data' => at_path data' keys'
      | None => None
      end
  end.

(** The object that an SSE data line carries: the line is [data: ], the
    serialization of the object and [end_of_line]. *)
Definition carries (line : string) (obj : pyval) : Prop :=
  line = "data: " ++ json_dumps false obj ++ end_of_line.


(* ===================================================================== *)
(** ** Rate limits (utils.py, lines 9-39) *)
(* ===================================================================== *)

Definition time_units : list (string * Z) :=
  [ ("s", 1); ("sec", 1); ("second", 1);
    ("m", 60); ("min", 60); ("minute", 60);
    ("h", 3600); ("hr", 3600); ("hour", 3600);
    ("d", 86400); ("day", 86400);
    ("mo", 2592000); ("month", 2592000);
    ("y", 31536000); ("year", 31536000) ].

Fixpoint assoc {A} (k : string) (l : list (string * A)) : option A :=
  match l with
  | [] => None
  | (k', v) :: l' => if String.eqb k k' then Some v else assoc k l'
  end.

(** A character that the class [\w] accepts, below 256: the letters and
    digits of ASCII, the underscore, and the letters and numerals of
    Latin-1. *)
Definition is_word (c : ascii) : bool :=
  let n := nat_of_ascii c in
  is_alnum c || Ascii.eqb c "_"
  || (n =? 170)%nat || (n =? 178)%nat || (n =? 179)%nat || (n =? 181)%nat
  || (n =? 185)%nat || (n =? 186)%nat
  || ((188 <=? n)%nat && (n <=? 190)%nat)
  || ((192 <=? n)%nat && (n <=? 214)%nat)
  || ((216 <=? n)%nat && (n <=? 246)%nat)
  || (248 <=? n)%nat.

Fixpoint span_word (s : string) : string * string :=
  match s with
  | String c s' =>
      if is_word c then let '(ws, rest) := span_word s' in (String c ws, rest)
      else (EmptyString, s)
  | EmptyString => (EmptyString, EmptyString)
  end.

(** [re.match(r'^(\d+)/(\w+)$', limit)]: the two groups. The dollar matches
    at the end of the string and before a line feed that ends it. *)
Definition match_rate_limit (limit : string) : option (string * string) :=
  let '(count, rest) := span_digits limit in
  match count, rest with
  | String _ _, String c rest' =>
      let '(unit, tail) := span_word rest' in
      if Ascii.eqb c "/" && negb (String.eqb unit EmptyString)
         && (String.eqb tail EmptyString || String.eqb tail (chr LF))
      then Some (count, unit)
      else None
  | _, _ => None
  end.

Fixpoint parse_limits (pieces : list string) : result (list (Z * Z)) :=
  match pieces with
  | [] => Ok []
  | limit :: pieces' =>
      let limit := strip limit in
      match match_rate_limit limit with
      | None => Raise (ValueError ("Invalid rate limit format: " ++ limit))
      | Some (count, unit) =>
          match assoc unit time_units with
          | None => Raise (ValueError ("Unknown time unit: " ++ unit))
          | Some seconds =>
              let! limits := parse_limits pieces' in
              Ok ((digits_value 0 count, seconds) :: limits)
          end
      end
  end.

(** [parse_rate_limit(limit_string)]. *)
Definition parse_rate_limit (limit_string : string) : result (list (Z * Z)) :=
  parse_limits (split "," limit_string).

(* ===================================================================== *)
(** ** The credential pool (utils.py, lines 68-189) *)
(* ===================================================================== *)

(** [requests] and [cooling_until] are [defaultdict]s: a key that is absent
    reads as the empty dict, the empty list and [0.0]. [rate_limits] is a
    dict whose order of insertion the substring match depends on. *)
Record ThreadSafeCircularList : Type := {
  items : list string;
  schedule_algorithm : string;
  index : nat;
  requests : gmap string (gmap string (list Z));
  cooling_until : gmap string Z;
  rate_limits : list (string * list (Z * Z))
}.

Definition set_index (self : ThreadSafeCircularList) (i : nat) : ThreadSafeCircularList :=
  {| items := items self; schedule_algorithm := schedule_algorithm self;
     index := i; requests := requests self;
     cooling_until := cooling_until self; rate_limits := rate_limits self |}.

Definition set_requests (self : ThreadSafeCircularList)
    (r : gmap string (gmap string (list Z))) : ThreadSafeCircularList :=
  {| items := items self; schedule_algorithm := schedule_algorithm self;
     index := index self; requests := r;
     cooling_until := cooling_until self; rate_limits := rate_limits self |}.

Definition set_cooling_until (self : ThreadSafeCircularList)
    (c : gmap string Z) : ThreadSafeCircularList :=
  {| items := items self; schedule_algorithm := schedule_algorithm self;
     index := index self; requests := requests self;
     cooling_until := c; rate_limits := rate_limits self |}.

(** [self.requests[item][model_key]]. *)
Definition request_log (self : ThreadSafeCircularList) (item model_key : string) : list Z :=
  default [] (default ∅ (requests self !! item) !! model_key).

(** [self.requests[item][model_key] = log]. *)
Definition set_request_log (self : ThreadSafeCircularList) (item model_key : string)
    (log : list Z) : ThreadSafeCircularList :=
  set_requests self
    (<[item := <[model_key := log]> (default ∅ (requests self !! item))]> (requests self)).

(** [self.cooling_until[item]]. *)
Definition cooling_of (self : ThreadSafeCircularList) (item : string) : Z :=
  default 0 (cooling_until self !! item).

Fixpoint parse_rate_limit_items (l : list (string * pyval))
  : result (list (string * list (Z * Z))) :=
  match l with
  | [] => Ok []
  | (rate_limit_model, rate_limit_value) :: l' =>
      match rate_limit_value with
      | PStr s =>
          let! limits := parse_rate_limit s in
          let! rest := parse_rate_limit_items l' in
          Ok ((rate_limit_model, limits) :: rest)
      | _ => Raise AttributeError
      end
  end.

(** [ThreadSafeCircularList(items, rate_limit, schedule_algorithm)].
    [sampled] is what [random.sample(items, len(items))] returns, a
    permutation of [items]; it is read for the [random] discipline only. *)
Definition new_ThreadSafeCircularList (sampled : list string)
    (items : list string) (rate_limit : pyval) (schedule_algorithm : string)
  : result ThreadSafeCircularList :=
  let '(items, schedule_algorithm) :=
    if String.eqb schedule_algorithm "random" then (sampled, "random")
    else if String.eqb schedule_algorithm "round_robin" then (items, "round_robin")
    else if String.eqb schedule_algorithm "fixed_priority" then (items, "fixed_priority")
    else (items, "round_robin") in
  let! rate_limits :=
    match rate_limit with
    | PDict d => parse_rate_limit_items d
    | PStr s => let! limits := parse_rate_limit s in Ok [("default", limits)]
    | _ => Ok []
    end in
  Ok {| items := items; schedule_algorithm := schedule_algorithm; index := 0;
        requests := ∅; cooling_until := ∅; rate_limits := rate_limits |}.

(** The default of the constructor's [rate_limit] argument. *)
Definition default_rate_limit : pyval := PDict [("default", PStr "999999/min")].

(** [model_key]: the model name when it is given and not empty. *)
Definition model_key_of (model : option string) : string :=
  match model with
  | Some m => if String.eqb m EmptyString then "default" else m
  | None => "default"
  end.

(** The first pattern of the table, in its order, that is not [default] and
    is a substring of the model name. *)
Fixpoint substring_match (model : string) (tbl : list (string * list (Z * Z)))
  : option (list (Z * Z)) :=
  match tbl with
  | [] => None
  | (limit_model, limits) :: tbl' =>
      if negb (String.eqb limit_model "default") && contains limit_model model
      then Some limits
      else substring_match model tbl'
  end.

(** The rate limits that [is_rate_limited] applies to a model. *)
Definition rate_limit_for (tbl : list (string * list (Z * Z))) (model : option string)
  : list (Z * Z) :=
  let rate_limit :=
    match model with
    | Some m =>
        if String.eqb m EmptyString then None
        else match assoc m tbl with
             | Some limits => Some limits
             | None => substring_match m tbl
             end
    | None => None
    end in
  match rate_limit with
  | Some limits => limits
  | None => match assoc "default" tbl with
            | Some limits => limits
            | None => [(999999, 60)]
            end
  end.

(** [sum(1 for req in log if req > now - limit_period)]. *)
Definition recent_requests (log : list Z) (now limit_period : Z) : Z :=
  Z.of_nat (List.length (List.filter (fun req => now - limit_period <? req) log)).

(** The loop over the limits: whether one of them is reached. *)
Definition limit_reached (log : list Z) (now : Z) (rate_limit : list (Z * Z)) : bool :=
  existsb (fun l => fst l <=? recent_requests log now (snd l)) rate_limit.

(** [max(period for _, period in rate_limit)]; the empty list raises
    [ValueError]. *)
Definition max_period (rate_limit : list (Z * Z)) : result Z :=
  match rate_limit with
  | [] => Raise (ValueError "max() arg is an empty sequence")
  | l :: rate_limit' => Ok (fold_left (fun m l' => Z.max m (snd l')) rate_limit' (snd l))
  end.

(** The pool and the number of times the clock has been read. *)
Record world : Type := { pool : ThreadSafeCircularList; reads : nat }.

Section Clock.

(** [time 0], [time 1], ...: what the successive calls of [time()]
    return. *)
Variable time : nat -> Z.

(** [self.set_cooling(item, cooling_time)]. *)
Definition set_cooling (item : option string) (cooling_time : Z) (w : world) : world :=
  match item with
  | None => w
  | Some item =>
      let now := time (reads w) in
      {| pool := set_cooling_until (pool w)
                   (<[item := now + cooling_time]> (cooling_until (pool w)));
         reads := S (reads w) |}
  end.

(** [self.is_rate_limited(item, model)]. *)
Definition is_rate_limited (item : string) (model : option string) (w : world)
  : result bool * world :=
  let now := time (reads w) in
  let self := pool w in
  let w1 := {| pool := self; reads := S (reads w) |} in
  if now <? cooling_of self item then (Ok true, w1)
  else
    let model_key := model_key_of model in
    let rate_limit := rate_limit_for (rate_limits self) model in
    let log := request_log self item model_key in
    if limit_reached log now rate_limit then (Ok true, w1)
    else
      match max_period rate_limit with
      | Raise e => (Raise e, w1)
      | Ok max_period =>
          let log := List.filter (fun req => now - max_period <? req) log in
          (Ok false,
           {| pool := set_request_log self item model_key (log ++ [now]);
              reads := S (reads w) |})
      end.

(** The [while True] loop of [next]; [None] when the fuel runs out, which
    [S (len(items))] rounds never do (see [next_loop_fuel]). *)
Fixpoint next_loop (fuel : nat) (start_index : nat) (model : option string)
    (w : world) : option (result string * world) :=
  match fuel with
  | O => None
  | S fuel' =>
      let self := pool w in
      match nth_error (items self) (index self) with
      | None => Some (Raise IndexError, w)
      | Some item =>
          let self := set_index self ((index self + 1) mod List.length (items self))%nat in
          let '(limited, w) :=
            is_rate_limited item model {| pool := self; reads := reads w |} in
          match limited with
          | Raise e => Some (Raise e, w)
          | Ok false => Some (Ok item, w)
          | Ok true =>
              if (index (pool w) =? start_index)%nat
              then Some (Raise (HTTPException (PInt 429) "Too many requests"), w)
              else next_loop fuel' start_index model w
          end
      end
  end.

(** [self.next(model)]. *)
Definition next (model : option string) (w : world) : result string * world :=
  let self := pool w in
  let self := if String.eqb (schedule_algorithm self) "fixed_priority"
              then set_index self 0 else self in
  let w := {| pool := self; reads := reads w |} in
  match next_loop (S (List.length (items self))) (index self) model w with
  | Some r => r
  | None => (Raise (NotModelled "next: out of fuel"), w)
  end.

(** A sequence of [next] calls, with the result of each. *)
Fixpoint next_calls (models : list (option string)) (w : world)
  : list (result string) * world :=
  match models with
  | [] => ([], w)
  | model :: models' =>
      let '(r, w) := next model w in
      let '(rs, w) := next_calls models' w in
      (r :: rs, w)
  end.

End Clock.

(** [self.after_next_current()]. *)
Definition after_next_current (self : ThreadSafeCircularList) : option string :=
  if (List.length (items self) =? 0)%nat then None
  else nth_error (items self)
         (Z.to_nat ((Z.of_nat (index self) - 1) mod Z.of_nat (List.length (items self)))).

(** [self.get_items_count()]. *)
Definition get_items_count (self : ThreadSafeCircularList) : nat :=
  List.length (items self).

(* ===================================================================== *)
(** ** What a generator yields *)
(* ===================================================================== *)

(** An element of a response stream: [bytes], or a value (a [str] line, the
    [dict] of an upstream error). *)
Inductive item : Type :=
| Bytes (b : string)
| Val (v : pyval).

(** The terminal line [data: [DONE]] with [end_of_line]. *)
Definition DONE_line : string := "data: [DONE]" ++ end_of_line.
Definition DONE : item := Val (PStr DONE_line).

(** The heartbeat line. *)
Definition heartbeat_line : string := ": uni-api-heartbeat" ++ end_of_line.

(** [str(x).startswith(": uni-api-heartbeat")]: the [str] of [bytes] starts
    with the letter b. *)
Definition is_heartbeat (x : item) : bool :=
  match x with
  | Bytes _ => false
  | Val v => startswith ": uni-api-heartbeat" (py_str v)
  end.

(** [bool(x)]. *)
Definition item_truthy (x : item) : bool :=
  match x with
  | Bytes b => negb (String.eqb b EmptyString)
  | Val v => truthy v
  end.

(** [identify_audio_format(file_bytes)] (utils.py, lines 412-428). *)
Definition identify_audio_format (file_bytes : string) : string :=
  if startswith (String "255" (chr "251")) file_bytes
     || startswith (String "255" (chr "243")) file_bytes then "MP3"
  else if startswith "ID3" file_bytes then "MP3 with ID3"
  else if startswith "OpusHead" file_bytes then "OPUS"
  else if startswith "ADIF" file_bytes then "AAC (ADIF)"
  else if startswith (String "255" (chr "241")) file_bytes
          || startswith (String "255" (chr "249")) file_bytes then "AAC (ADTS)"
  else if startswith "fLaC" file_bytes then "FLAC"
  else if startswith "RIFF" file_bytes && String.eqb (slice 8 12 file_bytes) "WAVE"
       then "WAV"
  else "Unknown/PCM".

Definition audio_formats : list string :=
  ["MP3"; "MP3 with ID3"; "OPUS"; "AAC (ADIF)"; "AAC (ADTS)"; "FLAC"; "WAV"].

(** The error object that the check takes for no error. *)
Definition empty_error : pyval :=
  PDict [("message", PStr ""); ("type", PStr ""); ("param", PStr ""); ("code", PNone)].

Definition unchecked_engines : list string :=
  ["tts"; "embedding"; "dalle"; "moderation"; "whisper"].

Definition in_list (x : string) (l : list string) : bool :=
  existsb (String.eqb x) l.

Section Runtime.

(** [json.loads]: [None] is [JSONDecodeError]. *)
Variable json_loads : string -> option pyval.
(** [s.encode().decode('unicode-escape')]: [None] is
    [UnicodeDecodeError]. *)
Variable unicode_escape : string -> option string.
(** [b.decode("utf-8")]: [None] is [UnicodeDecodeError]. *)
Variable utf8_decode : string -> option string.

(** [ensure_string(item)] (utils.py, lines 402-410). *)
Definition ensure_string (x : item) : result string :=
  match x with
  | Bytes b => match utf8_decode b with
               | Some s => Ok s
               | None => Raise UnicodeDecodeError
               end
  | Val (PStr s) => Ok s
  | Val (PDict d) => Ok ("data: " ++ json_dumps true (PDict d) ++ end_of_line)
  | Val v => Ok (py_str v)
  end.

(** The part of [check_response_content] that reads a dict
    (utils.py, lines 472-486). *)
Definition check_dict (d : list (string * pyval)) (engine : string) (stream : bool)
    (error_triggers : list string) : result (item * bool) :=
  let content := PDict d in
  if dict_has "error" d && negb (py_eqb (dict_get "error" PNone d) empty_error)
  then
    let status_code := dict_get "status_code" (PInt 500) d in
    let detail := dict_get "details" (PStr (py_str content)) d in
    Raise (HTTPException status_code (take 300 (py_str detail)))
  else if negb (in_list engine unchecked_engines) && negb stream
  then
    if existsb (fun x => contains x (py_str content)) error_triggers
    then Raise StopAsyncIteration
    else
      let message_content :=
        safe_get content [KStr "choices"; KIdx 0; KStr "message"; KStr "content"] PNone in
      if py_eqb message_content (PStr "") || py_eqb message_content PNone
      then Raise StopAsyncIteration
      else Ok (Val content, false)
  else Ok (Val content, false).

(** The part that reads a [str] (lines 451-470), then the dict part. *)
Definition check_str (content : string) (engine : string) (stream : bool)
    (error_triggers : list string) : result (item * bool) :=
  let content := if startswith "data:" content then lstrip "data: " content
                 else content in
  if startswith "[DONE]" content then Raise StopAsyncIteration
  else
    let encode_content := match unicode_escape content with
                          | Some s => s
                          | None => content
                          end in
    if existsb (fun x => contains x encode_content) error_triggers
    then Raise StopAsyncIteration
    else
      match json_loads content with
      | None =>
          if negb (contains "uni-api-heartbeat" content) then Raise StopAsyncIteration
          else Ok (Val (PStr content), false)
      | Some (PDict d) => check_dict d engine stream error_triggers
      | Some v => Ok (Val v, false)
      end.

(** [check_response_content(content, channel_id, engine, stream,
    error_triggers)] (utils.py, lines 432-486); [channel_id] is read by
    the log only. *)
Definition check_response_content (content : item) (engine : string) (stream : bool)
    (error_triggers : list string) : result (item * bool) :=
  match content with
  | Bytes b =>
      if in_list (identify_audio_format b) audio_formats then Ok (Bytes b, true)
      else match utf8_decode b with
           | None => Raise UnicodeDecodeError
           | Some s => check_str s engine stream error_triggers
           end
  | Val (PStr s) => check_str s engine stream error_triggers
  | Val (PDict d) => check_dict d engine stream error_triggers
  | Val v => Ok (Val v, false)
  end.

(** What the caller of [error_handling_wrapper] gets: the audio bytes, or
    a stream, here the elements it yields and the exception that ends it,
    if one does. *)
Inductive wrapped : Type :=
| Audio (b : item)
| Stream (out : list item) (raised : option exn).

(** The generator that the wrapper returns when the first element is a
    heartbeat (lines 497-510); [first_real_response] is [None] until a
    truthy element that is no heartbeat has been checked. A
    [StopAsyncIteration] raised inside an asynchronous generator reaches
    its consumer as a [RuntimeError]. *)
Fixpoint heartbeat_generator_rest (seen_real : bool) (rest : list item)
    (engine : string) (stream : bool) (error_triggers : list string)
  : list item * option exn :=
  match rest with
  | [] => ([], None)
  | x :: rest' =>
      if negb seen_real && negb (is_heartbeat x)
      then
        match check_response_content x engine stream error_triggers with
        | Raise StopAsyncIteration => ([], Some RuntimeError)
        | Raise e => ([], Some e)
        | Ok (checked_content, is_audio) =>
            if is_audio
            then
              let '(out, e) := heartbeat_generator_rest (item_truthy x) rest'
                                 engine stream error_triggers in
              (checked_content :: out, e)
            else
              match ensure_string x with
              | Raise e => ([], Some e)
              | Ok s =>
                  let '(out, e) := heartbeat_generator_rest (item_truthy x) rest'
                                     engine stream error_triggers in
                  (Val (PStr s) :: out, e)
              end
        end
      else
        match ensure_string x with
        | Raise e => ([], Some e)
        | Ok s =>
            let '(out, e) := heartbeat_generator_rest seen_real rest'
                               engine stream error_triggers in
            (Val (PStr s) :: out, e)
        end
  end.

(** The generator of lines 520-532. *)
Fixpoint plain_generator (l : list item) : list item * option exn :=
  match l with
  | [] => ([], None)
  | x :: l' =>
      match ensure_string x with
      | Raise e => ([], Some e)
      | Ok s => let '(out, e) := plain_generator l' in (Val (PStr s) :: out, e)
      end
  end.

(** [error_handling_wrapper(generator, channel_id, engine, stream,
    error_triggers)] (utils.py, lines 488-537) on a generator that yields
    the elements of [generator] and ends; the time to the first element
    is not part of the embedding. *)
Definition error_handling_wrapper (generator : list item) (engine : string)
    (stream : bool) (error_triggers : list string) : result wrapped :=
  match generator with
  | [] => Raise (HTTPException (PInt 400) "data: {'error': 'No data returned'}")
  | first_item :: rest =>
      if is_heartbeat first_item
      then
        let '(out, e) := heartbeat_generator_rest false rest
                           engine stream error_triggers in
        Ok (Stream (first_item :: out) e)
      else
        match check_response_content first_item engine stream error_triggers with
        | Raise StopAsyncIteration =>
            Raise (HTTPException (PInt 400) "data: {'error': 'No data returned'}")
        | Raise e => Raise e
        | Ok (checked_content, is_audio) =>
            if is_audio then Ok (Audio checked_content)
            else
              let '(out, e) := plain_generator (first_item :: rest) in
              Ok (Stream out e)
        end
  end.

End Runtime.

(* ===================================================================== *)
(** ** Asynchronous generators (response.py) *)
(* ===================================================================== *)

(** A piece of the body of a generator: the elements it yields, its value
    or the exception that ends it, and the state of [random] it leaves. *)
Definition gen (A : Type) : Type := mt_state -> list item * result A * mt_state.

Definition gret {A} (a : A) : gen A := fun g => ([], Ok a, g).

Definition gbind {A B} (m : gen A) (k : A -> gen B) : gen B :=
  fun g =>
    let '(out, r, g) := m g in
    match r with
    | Ok a => let '(out', r', g) := k a g in ((out ++ out')%list, r', g)
    | Raise e => (out, Raise e, g)
    end.

Notation "'run!' x ':=' m 'in' k" := (gbind m (fun x => k))
  (at level 10, x name, m at level 100, k at level 200).

(** [yield x]. *)
Definition yield (x : item) : gen unit := fun g => ([x], Ok tt, g).

Definition lift {A} (r : result A) : gen A := fun g => ([], r, g).

(** [sse_string = await generate_sse_response(...)] and [yield sse_string]. *)
Definition yield_sse (timestamp model content tools_id function_call_name
    function_call_content role total_tokens prompt_tokens completion_tokens : pyval)
  : gen string :=
  fun g =>
    let '(r, g) := generate_sse_response g timestamp model content tools_id
                     function_call_name function_call_content role
                     total_tokens prompt_tokens completion_tokens in
    match r with
    | Ok sse_string => ([Val (PStr sse_string)], Ok sse_string, g)
    | Raise e => ([], Raise e, g)
    end.

(** How the processing of a line leaves the loops. *)
Inductive control : Type :=
| Continue
| Break
| Return.

(** [while "\n" in buffer: ...] over the lines that the loop takes out of the
    buffer; [handle] is the body of the loop and [st] its local variables. *)
Fixpoint run_lines {S} (handle : S -> string -> gen (control * S)) (st : S)
    (lines : list string) : gen (control * S) :=
  match lines with
  | [] => gret (Continue, st)
  | line :: lines' =>
      run! r := handle st line in
      match fst r with
      | Continue => run_lines handle (snd r) lines'
      | _ => gret r
      end
  end.

(** [async for chunk in response.aiter_text(): buffer += chunk; while ...]. *)
Fixpoint run_chunks {S} (handle : S -> string -> gen (control * S)) (st : S)
    (buffer : string) (chunks : list string) : gen (control * S) :=
  match chunks with
  | [] => gret (Continue, st)
  | chunk :: chunks' =>
      let '(lines, buffer) := take_lines (buffer ++ chunk) in
      run! r := run_lines handle st lines in
      match fst r with
      | Continue => run_chunks handle (snd r) buffer chunks'
      | _ => gret r
      end
  end.

(** The upstream response: its status, its body as text (read when the
    status is an error) and the chunks of text that it streams. *)
Record response : Type := {
  status_code : Z;
  body : string;
  chunks : list string
}.

(** [v[k] = x]. *)
Definition py_setitem (v : pyval) (k : string) (x : pyval) : result pyval :=
  match v with
  | PDict d => Ok (PDict (dict_set k x d))
  | _ => Raise TypeError
  end.

(** [a or b]. *)
Definition py_or (a b : pyval) : pyval := if truthy a then a else b.

Definition nonempty (s : string) : bool := negb (String.eqb s EmptyString).

(** The local variables of the Gemini adapter. *)
Record gemini_vars : Type := {
  revicing_function_call : bool;
  function_full_response : string;
  need_function_call : bool;
  is_finish : bool
}.

Section Adapters.

Variable json_loads : string -> option pyval.

Definition loads (s : string) : result pyval :=
  match json_loads s with
  | Some v => Ok v
  | None => Raise JSONDecodeError
  end.

(** [check_response(response, error_log)] (response.py, lines 13-22). *)
Definition check_response (r : response) (error_log : string) : option pyval :=
  if negb ((200 <=? status_code r) && (status_code r <? 300))
  then
    let error_str := body r in
    let error_json := match json_loads error_str with
                      | Some v => v
                      | None => PStr error_str
                      end in
    Some (PDict [("error", PStr (error_log ++ " HTTP Error"));
                 ("status_code", PInt (status_code r));
                 ("details", error_json)])
  else None.

(** The body of the loop of [fetch_gpt_response_stream]
    (response.py, lines 156-168). *)
Definition gpt_line (random_str : string) (st : unit) (line : string)
  : gen (control * unit) :=
  if nonempty line && negb (String.eqb line "data: ")
     && negb (String.eqb line "data:") && negb (startswith ": " line)
  then
    let result := lstrip "data: " line in
    if String.eqb (strip result) "[DONE]"
    then run! _ := yield DONE in gret (Return, tt)
    else
      run! line := lift (loads result) in
      run! line := lift (py_setitem line "id" (PStr ("chatcmpl-" ++ random_str))) in
      let no_stream_content :=
        safe_get line [KStr "choices"; KIdx 0; KStr "message"; KStr "content"] PNone in
      if truthy no_stream_content
      then
        run! _ := yield_sse (safe_get line [KStr "created"] PNone)
                    (safe_get line [KStr "model"] PNone) no_stream_content
                    PNone PNone PNone PNone (PInt 0) (PInt 0) (PInt 0) in
        gret (Continue, tt)
      else
        run! _ := yield (Val (PStr ("data: " ++ strip (json_dumps true line)
                                    ++ end_of_line))) in
        gret (Continue, tt)
  else gret (Continue, tt).

(** [fetch_gpt_response_stream(client, url, headers, payload)]
    (response.py, lines 140-168); [timestamp] is the time of the request
    in whole seconds. *)
Definition fetch_gpt_response_stream (timestamp : Z) (r : response) : gen unit :=
  run! random_str := (fun g => let '(s, g) := seeded_random_str (PInt timestamp) g in
                               ([], s, g)) in
  match check_response r "fetch_gpt_response_stream" with
  | Some error_message => yield (Val error_message)
  | None =>
      run! _ := run_chunks (gpt_line random_str) tt EmptyString (chunks r) in
      gret tt
  end.

(** The body of the loop of [fetch_claude_response_stream]
    (response.py, lines 264-306); the local variable is [input_tokens]. *)
Definition claude_line (timestamp model : pyval) (input_tokens : pyval)
    (line : string) : gen (control * pyval) :=
  if startswith "data:" line
  then
    let line := lstrip "data: " line in
    run! resp := lift (loads line) in
    run! message := lift (py_get resp "message" PNone) in
    run! input_tokens :=
      (if truthy message
       then
         run! role := lift (py_get message "role" PNone) in
         run! _ := (if truthy role
                    then run! _ := yield_sse timestamp model PNone PNone PNone PNone
                                     role (PInt 0) (PInt 0) (PInt 0) in gret tt
                    else gret tt) in
         run! tokens_use := lift (py_get message "usage" PNone) in
         if truthy tokens_use
         then lift (py_get tokens_use "input_tokens" (PInt 0))
         else gret input_tokens
       else gret input_tokens) in
    run! usage := lift (py_get resp "usage" PNone) in
    run! _ :=
      (if truthy usage
       then
         run! output_tokens := lift (py_get usage "output_tokens" (PInt 0)) in
         run! total_tokens := lift (py_add input_tokens output_tokens) in
         run! _ := yield_sse timestamp model PNone PNone PNone PNone PNone
                     total_tokens input_tokens output_tokens in
         gret tt
       else gret tt) in
    run! tool_use := lift (py_get resp "content_block" PNone) in
    run! _ :=
      (if truthy tool_use
       then
         run! type := lift (py_getitem tool_use "type") in
         if py_eqb (PStr "tool_use") type
         then
           run! tools_id := lift (py_getitem tool_use "id") in
           run! has_name := lift (py_contains "name" tool_use) in
           if has_name
           then
             run! function_call_name := lift (py_getitem tool_use "name") in
             run! _ := yield_sse timestamp model PNone tools_id function_call_name
                         PNone PNone (PInt 0) (PInt 0) (PInt 0) in
             gret tt
           else gret tt
         else gret tt
       else gret tt) in
    run! delta := lift (py_get resp "delta" PNone) in
    if negb (truthy delta) then gret (Continue, input_tokens)
    else
      run! has_text := lift (py_contains "text" delta) in
      run! _ :=
        (if has_text
         then
           run! content := lift (py_getitem delta "text") in
           run! _ := yield_sse timestamp model content PNone PNone PNone PNone
                       (PInt 0) (PInt 0) (PInt 0) in
           gret tt
         else gret tt) in
      run! has_partial_json := lift (py_contains "partial_json" delta) in
      run! _ :=
        (if has_partial_json
         then
           run! function_call_content := lift (py_getitem delta "partial_json") in
           run! _ := yield_sse timestamp model PNone PNone PNone function_call_content
                       PNone (PInt 0) (PInt 0) (PInt 0) in
           gret tt
         else gret tt) in
      gret (Continue, input_tokens)
  else gret (Continue, input_tokens).

(** [fetch_claude_response_stream(client, url, headers, payload, model)]
    (response.py, lines 248-307). *)
Definition fetch_claude_response_stream (timestamp : Z) (r : response) (model : pyval)
  : gen unit :=
  match check_response r "fetch_claude_response_stream" with
  | Some error_message => yield (Val error_message)
  | None =>
      run! _ := run_chunks (claude_line (PInt timestamp) model) (PInt 0)
                  EmptyString (chunks r) in
      yield DONE
  end.

(** The substrings that the Gemini adapter looks for in a line. *)
Definition finishReason_trigger : string := quoted "'finishReason': '".
Definition text_trigger : string := quoted "'text': '".
Definition functionCall_trigger : string := quoted "'functionCall': {".

(** The body of the loop of [fetch_gemini_response_stream]
    (response.py, lines 46-78). *)
Definition gemini_line (timestamp model : pyval) (st : gemini_vars) (line : string)
  : gen (control * gemini_vars) :=
  if nonempty line && contains finishReason_trigger line
  then gret (Break, {| revicing_function_call := revicing_function_call st;
                       function_full_response := function_full_response st;
                       need_function_call := need_function_call st;
                       is_finish := true |})
  else
    run! _ :=
      (if nonempty line && contains text_trigger line
       then
         match json_loads ("{" ++ line ++ "}") with
         | None => gret tt
         | Some json_data =>
             run! content := lift (py_get json_data "text" (PStr "")) in
             run! content := lift (match content with
                                   | PStr c => Ok (PStr (join (chr LF) (split "\n" c)))
                                   | _ => Raise AttributeError
                                   end) in
             run! _ := yield_sse timestamp model content PNone PNone PNone PNone
                         (PInt 0) (PInt 0) (PInt 0) in
             gret tt
         end
       else gret tt) in
    if nonempty line
       && (contains functionCall_trigger line || revicing_function_call st)
    then
      if contains "]" line
      then gret (Continue, {| revicing_function_call := false;
                              function_full_response := function_full_response st;
                              need_function_call := true;
                              is_finish := is_finish st |})
      else gret (Continue, {| revicing_function_call := true;
                              function_full_response :=
                                function_full_response st ++ line;
                              need_function_call := true;
                              is_finish := is_finish st |})
    else gret (Continue, st).

Definition gemini_tools_id : pyval := PStr "chatcmpl-9inWv0yEtgn873CxMBzHeCeiHctTV".

(** [fetch_gemini_response_stream(client, url, headers, payload, model)]
    (response.py, lines 24-91). *)
Definition fetch_gemini_response_stream (timestamp : Z) (r : response) (model : pyval)
  : gen unit :=
  match check_response r "fetch_gemini_response_stream" with
  | Some error_message => yield (Val error_message)
  | None =>
      run! st := run_chunks (gemini_line (PInt timestamp) model)
                   {| revicing_function_call := false;
                      function_full_response := "{";
                      need_function_call := false;
                      is_finish := false |}
                   EmptyString (chunks r) in
      let st := snd st in
      run! _ :=
        (if need_function_call st
         then
           run! function_call := lift (loads (function_full_response st)) in
           run! fc := lift (py_getitem function_call "functionCall") in
           run! function_call_name := lift (py_getitem fc "name") in
           run! _ := yield_sse (PInt timestamp) model PNone gemini_tools_id
                       function_call_name PNone PNone (PInt 0) (PInt 0) (PInt 0) in
           run! fc := lift (py_getitem function_call "functionCall") in
           run! args := lift (py_getitem fc "args") in
           let function_full_response := json_dumps true args in
           run! _ := yield_sse (PInt timestamp) model PNone gemini_tools_id PNone
                       (PStr function_full_response) PNone
                       (PInt 0) (PInt 0) (PInt 0) in
           gret tt
         else gret tt) in
      yield DONE
  end.

(** The body of the loop of [fetch_azure_response_stream]
    (response.py, lines 185-198); the local variable is [sse_string]. *)
Definition azure_line (timestamp : pyval) (sse_string : string) (line : string)
  : gen (control * string) :=
  if nonempty line && negb (String.eqb line "data: ")
     && negb (String.eqb line "data:") && negb (startswith ": " line)
  then
    let result := lstrip "data: " line in
    if String.eqb (strip result) "[DONE]"
    then run! _ := yield DONE in gret (Return, sse_string)
    else
      run! line := lift (loads result) in
      let no_stream_content :=
        safe_get line [KStr "choices"; KIdx 0; KStr "message"; KStr "content"] PNone in
      let stream_content :=
        safe_get line [KStr "choices"; KIdx 0; KStr "delta"; KStr "content"] PNone in
      run! sse_string :=
        (if truthy no_stream_content || truthy stream_content || nonempty sse_string
         then yield_sse timestamp (safe_get line [KStr "model"] PNone)
                (py_or no_stream_content stream_content)
                PNone PNone PNone PNone (PInt 0) (PInt 0) (PInt 0)
         else gret sse_string) in
      if truthy no_stream_content
      then run! _ := yield DONE in gret (Return, sse_string)
      else gret (Continue, sse_string)
  else gret (Continue, sse_string).

(** [fetch_azure_response_stream(client, url, headers, payload)]
    (response.py, lines 170-198). *)
Definition fetch_azure_response_stream (timestamp : Z) (r : response) : gen unit :=
  match check_response r "fetch_azure_response_stream" with
  | Some error_message => yield (Val error_message)
  | None =>
      run! _ := run_chunks (azure_line (PInt timestamp)) EmptyString
                  EmptyString (chunks r) in
      gret tt
  end.

(** The body of the loop of [fetch_cloudflare_response_stream]
    (response.py, lines 214-223). *)
Definition cloudflare_line (timestamp model : pyval) (st : unit) (line : string)
  : gen (control * unit) :=
  if startswith "data:" line
  then
    let line := lstrip "data: " line in
    if String.eqb line "[DONE]"
    then run! _ := yield DONE in gret (Return, tt)
    else
      run! resp := lift (loads line) in
      run! message := lift (py_get resp "response" PNone) in
      if truthy message
      then run! _ := yield_sse timestamp model message PNone PNone PNone PNone
                       (PInt 0) (PInt 0) (PInt 0) in
           gret (Continue, tt)
      else gret (Continue, tt)
  else gret (Continue, tt).

(** [fetch_cloudflare_response_stream(client, url, headers, payload, model)]
    (response.py, lines 200-223). *)
Definition fetch_cloudflare_response_stream (timestamp : Z) (r : response)
    (model : pyval) : gen unit :=
  match check_response r "fetch_cloudflare_response_stream" with
  | Some error_message => yield (Val error_message)
  | None =>
      run! _ := run_chunks (cloudflare_line (PInt timestamp) model) tt
                  EmptyString (chunks r) in
      gret tt
  end.

(** The body of the loop of [fetch_cohere_response_stream]
    (response.py, lines 239-246). *)
Definition cohere_line (timestamp model : pyval) (st : unit) (line : string)
  : gen (control * unit) :=
  run! resp := lift (loads line) in
  run! is_finished := lift (py_get resp "is_finished" PNone) in
  if py_eqb is_finished (PBool true)
  then run! _ := yield DONE in gret (Return, tt)
  else
    run! event_type := lift (py_get resp "event_type" PNone) in
    if py_eqb event_type (PStr "text-generation")
    then
      run! message := lift (py_get resp "text" PNone) in
      run! _ := yield_sse timestamp model message PNone PNone PNone PNone
                  (PInt 0) (PInt 0) (PInt 0) in
      gret (Continue, tt)
    else gret (Continue, tt).

(** [fetch_cohere_response_stream(client, url, headers, payload, model)]
    (response.py, lines 225-246); its error log names the gpt adapter. *)
Definition fetch_cohere_response_stream (timestamp : Z) (r : response)
    (model : pyval) : gen unit :=
  match check_response r "fetch_gpt_response_stream" with
  | Some error_message => yield (Val error_message)
  | None =>
      run! _ := run_chunks (cohere_line (PInt timestamp) model) tt
                  EmptyString (chunks r) in
      gret tt
  end.

(** The adapter that [fetch_response_stream] picks for an engine
    (response.py, lines 416-431). *)
Definition response_gen (engine : string) (timestamp : Z) (r : response)
    (model : pyval) : result (gen unit) :=
  if String.eqb engine "gemini" || String.eqb engine "vertex-gemini"
  then Ok (fetch_gemini_response_stream timestamp r model)
  else if String.eqb engine "claude" || String.eqb engine "vertex-claude"
  then Ok (fetch_claude_response_stream timestamp r model)
  else if String.eqb engine "gpt"
  then Ok (fetch_gpt_response_stream timestamp r)
  else if String.eqb engine "azure"
  then Ok (fetch_azure_response_stream timestamp r)
  else if String.eqb engine "openrouter"
  then Ok (fetch_gpt_response_stream timestamp r)
  else if String.eqb engine "cloudflare"
  then Ok (fetch_cloudflare_response_stream timestamp r model)
  else if String.eqb engine "cohere"
  then Ok (fetch_cohere_response_stream timestamp r model)
  else Raise (ValueError "Unknown response").

End Adapters.

(** The chat id of a request: [chatcmpl-] and the 29 characters drawn after
    seeding with the timestamp of the request. *)
Definition random_str_of (timestamp : Z) : string :=
  fst (random_choices alphabet 29 (seed_int timestamp)).

Definition chat_id (timestamp : Z) : string := "chatcmpl-" ++ random_str_of timestamp.

(* ===================================================================== *)
(** ** The rate limiter of the module (utils.py, lines 42-62) *)
(* ===================================================================== *)

Module InMemoryRateLimiter.

(** [requests] is a [defaultdict(list)]: reading the entry of a key that is
    absent inserts the empty list. *)
Record t : Type := { requests : gmap string (list Z) }.

(** [InMemoryRateLimiter()]. *)
Definition new : t := {| requests := ∅ |}.

(** The limiter and the number of times the clock has been read. *)
Record world : Type := { limiter : t; reads : nat }.

(** [self.requests[key]], and the dict after the reading. *)
Definition read_log (key : string) (self : t) : list Z * t :=
  match requests self !! key with
  | Some log => (log, self)
  | None => ([], {| requests := <[key := []]> (requests self) |})
  end.

(** [self.is_rate_limited(key, limits)]. With no limit the loop reads
    nothing and [max] raises [ValueError]. *)
Definition is_rate_limited (time : nat -> Z) (key : string) (limits : list (Z * Z))
    (w : world) : result bool * world :=
  let now := time (reads w) in
  let self := limiter w in
  match limits with
  | [] => (Raise (ValueError "max() arg is an empty sequence"),
           {| limiter := self; reads := S (reads w) |})
  | _ :: _ =>
      let '(log, self) := read_log key self in
      if limit_reached log now limits
      then (Ok true, {| limiter := self; reads := S (reads w) |})
      else
        match max_period limits with
        | Raise e => (Raise e, {| limiter := self; reads := S (reads w) |})
        | Ok max_period =>
            let log := List.filter (fun req => now - max_period <? req) log in
            (Ok false,
             {| limiter := {| requests := <[key := (log ++ [now])%list]> (requests self) |};
                reads := S (reads w) |})
        end
  end.

(** A sequence of calls, each with its key and its limits. *)
Fixpoint calls (time : nat -> Z) (l : list (string * list (Z * Z))) (w : world)
  : list (result bool) * world :=
  match l with
  | [] => ([], w)
  | (key, limits) :: l' =>
      let '(r, w) := is_rate_limited time key limits w in
      let '(rs, w) := calls time l' w in
      (r :: rs, w)
  end.

(** The log of a key, empty when the key is absent. *)
Definition log_of (self : t) (key : string) : list Z :=
  default [] (requests self !! key).

End InMemoryRateLimiter.

(* ===================================================================== *)
(** ** The models of a configuration (utils.py, lines 198-205, 539-640) *)
(* ===================================================================== *)

(** [for x in v]: the elements that the iteration goes through; a dict
    gives its keys, a string its characters. *)
Definition py_iter (v : pyval) : result (list pyval) :=
  match v with
  | PList l => Ok l
  | PDict d => Ok (List.map (fun kv => PStr (fst kv)) d)
  | PStr s => Ok (List.map (fun c => PStr (chr c)) (list_ascii_of_string s))
  | _ => Raise TypeError
  end.

(** Whether a value can be a member of a set or a key of a dict. *)
Definition hashable (v : pyval) : bool :=
  match v with
  | PList _ | PDict _ => false
  | _ => true
  end.

(** [{new: old for old, new in model.items()}], from the dict built so
    far. A key of a dict of the embedding is a string. *)
Fixpoint invert_items (model : list (string * pyval)) (acc : list (string * pyval))
  : result (list (string * pyval)) :=
  match model with
  | [] => Ok acc
  | (old, new) :: model' =>
      match new with
      | PStr new => invert_items model' (dict_set new (PStr old) acc)
      | PList _ | PDict _ => Raise TypeError
      | _ => Raise (NotModelled "a dict key that is not a str")
      end
  end.

(** [d.update(other)]. *)
Definition dict_update (d other : list (string * pyval)) : list (string * pyval) :=
  fold_left (fun acc kv => dict_set (fst kv) (snd kv) acc) other d.

(** The loop of [get_model_dict]. *)
Fixpoint get_model_dict_loop (models : list pyval) (model_dict : list (string * pyval))
  : result (list (string * pyval)) :=
  match models with
  | [] => Ok model_dict
  | model :: models' =>
      match model with
      | PStr m => get_model_dict_loop models' (dict_set m (PStr m) model_dict)
      | PDict d =>
          let! inverted := invert_items d [] in
          get_model_dict_loop models' (dict_update model_dict inverted)
      | _ => get_model_dict_loop models' model_dict
      end
  end.

(** [get_model_dict(provider)] (utils.py, lines 198-205). *)
Definition get_model_dict (provider : pyval) : result (list (string * pyval)) :=
  let! models := py_getitem provider "model" in
  let! models := py_iter models in
  get_model_dict_loop models [].

(** The entry of a model in the lists that [get_all_models] and
    [post_all_models] return. *)
Definition model_info (model : pyval) : pyval :=
  PDict [("id", model); ("object", PStr "model");
         ("created", PInt 1720524448858); ("owned_by", PStr "uni-api")].

(** The two local variables of the loops: [all_models], and [unique_models],
    a set, here the list of its members in the order of their arrival. *)
Record models_state : Type := {
  all_models : list pyval;
  unique_models : list pyval
}.

(** [x in unique_models]; a member of a set has to be hashable. *)
Definition in_unique (x : pyval) (unique : list pyval) : result bool :=
  if hashable x then Ok (existsb (py_eqb x) unique) else Raise TypeError.

(** [unique_models.add(model)] and [all_models.append(model_info)]. *)
Definition add_model (model : pyval) (st : models_state) : models_state :=
  {| all_models := (all_models st ++ [model_info model])%list;
     unique_models := (unique_models st ++ [model])%list |}.

(** [if model not in unique_models: ...]. *)
Definition add_if_new (model : pyval) (st : models_state) : result models_state :=
  let! seen := in_unique model (unique_models st) in
  if seen then Ok st else Ok (add_model model st).

(** [for model in model_dict.keys(): if model not in unique_models: ...],
    with the condition [keep] that one of the loops adds. *)
Fixpoint add_keys (keep : string -> bool) (keys : list string) (st : models_state)
  : result models_state :=
  match keys with
  | [] => Ok st
  | model :: keys' =>
      let! seen := in_unique (PStr model) (unique_models st) in
      if negb seen && keep model
      then add_keys keep keys' (add_model (PStr model) st)
      else add_keys keep keys' st
  end.

(** The loop of [get_all_models]. *)
Fixpoint get_all_models_loop (providers : list pyval) (st : models_state)
  : result models_state :=
  match providers with
  | [] => Ok st
  | provider :: providers' =>
      let! model_dict := get_model_dict provider in
      let! st := add_keys (fun _ => true) (List.map fst model_dict) st in
      get_all_models_loop providers' st
  end.

(** [get_all_models(config)] (utils.py, lines 623-640). *)
Definition get_all_models (config : pyval) : result (list pyval) :=
  let! providers := py_getitem config "providers" in
  let! providers := py_iter providers in
  let! st := get_all_models_loop providers {| all_models := []; unique_models := [] |} in
  Ok (all_models st).

(** [v[i]] for an integer index. A dict of the embedding has no integer
    key. *)
Definition py_getitem_int (v : pyval) (i : Z) : result pyval :=
  match v with
  | PList l =>
      let n := Z.of_nat (List.length l) in
      let j := if i <? 0 then i + n else i in
      if (0 <=? j) && (j <? n)
      then match nth_error l (Z.to_nat j) with
           | Some x => Ok x
           | None => Raise IndexError
           end
      else Raise IndexError
  | PDict _ => Raise KeyError
  | PStr s =>
      let n := Z.of_nat (String.length s) in
      let j := if i <? 0 then i + n else i in
      if (0 <=? j) && (j <? n)
      then match String.get (Z.to_nat j) s with
           | Some c => Ok (PStr (chr c))
           | None => Raise IndexError
           end
      else Raise IndexError
  | _ => Raise TypeError
  end.

(** [for model_item in models: if model_item not in unique_models: ...]
    over the values of an iteration. *)
Fixpoint add_items (models : list pyval) (st : models_state) : result models_state :=
  match models with
  | [] => Ok st
  | model_item :: models' =>
      let! st := add_if_new model_item st in
      add_items models' st
  end.

(** [for provider_item in config["providers"]:] of [post_all_models], which
    skips the providers of another name. *)
Fixpoint add_provider_models (keep : string -> bool) (provider : string)
    (providers : list pyval) (st : models_state) : result models_state :=
  match providers with
  | [] => Ok st
  | provider_item :: providers' =>
      let! name := py_getitem provider_item "provider" in
      if negb (py_eqb name (PStr provider))
      then add_provider_models keep provider providers' st
      else
        let! model_dict := get_model_dict provider_item in
        let! st := add_keys keep (List.map fst model_dict) st in
        add_provider_models keep provider providers' st
  end.

(** [x.startswith("sk-") and x in api_list]. *)
Definition is_own_key (x : string) (api_list : pyval) : result bool :=
  if startswith "sk-" x then py_contains x api_list else Ok false.

(** One round of the loop of [post_all_models] for a model that is not
    [all]: the state it leaves. *)
Definition post_model (config api_list models_list : pyval) (model : pyval)
    (st : models_state) : result models_state :=
  let! has_slash := py_contains "/" model in
  if has_slash
  then
    match model with
    | PStr s =>
        let provider := nth 0 (split "/" s) EmptyString in
        let model := nth 1 (split "/" s) EmptyString in
        let! own := is_own_key provider api_list in
        if String.eqb model "*"
        then
          if own
          then
            let! models := py_getitem models_list provider in
            let! models := py_iter models in
            add_items models st
          else
            let! providers := py_getitem config "providers" in
            let! providers := py_iter providers in
            add_provider_models (fun _ => true) provider providers st
        else
          if own
          then
            let! models := py_getitem models_list provider in
            let! listed := py_contains model models in
            if listed then add_if_new (PStr model) st else Ok st
          else
            let! providers := py_getitem config "providers" in
            let! providers := py_iter providers in
            add_provider_models (String.eqb model) provider providers st
    | _ => Raise AttributeError
    end
  else
    match model with
    | PStr s =>
        let! own := is_own_key s api_list in
        if own then Ok st else add_if_new (PStr s) st
    | _ => Raise AttributeError
    end.

(** The loop of [post_all_models]: [inl] is what the [return] inside the
    loop returns, [inr] the state at the end of the loop. *)
Fixpoint post_all_models_loop (config api_list models_list : pyval)
    (models : list pyval) (st : models_state)
  : result (list pyval + models_state) :=
  match models with
  | [] => Ok (inr st)
  | model :: models' =>
      if py_eqb model (PStr "all")
      then let! all_models := get_all_models config in Ok (inl all_models)
      else
        let! st := post_model config api_list models_list model st in
        post_all_models_loop config api_list models_list models' st
  end.

(** [post_all_models(api_index, config, api_list, models_list)]
    (utils.py, lines 539-621). *)
Definition post_all_models (api_index : Z) (config api_list models_list : pyval)
  : result (list pyval) :=
  let! api_keys := py_getitem config "api_keys" in
  let! api_key := py_getitem_int api_keys api_index in
  let! models := py_getitem api_key "model" in
  if truthy models
  then
    (* the subscripts are evaluated again for the loop *)
    let! models := py_iter models in
    let! r := post_all_models_loop config api_list models_list models
                {| all_models := []; unique_models := [] |} in
    match r with
    | inl all_models => Ok all_models
    | inr st => Ok (all_models st)
    end
  else Ok [].

(* ===================================================================== *)
(** ** The Vertex Claude adapter (response.py, lines 93-138) *)
(* ===================================================================== *)

Module vertex_claude.

(** The local variables of the adapter. *)
Record vars : Type := {
  revicing_function_call : bool;
  function_full_response : string;
  need_function_call : bool
}.

(** The substring that opens a tool call. *)
Definition tool_use_trigger : string := quoted "'type': 'tool_use'".

(** The body of the loop (lines 108-127). *)
Definition line_body (json_loads : string -> option pyval) (timestamp model : pyval)
    (st : vars) (line : string) : gen (control * vars) :=
  run! _ :=
    (if nonempty line && contains text_trigger line
     then
       match json_loads ("{" ++ line ++ "}") with
       | None => gret tt
       | Some json_data =>
           run! content := lift (py_get json_data "text" (PStr "")) in
           run! content := lift (match content with
                                 | PStr c => Ok (PStr (join (chr LF) (split "\n" c)))
                                 | _ => Raise AttributeError
                                 end) in
           run! _ := yield_sse timestamp model content PNone PNone PNone PNone
                       (PInt 0) (PInt 0) (PInt 0) in
           gret tt
       end
     else gret tt) in
  if nonempty line && (contains tool_use_trigger line || revicing_function_call st)
  then
    if contains "]" line
    then gret (Continue, {| revicing_function_call := false;
                            function_full_response := function_full_response st;
                            need_function_call := true |})
    else gret (Continue, {| revicing_function_call := true;
                            function_full_response := function_full_response st ++ line;
                            need_function_call := true |})
  else gret (Continue, st).

End vertex_claude.

(** [fetch_vertex_claude_response_stream(client, url, headers, payload,
    model)] (response.py, lines 93-138). *)
Definition fetch_vertex_claude_response_stream (json_loads : string -> option pyval)
    (timestamp : Z) (r : response) (model : pyval) : gen unit :=
  match check_response json_loads r "fetch_vertex_claude_response_stream" with
  | Some error_message => yield (Val error_message)
  | None =>
      run! st := run_chunks (vertex_claude.line_body json_loads (PInt timestamp) model)
                   {| vertex_claude.revicing_function_call := false;
                      vertex_claude.function_full_response := "{";
                      vertex_claude.need_function_call := false |}
                   EmptyString (chunks r) in
      let st := snd st in
      run! _ :=
        (if vertex_claude.need_function_call st
         then
           run! function_call :=
             lift (loads json_loads (vertex_claude.function_full_response st)) in
           run! function_call_name := lift (py_getitem function_call "name") in
           run! function_call_id := lift (py_getitem function_call "id") in
           run! _ := yield_sse (PInt timestamp) model PNone function_call_id
                       function_call_name PNone PNone (PInt 0) (PInt 0) (PInt 0) in
           run! input := lift (py_getitem function_call "input") in
           let function_full_response := json_dumps true input in
           run! _ := yield_sse (PInt timestamp) model PNone function_call_id PNone
                       (PStr function_full_response) PNone
                       (PInt 0) (PInt 0) (PInt 0) in
           gret tt
         else gret tt) in
      yield DONE
  end.

(* ===================================================================== *)
(** ** The response that is not streamed (response.py, lines 309-374) *)
(* ===================================================================== *)

(** [d] without the key [k]. *)
Definition dict_delete (k : string) (d : list (string * pyval)) : list (string * pyval) :=
  List.filter (fun kv => negb (String.eqb (fst kv) k)) d.

(** [del v[k]] for a string key: only a dict lets it go. *)
Definition py_delitem (v : pyval) (k : string) : result pyval :=
  match v with
  | PDict d => if dict_has k d then Ok (PDict (dict_delete k d)) else Raise KeyError
  | _ => Raise TypeError
  end.

(** [if k in v: del v[k]]: the value it leaves. *)
Definition delete_if_in (k : string) (v : pyval) : result pyval :=
  let! has := py_contains k v in
  if has then py_delitem v k else Ok v.

Fixpoint delete_in_each (k : string) (l : list pyval) : result (list pyval) :=
  match l with
  | [] => Ok []
  | v :: l' =>
      let! v := delete_if_in k v in
      let! l' := delete_in_each k l' in
      Ok (v :: l')
  end.

(** The Azure branch (lines 359-370): the object that it yields. The
    choices of a list are changed in place; the elements that a dict or a
    string gives to the loop are strings of their own, which cannot be
    changed. *)
Definition azure_filtered (response_json : pyval) : result pyval :=
  let! has_choices := py_contains "choices" response_json in
  let! response_json :=
    (if has_choices
     then
       let! choices := py_getitem response_json "choices" in
       match choices with
       | PList l =>
           let! l := delete_in_each "content_filter_results" l in
           py_setitem response_json "choices" (PList l)
       | _ =>
           let! l := py_iter choices in
           let! _ := delete_in_each "content_filter_results" l in
           Ok response_json
       end
     else Ok response_json) in
  delete_if_in "prompt_filter_results" response_json.

(** The path of the text of an element of a Gemini response. *)
Definition gemini_text_path : list key :=
  [KStr "candidates"; KIdx 0; KStr "content"; KStr "parts"; KIdx 0; KStr "text"].

(** The loop of lines 336-341: [content += chunk] for every chunk that is
    truthy. *)
Fixpoint gemini_content (parsed_data : list pyval) (content : string) : result string :=
  match parsed_data with
  | [] => Ok content
  | item :: parsed_data' =>
      let chunk := safe_get item gemini_text_path PNone in
      if truthy chunk
      then match chunk with
           | PStr s => gemini_content parsed_data' (content ++ s)
           | _ => Raise TypeError
           end
      else gemini_content parsed_data' content
  end.

(** [yield await generate_no_stream_response(...)]. *)
Definition yield_no_stream (timestamp model content tools_id function_call_name
    function_call_content role total_tokens prompt_tokens completion_tokens : pyval)
  : gen unit :=
  fun g =>
    let '(r, g) := generate_no_stream_response g timestamp model content tools_id
                     function_call_name function_call_content role
                     total_tokens prompt_tokens completion_tokens in
    match r with
    | Ok json_data => ([Val (PStr json_data)], Ok tt, g)
    | Raise e => ([], Raise e, g)
    end.

(** [fetch_response(client, url, headers, payload, engine, model)]
    (response.py, lines 309-374) on the response [r] of the upstream; the
    request and its [file] are not part of the embedding. [body r] is what
    [response.read()] returns, [json_loads (body r)] what
    [response.json()] returns, and [timestamp] the time of the call. *)
Definition fetch_response (json_loads : string -> option pyval) (engine : string)
    (timestamp : Z) (r : response) (model : pyval) : gen unit :=
  match check_response json_loads r "fetch_response" with
  | Some error_message => yield (Val error_message)
  | None =>
      if String.eqb engine "tts" then yield (Bytes (body r))
      else if String.eqb engine "gemini" || String.eqb engine "vertex-gemini"
      then
        run! response_json := lift (loads json_loads (body r)) in
        run! parsed_data :=
          lift (match response_json with
                | PStr _ => Raise (NotModelled "ast.literal_eval")
                | _ => Ok response_json
                end) in
        run! items := lift (py_iter parsed_data) in
        run! content := lift (gemini_content items EmptyString) in
        let usage_metadata :=
          safe_get parsed_data [KIdx (-1); KStr "usageMetadata"] PNone in
        run! prompt_tokens := lift (py_get usage_metadata "promptTokenCount" (PInt 0)) in
        run! candidates_tokens :=
          lift (py_get usage_metadata "candidatesTokenCount" (PInt 0)) in
        run! total_tokens := lift (py_get usage_metadata "totalTokenCount" (PInt 0)) in
        (* [safe_get] raises nothing, and both branches of the test of the
           role leave [assistant] *)
        let role := PStr "assistant" in
        yield_no_stream (PInt timestamp) model (PStr content) PNone PNone PNone role
          total_tokens prompt_tokens candidates_tokens
      else if String.eqb engine "azure"
      then
        run! response_json := lift (loads json_loads (body r)) in
        run! response_json := lift (azure_filtered response_json) in
        yield (Val response_json)
      else
        run! response_json := lift (loads json_loads (body r)) in
        yield (Val response_json)
  end.

(* ===================================================================== *)
(** ** The stream with heartbeats (response.py, lines 409-494) *)
(* ===================================================================== *)

(** The tasks that [asyncio.wait] reports as done in a round of the loop of
    [fetch_response_stream], in the order in which the [for] loop takes
    them: the task of the adapter, the task of the heartbeat queue, or
    both. Which it is depends on the timing of the upstream; here it is
    given. *)
Inductive done_tasks : Type :=
| response_done
| heartbeat_done
| response_then_heartbeat
| heartbeat_then_response.

(** How a stream has ended, as far as its consumer has driven it. *)
Inductive stream_end : Type :=
| returned
| raised (e : exn)
| suspended.

(** The heartbeat that the queue holds. *)
Definition heartbeat : item := Val (PStr heartbeat_line).

(** Whether the text [[DONE]] is [in] what the adapter has yielded; bytes
    do not take a [str] on the left. *)
Definition holds_DONE (x : item) : result bool :=
  match x with
  | Val v => py_contains "[DONE]" v
  | Bytes _ => Raise TypeError
  end.

(** What [await task] raises when the adapter has nothing more to yield:
    the [StopAsyncIteration] of a generator that has ended reaches the
    consumer of an asynchronous generator as [RuntimeError]. *)
Definition end_exn (ending : result unit) : exn :=
  match ending with
  | Ok _ => RuntimeError
  | Raise StopAsyncIteration => RuntimeError
  | Raise e => e
  end.

(** The [while True] loop (lines 433-454) over the rounds of a schedule;
    [rest] is what the adapter has still to yield and [ending] how it
    ends. A schedule that runs out leaves the stream suspended. *)
Fixpoint fetch_loop (schedule : list done_tasks) (rest : list item)
    (ending : result unit) : list item * stream_end :=
  match schedule with
  | [] => ([], suspended)
  | done :: schedule' =>
      let response (after : list item -> list item * stream_end) :=
        match rest with
        | [] => ([], raised (end_exn ending))
        | x :: rest' =>
            match holds_DONE x with
            | Raise e => ([x], raised e)
            | Ok true => ([x], returned)
            | Ok false => let '(out, e) := after rest' in (x :: out, e)
            end
        end in
      let beat (rest : list item) :=
        let '(out, e) := fetch_loop schedule' rest ending in (heartbeat :: out, e) in
      match done with
      | response_done => response (fun rest' => fetch_loop schedule' rest' ending)
      | heartbeat_done => beat rest
      | response_then_heartbeat => response beat
      | heartbeat_then_response =>
          let '(out, e) := response (fun rest' => fetch_loop schedule' rest' ending) in
          (heartbeat :: out, e)
      end
  end.

(** [fetch_response_stream(client, url, headers, payload, engine, model)]
    (response.py, lines 409-494): what it yields and how it ends, for an
    upstream response and a schedule. *)
Definition fetch_response_stream (json_loads : string -> option pyval)
    (engine : string) (timestamp : Z) (r : response) (model : pyval)
    (schedule : list done_tasks) (g : mt_state) : list item * stream_end :=
  match response_gen json_loads engine timestamp r model with
  | Raise e => ([], raised e)
  | Ok adapter =>
      let '(out, ending, _) := adapter g in
      fetch_loop schedule out ending
  end.

(* ===================================================================== *)
(** * The vocabulary of the properties *)
(* ===================================================================== *)

(** The delta of a chunk, by the precedence of the assignments of the
    emitter: the role, then the opening of a tool call, then the arguments
    of a tool call, then the content. *)
Definition sse_delta (content tools_id function_call_name function_call_content
    role : pyval) : pyval :=
  if truthy role then PDict [("role", role); ("content", PStr "")]
  else if truthy tools_id && truthy function_call_name
  then PDict [("tool_calls",
               PList [PDict [("index", PInt 0);
                             ("id", tools_id);
                             ("type", PStr "function");
                             ("function",
                              PDict [("name", function_call_name);
                                     ("arguments", PStr "")])]])]
  else if truthy function_call_content
  then PDict [("tool_calls",
               PList [PDict [("index", PInt 0);
                             ("function",
                              PDict [("arguments", function_call_content)])]])]
  else if truthy content then PDict [("content", content)]
  else PDict [].

Definition finish_reason_path : list key :=
  [KStr "choices"; KIdx 0; KStr "finish_reason"].

Definition logprobs_path : list key := [KStr "choices"; KIdx 0; KStr "logprobs"].

Definition delta_path : list key := [KStr "choices"; KIdx 0; KStr "delta"].

(** Two states of a pool that differ in the index at most. *)
Definition same_but_index (p p' : ThreadSafeCircularList) : Prop :=
  items p' = items p /\ schedule_algorithm p' = schedule_algorithm p /\
  requests p' = requests p /\ cooling_until p' = cooling_until p /\
  rate_limits p' = rate_limits p.

(** Every limit of the model holds of the log of every credential, for the
    window that ends at [now]. *)
Definition windows_ok (self : ThreadSafeCircularList) (now : Z) : Prop :=
  forall item model count period,
    In (count, period) (rate_limit_for (rate_limits self) model) ->
    recent_requests (request_log self item (model_key_of model)) now period <= count.

(** The number of rounds of the loop of [next] before the index is back at
    its start. *)
Definition rounds_left (i start_index n : nat) : nat :=
  if (i <? start_index)%nat then (start_index - i)%nat
  else if (i =? start_index)%nat then n
  else (start_index + n - i)%nat.

(** A table whose lists of limits are not empty and count from zero up. *)
Definition limits_ok (limits : list (Z * Z)) : Prop :=
  limits <> [] /\ Forall (fun l => 0 <= fst l) limits.

Definition table_ok (tbl : list (string * list (Z * Z))) : Prop :=
  Forall (fun e => limits_ok (snd e)) tbl.

(** The invariant of a pool between two calls: the name [default] and no
    name are given the same limits, and every window holds at the last
    reading of the clock and at every later one. *)
Definition pool_inv (time : nat -> Z) (w : world) : Prop :=
  rate_limit_for (rate_limits (pool w)) (Some "default")
  = rate_limit_for (rate_limits (pool w)) None /\
  forall n, (reads w <= S n)%nat -> windows_ok (pool w) (time n).

Definition is_HTTPException (r : result (item * bool)) : bool :=
  match r with
  | Raise (HTTPException _ _) => true
  | _ => false
  end.

(** The error field that makes the check raise: the key is there and its
    value is not the error object whose fields are all blank. *)
Definition has_error (d : list (string * pyval)) : bool :=
  dict_has "error" d && negb (py_eqb (dict_get "error" PNone d) empty_error).

Definition not_DONE (x : item) : Prop := x <> DONE.

(** A piece of a generator that never yields the terminal line. *)
Definition yields_no_DONE {A} (m : gen A) : Prop :=
  forall g, Forall not_DONE (fst (fst (m g))).

(** The body of a loop: either it yields no terminal line, or it yields the
    terminal line last and returns. *)
Definition line_ok {S} (m : gen (control * S)) : Prop :=
  forall g,
    match m g with
    | (out, Ok (Return, _), _) =>
        exists body, out = (body ++ [DONE])%list /\ Forall not_DONE body
    | (out, _, _) => Forall not_DONE out
    end.

(** The terminal line occurs at most once in an output, and last. *)
Definition DONE_only_last (out : list item) : Prop :=
  exists body, Forall not_DONE body /\ (out = body \/ out = (body ++ [DONE])%list).

(** The output ends with exactly one terminal line. *)
Definition ends_with_one_DONE (out : list item) : Prop :=
  exists body, Forall not_DONE body /\ out = (body ++ [DONE])%list.

(** Whether the upstream answered with a status from 200 to 299, so that
    the adapter yields no error event. *)
Definition accepted (r : response) : bool :=
  (200 <=? status_code r) && (status_code r <? 300).

(** A generator that ends with the terminal line when it ends without an
    exception, and yields it nowhere else. *)
Definition ends_ok (m : gen unit) : Prop :=
  forall g, exists body,
    Forall not_DONE body /\
    match snd (fst (m g)) with
    | Ok _ => fst (fst (m g)) = (body ++ [DONE])%list
    | Raise _ => fst (fst (m g)) = body
    end.

(** What holds of an adapter on a response: the terminal line only last;
    one error event and nothing else when the upstream refused; and, for
    an adapter that [always] closes its stream, one terminal line at the
    end of every run that ends without an exception. *)
Definition adapter_ok (always : bool) (r : response) (m : gen unit) : Prop :=
  forall g,
    DONE_only_last (fst (fst (m g))) /\
    (accepted r = false ->
     (exists error_message, fst (fst (m g)) = [Val (PDict error_message)]) /\
     snd (fst (m g)) = Ok tt) /\
    (accepted r = true -> snd (fst (m g)) = Ok tt -> always = true ->
     ends_with_one_DONE (fst (fst (m g)))).


(** The text of a stream: its chunks, one after the other. *)
Definition concat_chunks (chunks_ : list string) : string :=
  fold_right String.append EmptyString chunks_.

(** The line of the upstream: the key, and a JSON string in which a
    backslash (written with its escape) and the letter n stand between
    hello and world. *)
Definition hello_line : string := quoted "'text': 'hello\\nworld'".

(** What the line decodes to: hello, a backslash, the letter n, world. *)
Definition hello_decoded : string := "hello\nworld".

(** hello, a line feed, world. *)
Definition hello_text : string := "hello" ++ chr LF ++ "world".

(** ** Writing rate limits *)




(** ** The pool under any sequence of calls *)

(** A call of one of the methods of a pool that change it. *)
Inductive pool_call : Type :=
| call_next (model : option string)
| call_is_rate_limited (item : string) (model : option string)
| call_set_cooling (item : option string) (cooling_time : Z).

(** The calls of a list, one after the other; what they return is dropped. *)
Fixpoint pool_run (time : nat -> Z) (calls : list pool_call) (w : world) : world :=
  match calls with
  | [] => w
  | call_next model :: calls' => pool_run time calls' (snd (next time model w))
  | call_is_rate_limited item model :: calls' =>
      pool_run time calls' (snd (is_rate_limited time item model w))
  | call_set_cooling item cooling_time :: calls' =>
      pool_run time calls' (set_cooling time item cooling_time w)
  end.

(** What [is_rate_limited] answers for a credential at the time [now],
    when it answers. *)
Definition limited_at (self : ThreadSafeCircularList) (item : string)
    (model : option string) (now : Z) : bool :=
  (now <? cooling_of self item)
  || limit_reached (request_log self item (model_key_of model)) now
       (rate_limit_for (rate_limits self) model).

(** The index from which [next] starts its round. *)
Definition start_index_of (self : ThreadSafeCircularList) : nat :=
  if String.eqb (schedule_algorithm self) "fixed_priority" then 0%nat else index self.

(** The credential that [next] examines in round [j] of its loop. *)
Definition slot (self : ThreadSafeCircularList) (j : nat) : option string :=
  nth_error (items self) ((start_index_of self + j) mod List.length (items self))%nat.

(** Whether the credential of round [j] is limited when that round reads the
    clock, for a call of [next] made after [reads] readings. *)
Definition slot_limited (time : nat -> Z) (self : ThreadSafeCircularList)
    (model : option string) (reads : nat) (j : nat) : bool :=
  match slot self j with
  | Some item => limited_at self item model (time (reads + j)%nat)
  | None => false
  end.

(** The index of a pool is inside its list of credentials, and no list of
    limits of its table is empty. *)
Definition pool_wf (self : ThreadSafeCircularList) : Prop :=
  (items self <> [] -> (index self < List.length (items self))%nat) /\
  table_ok (rate_limits self).

(** The position of the credential that call number [k] of [next] returns
    when no credential is limited: the first under [fixed_priority], the
    next one in turn otherwise. *)
Definition turn (self : ThreadSafeCircularList) (k : nat) : nat :=
  if String.eqb (schedule_algorithm self) "fixed_priority" then 0%nat
  else (k mod List.length (items self))%nat.

(** The state of a pool that started as [self], after [k] calls of [next]
    none of which found a credential limited. *)
Definition light_inv (self : ThreadSafeCircularList) (k : nat) (w : world) : Prop :=
  pool_wf (pool w) /\
  items (pool w) = items self /\
  rate_limits (pool w) = rate_limits self /\
  schedule_algorithm (pool w) = schedule_algorithm self /\
  start_index_of (pool w) = turn self k /\
  cooling_until (pool w) = ∅ /\
  reads w = k /\
  forall item model_key, (List.length (request_log (pool w) item model_key) <= k)%nat.

(** ** The rate limiter of the module *)

(** Every limit that the calls give for a key holds of the log of the key,
    at every reading of the clock from the last one on. *)
Definition limiter_inv (time : nat -> Z) (limits_of : string -> list (Z * Z))
    (w : InMemoryRateLimiter.world) : Prop :=
  forall n key limit period,
    (InMemoryRateLimiter.reads w <= S n)%nat ->
    In (limit, period) (limits_of key) ->
    recent_requests (InMemoryRateLimiter.log_of (InMemoryRateLimiter.limiter w) key)
      (time n) period <= limit.

(** ** The models of a configuration *)

(** [config["providers"]], as the list that a loop goes through. *)
Definition providers_of (config : pyval) : result (list pyval) :=
  let! providers := py_getitem config "providers" in
  py_iter providers.

(** The model list of an API key of the configuration, as the list that the
    loop of [post_all_models] goes through. *)
Definition key_models_of (config : pyval) (api_index : Z) : result (list pyval) :=
  let! api_keys := py_getitem config "api_keys" in
  let! api_key := py_getitem_int api_keys api_index in
  let! models := py_getitem api_key "model" in
  py_iter models.

(** No value of a list equals one before it. *)
Definition distinct_values (l : list pyval) : Prop :=
  ForallOrdPairs (fun a b => py_eqb b a = false) l.

(** The state of the loops after the models of [names] have arrived. *)
Definition names_state (names : list string) : models_state :=
  {| all_models := List.map (fun m => model_info (PStr m)) names;
     unique_models := List.map PStr names |}.

(** A model name that some provider of a list offers: a key of its model
    dict. *)
Definition offered (providers : list pyval) (m : string) : Prop :=
  exists provider model_dict,
    In provider providers /\ get_model_dict provider = Ok model_dict /\
    dict_has m model_dict = true.

(** What the loops keep: [all_models] holds the entries of the members of
    [unique_models], and no member twice. *)
Definition models_state_ok (st : models_state) : Prop :=
  all_models st = List.map model_info (unique_models st) /\
  distinct_values (unique_models st).

(** ** The streams *)

(** A line of text of a stream. *)
Definition text (s : string) : item := Val (PStr s).

(** The heartbeat lines: the lines of text that start as a heartbeat
    does. *)
Definition heartbeat_text (x : item) : Prop :=
  exists s, x = text s /\ startswith ": uni-api-heartbeat" s = true.

Definition is_text (x : item) : Prop := exists s, x = text s.

(** [out] is [taken] with heartbeats put in. *)
Inductive with_heartbeats : list item -> list item -> Prop :=
| with_heartbeats_nil : with_heartbeats [] []
| with_heartbeats_beat taken out :
    with_heartbeats taken out -> with_heartbeats taken (heartbeat :: out)
| with_heartbeats_item x taken out :
    with_heartbeats taken out -> with_heartbeats (x :: taken) (x :: out).

(** No element of a list holds the text [[DONE]]. *)
Definition no_DONE_text (l : list item) : Prop :=
  Forall (fun x => holds_DONE x = Ok false) l.

(** How far the stream has taken the output [rest] of an adapter that ends
    as [ending], for each way the stream can end: it returns after the
    first element that holds [[DONE]]; it raises when the adapter has
    nothing more to yield, or when the test for [[DONE]] raises; suspended,
    it has taken elements without [[DONE]] only. *)
Definition taken_until (taken rest : list item) (ending : result unit)
    (e : stream_end) : Prop :=
  match e with
  | returned =>
      exists body x rest',
        taken = (body ++ [x])%list /\ rest = (taken ++ rest')%list /\
        no_DONE_text body /\ holds_DONE x = Ok true
  | raised e =>
      (taken = rest /\ no_DONE_text rest /\ e = end_exn ending) \/
      (exists body x rest',
          taken = (body ++ [x])%list /\ rest = (taken ++ rest')%list /\
          no_DONE_text body /\ holds_DONE x = Raise e)
  | suspended =>
      exists rest', rest = (taken ++ rest')%list /\ no_DONE_text taken
  end.


(** ** The response that is not streamed *)

(** What [if k in v: del v[k]] leaves of a value, when it raises
    nothing. *)
Definition without_key (k : string) (v : pyval) : pyval :=
  match v with
  | PDict d => PDict (dict_delete k d)
  | _ => v
  end.

(** The texts of the elements of a Gemini response, in order. *)
Definition gemini_texts (items : list pyval) : list string :=
  flat_map (fun item => match safe_get item gemini_text_path PNone with
                        | PStr s => [s]
                        | _ => []
                        end) items.

(** The text of an element is a string, or it is falsy. *)
Definition text_or_falsy (item : pyval) : Prop :=
  match safe_get item gemini_text_path PNone with
  | PStr _ => True
  | v => truthy v = false
  end.

(* ===================================================================== *)
(** * Properties *)
(* ===================================================================== *)

(** ** The generator and the chat id *)

#[local] Arguments String.append !_ _ / : simpl nomatch.










(** Seeding with an integer forgets the state of the generator. *)
Lemma seeded_random_str_int timestamp g :
  fst (seeded_random_str (PInt timestamp) g) = Ok (random_str_of timestamp).
Proof.
  unfold seeded_random_str, random_seed, random_str_of.
  destruct (random_choices alphabet 29 (seed_int timestamp)); reflexivity.
Qed.

#[local] Opaque seed_int random_choices random_str_of.

Lemma generate_sse_response_int g timestamp model content tools_id
    function_call_name function_call_content role
    total_tokens prompt_tokens completion_tokens :
  fst (generate_sse_response g (PInt timestamp) model content tools_id
         function_call_name function_call_content role
         total_tokens prompt_tokens completion_tokens) =
  let! sample_data :=
    sse_sample_data (random_str_of timestamp)
      (PInt timestamp) model content tools_id function_call_name
      function_call_content role total_tokens prompt_tokens completion_tokens in
  Ok ("data: " ++ json_dumps false sample_data ++ end_of_line).
Proof.
  unfold generate_sse_response.
  pose proof (seeded_random_str_int timestamp g) as H.
  destruct (seeded_random_str (PInt timestamp) g) as [r g1].
  cbn [fst] in H |- *. rewrite H. reflexivity.
Qed.

Lemma generate_no_stream_response_int g timestamp model content tools_id
    function_call_name function_call_content role
    total_tokens prompt_tokens completion_tokens :
  fst (generate_no_stream_response g (PInt timestamp) model content tools_id
         function_call_name function_call_content role
         total_tokens prompt_tokens completion_tokens) =
  let! sample_data :=
    no_stream_sample_data (random_str_of timestamp)
      (PInt timestamp) model content role
      total_tokens prompt_tokens completion_tokens in
  Ok (json_dumps false sample_data).
Proof.
  unfold generate_no_stream_response.
  pose proof (seeded_random_str_int timestamp g) as H.
  destruct (seeded_random_str (PInt timestamp) g) as [r g1].
  cbn [fst] in H |- *. rewrite H. reflexivity.
Qed.

(** The object of the emitter, written out. *)
Lemma sse_sample_data_eq random_str timestamp model content tools_id
    function_call_name function_call_content role
    total_tokens prompt_tokens completion_tokens :
  sse_sample_data random_str timestamp model content tools_id function_call_name
    function_call_content role total_tokens prompt_tokens completion_tokens =
  if truthy total_tokens
  then
    let! total := py_add prompt_tokens completion_tokens in
    Ok (PDict [ ("id", PStr ("chatcmpl-" ++ random_str));
                ("object", PStr "chat.completion.chunk");
                ("created", timestamp);
                ("model", model);
                ("choices", PList []);
                ("usage", PDict [("prompt_tokens", prompt_tokens);
                                 ("completion_tokens", completion_tokens);
                                 ("total_tokens", total)]);
                ("system_fingerprint", PStr "fp_d576307f90") ])
  else
    Ok (PDict [ ("id", PStr ("chatcmpl-" ++ random_str));
                ("object", PStr "chat.completion.chunk");
                ("created", timestamp);
                ("model", model);
                ("choices",
                 PList [ PDict [ ("index", PInt 0);
                                 ("delta", sse_delta content tools_id function_call_name
                                             function_call_content role);
                                 ("logprobs", PNone);
                                 ("finish_reason", if truthy content
                                                   then PNone else PStr "stop") ] ]);
                ("usage", PNone);
                ("system_fingerprint", PStr "fp_d576307f90") ]).
Proof.
  unfold sse_sample_data, sse_delta.
  destruct (truthy content), (truthy function_call_content), (truthy tools_id),
    (truthy function_call_name), (truthy role), (truthy total_tokens);
    try reflexivity;
    destruct (py_add prompt_tokens completion_tokens); reflexivity.
Qed.

(** ** The emitters *)


(** C6, as the claim states it, fails: the chunk that announces a role has
    [finish_reason] equal to the string stop, not null. *)
Lemma role_chunk_finish_reason_is_stop :
  exists line obj,
    fst (generate_sse_response (seed_int 0) (PInt 1700000000) (PStr "m")
           PNone PNone PNone PNone (PStr "assistant") (PInt 0) (PInt 0) (PInt 0))
    = Ok line /\
    carries line obj /\
    at_path obj finish_reason_path = Some (PStr "stop") /\
    contains (quoted "'finish_reason': 'stop'") line = true.
Proof.
  eexists. eexists. split; [| split; [| split]].
  - rewrite generate_sse_response_int, sse_sample_data_eq. cbn [truthy Z.eqb negb bind].
    reflexivity.
  - reflexivity.
  - reflexivity.
  - vm_compute. reflexivity.
Qed.

(** C6, amended. Outside the usage variant every line of the emitter
    carries a chunk of the documented shape, with [logprobs] null and the
    top-level [usage] null for every combination of content, role and
    tool-call arguments; [finish_reason] is null when the content is not
    empty and the string stop otherwise (so for the role and tool-call
    chunks); the delta follows [sse_delta]. *)
Theorem sse_chunk_shape (timestamp : Z) (g : mt_state)
    (model content tools_id function_call_name function_call_content role
     total_tokens prompt_tokens completion_tokens : pyval) :
  truthy total_tokens = false ->
  exists line obj,
    fst (generate_sse_response g (PInt timestamp) model content tools_id
           function_call_name function_call_content role
           total_tokens prompt_tokens completion_tokens) = Ok line /\
    carries line obj /\
    obj = PDict [ ("id", PStr (chat_id timestamp));
                  ("object", PStr "chat.completion.chunk");
                  ("created", PInt timestamp);
                  ("model", model);
                  ("choices",
                   PList [ PDict [ ("index", PInt 0);
                                   ("delta", sse_delta content tools_id
                                               function_call_name
                                               function_call_content role);
                                   ("logprobs", PNone);
                                   ("finish_reason",
                                    if truthy content then PNone else PStr "stop") ] ]);
                  ("usage", PNone);
                  ("system_fingerprint", PStr "fp_d576307f90") ] /\
    at_path obj logprobs_path = Some PNone /\
    at_path obj [KStr "usage"] = Some PNone /\
    at_path obj finish_reason_path =
      Some (if truthy content then PNone else PStr "stop").
Proof.
  intros Htotal.
  eexists. eexists. split; [| split; [| split; [| split; [| split]]]].
  - rewrite generate_sse_response_int, sse_sample_data_eq, Htotal. reflexivity.
  - reflexivity.
  - reflexivity.
  - reflexivity.
  - reflexivity.
  - reflexivity.
Qed.

Lemma sse_chunk_shape_witness :
  truthy (PInt 0) = false /\
  exists line obj,
    fst (generate_sse_response (seed_int 0) (PInt 1700000000) (PStr "m")
           (PStr "Hi") PNone PNone PNone PNone (PInt 0) (PInt 0) (PInt 0)) = Ok line /\
    carries line obj /\
    obj = PDict [ ("id", PStr (chat_id 1700000000));
                  ("object", PStr "chat.completion.chunk");
                  ("created", PInt 1700000000);
                  ("model", PStr "m");
                  ("choices",
                   PList [ PDict [ ("index", PInt 0);
                                   ("delta", sse_delta (PStr "Hi") PNone PNone PNone PNone);
                                   ("logprobs", PNone);
                                   ("finish_reason",
                                    if truthy (PStr "Hi") then PNone else PStr "stop") ] ]);
                  ("usage", PNone);
                  ("system_fingerprint", PStr "fp_d576307f90") ] /\
    at_path obj logprobs_path = Some PNone /\
    at_path obj [KStr "usage"] = Some PNone /\
    at_path obj finish_reason_path =
      Some (if truthy (PStr "Hi") then PNone else PStr "stop").
Proof.
  split; [reflexivity |].
  apply (sse_chunk_shape 1700000000 (seed_int 0) (PStr "m") (PStr "Hi")
           PNone PNone PNone PNone (PInt 0) (PInt 0) (PInt 0)).
  reflexivity.
Defined.

(** C7. When the emitter is given a total that is not zero, the line it
    emits carries the usage triple with
    [total_tokens = prompt_tokens + completion_tokens], whatever total it was
    given, and an empty [choices] array. *)
Theorem usage_event_total_is_sum (timestamp : Z) (g : mt_state)
    (model content tools_id function_call_name function_call_content role : pyval)
    (total_tokens prompt_tokens completion_tokens : Z) :
  total_tokens <> 0 ->
  exists line obj,
    fst (generate_sse_response g (PInt timestamp) model content tools_id
           function_call_name function_call_content role
           (PInt total_tokens) (PInt prompt_tokens) (PInt completion_tokens))
    = Ok line /\
    carries line obj /\
    at_path obj [KStr "usage"] =
      Some (PDict [("prompt_tokens", PInt prompt_tokens);
                   ("completion_tokens", PInt completion_tokens);
                   ("total_tokens", PInt (prompt_tokens + completion_tokens))]) /\
    at_path obj [KStr "choices"] = Some (PList []).
Proof.
  intros Htotal.
  assert (Ht : truthy (PInt total_tokens) = true).
  { cbn. destruct (Z.eqb_spec total_tokens 0); [contradiction | reflexivity]. }
  eexists. eexists. split; [| split; [| split]].
  - rewrite generate_sse_response_int, sse_sample_data_eq, Ht. reflexivity.
  - reflexivity.
  - reflexivity.
  - reflexivity.
Qed.

Lemma usage_event_total_is_sum_witness :
  100 <> 0 /\
  exists line obj,
    fst (generate_sse_response (seed_int 0) (PInt 1700000000) (PStr "claude")
           PNone PNone PNone PNone PNone (PInt 100) (PInt 3) (PInt 4)) = Ok line /\
    carries line obj /\
    at_path obj [KStr "usage"] =
      Some (PDict [("prompt_tokens", PInt 3);
                   ("completion_tokens", PInt 4);
                   ("total_tokens", PInt (3 + 4))]) /\
    at_path obj [KStr "choices"] = Some (PList []).
Proof.
  split; [discriminate |].
  apply (usage_event_total_is_sum 1700000000 (seed_int 0) (PStr "claude")
           PNone PNone PNone PNone PNone 100 3 4).
  discriminate.
Defined.

(** C10. With the empty string for content, and nothing else, the emitter
    produces a chunk whose delta is the empty object and whose
    [finish_reason] is the string stop: the very line that it produces
    when no content is given. *)
Theorem empty_content_is_stop_chunk (timestamp : Z) (g : mt_state) (model : pyval) :
  exists line obj,
    fst (generate_sse_response g (PInt timestamp) model (PStr "")
           PNone PNone PNone PNone (PInt 0) (PInt 0) (PInt 0)) = Ok line /\
    carries line obj /\
    at_path obj delta_path = Some (PDict []) /\
    at_path obj finish_reason_path = Some (PStr "stop") /\
    fst (generate_sse_response g (PInt timestamp) model PNone
           PNone PNone PNone PNone (PInt 0) (PInt 0) (PInt 0)) = Ok line.
Proof.
  eexists. eexists. split; [| split; [| split; [| split]]].
  - rewrite generate_sse_response_int, sse_sample_data_eq. cbn [truthy Z.eqb negb bind].
    reflexivity.
  - reflexivity.
  - reflexivity.
  - reflexivity.
  - rewrite generate_sse_response_int, sse_sample_data_eq. reflexivity.
Qed.

(** ** The credential pool: the request log *)

Lemma request_log_set_same self item model_key log :
  request_log (set_request_log self item model_key log) item model_key = log.
Proof.
  unfold request_log, set_request_log, set_requests. cbn [requests].
  rewrite lookup_insert_eq. simpl. rewrite lookup_insert_eq. reflexivity.
Qed.

Lemma request_log_set_other self item model_key log item' model_key' :
  (item', model_key') <> (item, model_key) ->
  request_log (set_request_log self item model_key log) item' model_key'
  = request_log self item' model_key'.
Proof.
  intros Hne. unfold request_log, set_request_log, set_requests. cbn [requests].
  destruct (decide (item = item')) as [-> | Hi].
  - rewrite lookup_insert_eq. simpl.
    rewrite lookup_insert_ne by congruence. reflexivity.
  - rewrite lookup_insert_ne by congruence. reflexivity.
Qed.

Lemma request_log_set_index self i item model_key :
  request_log (set_index self i) item model_key = request_log self item model_key.
Proof. reflexivity. Qed.

(** A window that has moved forward holds no more requests. *)
Lemma recent_requests_mono log now now' period :
  now <= now' -> recent_requests log now' period <= recent_requests log now period.
Proof.
  intros Hle. unfold recent_requests. apply inj_le.
  induction log as [| req log IH]; cbn [List.filter]; [lia |].
  destruct (Z.ltb_spec (now' - period) req), (Z.ltb_spec (now - period) req);
    cbn [List.length]; lia.
Qed.

Lemma recent_requests_nonneg log now period : 0 <= recent_requests log now period.
Proof. unfold recent_requests. lia. Qed.

Lemma filter_filter_length {A} (p q : A -> bool) (l : list A) :
  (List.length (List.filter p (List.filter q l)) <= List.length (List.filter p l))%nat.
Proof.
  induction l as [| x l IH]; cbn [List.filter]; [lia |].
  destruct (q x); cbn [List.filter]; destruct (p x); cbn [List.length]; lia.
Qed.

(** Trimming and recording one request adds at most one to a window. *)
Lemma recent_requests_trim_append log now max_period period :
  recent_requests (List.filter (fun req => now - max_period <? req) log ++ [now]) now period
  <= recent_requests log now period + 1.
Proof.
  unfold recent_requests. rewrite List.filter_app, List.length_app.
  pose proof (filter_filter_length (fun req => now - period <? req)
                (fun req => now - max_period <? req) log) as H.
  cbn [List.filter]. destruct (now - period <? now); cbn [List.length]; lia.
Qed.

(** What the loop over the limits answers. *)
Lemma limit_reached_false log now rate_limit :
  limit_reached log now rate_limit = false ->
  forall count period, In (count, period) rate_limit ->
    recent_requests log now period < count.
Proof.
  unfold limit_reached. intros H count period Hin.
  destruct (Z.leb_spec count (recent_requests log now period)) as [Hle | Hlt]; [| exact Hlt].
  exfalso.
  assert (E : existsb (fun l => fst l <=? recent_requests log now (snd l)) rate_limit = true).
  { apply existsb_exists. exists (count, period). split; [exact Hin |].
    cbn [fst snd]. apply Z.leb_le. exact Hle. }
  congruence.
Qed.

Lemma limit_reached_true log now rate_limit :
  limit_reached log now rate_limit = true ->
  exists count period, In (count, period) rate_limit /\
    count <= recent_requests log now period.
Proof.
  unfold limit_reached. intros H.
  apply existsb_exists in H as ([count period] & Hin & Hle).
  exists count, period. split; [exact Hin |]. apply Z.leb_le. exact Hle.
Qed.

(** The model names that share a key of the request log are given the same
    limits, as soon as the name [default] and no name are. *)
Lemma rate_limit_for_key tbl model model' :
  rate_limit_for tbl (Some "default") = rate_limit_for tbl None ->
  model_key_of model' = model_key_of model ->
  rate_limit_for tbl model' = rate_limit_for tbl model.
Proof.
  intros Hd Hk.
  assert (Hempty : rate_limit_for tbl (Some EmptyString) = rate_limit_for tbl None)
    by reflexivity.
  assert (Hone : forall m, model_key_of m = "default" ->
                           rate_limit_for tbl m = rate_limit_for tbl None).
  { intros [m |]; [| reflexivity]. unfold model_key_of.
    destruct (String.eqb_spec m EmptyString) as [-> | Hm]; [reflexivity |].
    intros ->. exact Hd. }
  destruct (String.eqb_spec (model_key_of model) "default") as [E | E].
  - rewrite (Hone model E). apply Hone. congruence.
  - destruct model as [m |]; [| contradiction E; reflexivity].
    destruct model' as [m' |].
    + unfold model_key_of in Hk, E.
      destruct (String.eqb_spec m EmptyString) as [-> | Hm]; [contradiction E; reflexivity |].
      destruct (String.eqb_spec m' EmptyString) as [-> | Hm']; congruence.
    + symmetry in Hk. contradiction.
Qed.

(** A table with a [default] entry gives the name [default] and no name the
    same limits. *)
Lemma default_entry_coherent tbl :
  assoc "default" tbl <> None ->
  rate_limit_for tbl (Some "default") = rate_limit_for tbl None.
Proof.
  intros H. unfold rate_limit_for. cbn [String.eqb Ascii.eqb Bool.eqb].
  destruct (assoc "default" tbl); [reflexivity | contradiction].
Qed.

(** ** The credential pool: [is_rate_limited] and [next] *)

Lemma same_but_index_refl p : same_but_index p p.
Proof. repeat split. Qed.

Lemma same_but_index_set_index p i : same_but_index p (set_index p i).
Proof. repeat split. Qed.

Lemma same_but_index_trans p q r :
  same_but_index p q -> same_but_index q r -> same_but_index p r.
Proof. unfold same_but_index. intuition congruence. Qed.

Lemma same_but_index_log p p' item model_key :
  same_but_index p p' -> request_log p' item model_key = request_log p item model_key.
Proof. intros (_ & _ & H & _). unfold request_log. rewrite H. reflexivity. Qed.

Lemma windows_ok_same_but_index p p' now :
  same_but_index p p' -> windows_ok p now -> windows_ok p' now.
Proof.
  intros Hs H item model count period Hin.
  rewrite (same_but_index_log p p') by exact Hs.
  destruct Hs as (_ & _ & _ & _ & Hr). rewrite Hr in Hin. apply H. exact Hin.
Qed.

Section PoolFacts.

Variable time : nat -> Z.

(** The three ways in which [is_rate_limited] ends: it answers true or
    raises and leaves the pool as it was; or it answers false, and the
    log of the credential and the model key is the old log without the
    requests older than the longest period, followed by the time of the
    call. *)
Lemma is_rate_limited_cases item model w :
  let now := time (reads w) in
  let log := request_log (pool w) item (model_key_of model) in
  let rate_limit := rate_limit_for (rate_limits (pool w)) model in
  match is_rate_limited time item model w with
  | (Ok true, w') =>
      w' = {| pool := pool w; reads := S (reads w) |} /\
      (now < cooling_of (pool w) item \/ limit_reached log now rate_limit = true)
  | (Ok false, w') =>
      cooling_of (pool w) item <= now /\
      limit_reached log now rate_limit = false /\
      exists max_period_,
        max_period rate_limit = Ok max_period_ /\
        w' = {| pool := set_request_log (pool w) item (model_key_of model)
                          (List.filter (fun req => now - max_period_ <? req) log ++ [now]);
                reads := S (reads w) |}
  | (Raise e, w') =>
      w' = {| pool := pool w; reads := S (reads w) |} /\ rate_limit = []
  end.
Proof.
  intros now log rate_limit. unfold is_rate_limited.
  fold now. fold rate_limit. fold log.
  destruct (Z.ltb_spec now (cooling_of (pool w) item)) as [Hc | Hc].
  - split; [reflexivity | left; exact Hc].
  - destruct (limit_reached log now rate_limit) eqn:Hl.
    + split; [reflexivity | right; reflexivity].
    + destruct rate_limit as [| l rate_limit'] eqn:Hr; cbn [max_period].
      * split; reflexivity.
      * split; [exact Hc |]. split; [reflexivity |].
        eexists. split; reflexivity.
Qed.

(** What a run of the loop of [next] does, from the state [w] in which
    it starts: when it raises, the pool differs from that of [w] in the
    index at most; when it returns a credential, the credential is an
    item of the pool and one call of [is_rate_limited], at a reading [k]
    of the clock, found it neither cooling nor at a limit in the pool of
    [w], and recorded the request. *)
Lemma next_loop_spec fuel start_index model w r w' :
  next_loop time fuel start_index model w = Some (r, w') ->
  let key := model_key_of model in
  let rate_limit := rate_limit_for (rate_limits (pool w)) model in
  (reads w <= reads w')%nat /\
  match r with
  | Raise _ => same_but_index (pool w) (pool w')
  | Ok item =>
      In item (items (pool w)) /\
      exists (k : nat) (max_period_ : Z) (i : nat),
        (reads w <= k)%nat /\ reads w' = S k /\
        cooling_of (pool w) item <= time k /\
        limit_reached (request_log (pool w) item key) (time k) rate_limit = false /\
        max_period rate_limit = Ok max_period_ /\
        pool w' = set_request_log (set_index (pool w) i) item key
                    (List.filter (fun req => time k - max_period_ <? req)
                       (request_log (pool w) item key) ++ [time k])
  end.
Proof.
  revert w. induction fuel as [| fuel IH]; intros w; cbn [next_loop]; [discriminate |].
  destruct (nth_error (items (pool w)) (index (pool w))) as [item |] eqn:Hnth.
  2:{ intros H. inversion H; subst. split; [lia | apply same_but_index_refl]. }
  set (i' := ((index (pool w) + 1) mod List.length (items (pool w)))%nat).
  set (w1 := {| pool := set_index (pool w) i'; reads := reads w |}).
  pose proof (is_rate_limited_cases item model w1) as Hcases.
  destruct (is_rate_limited time item model w1) as [[[|] | e] w2] eqn:Hlim;
    cbn zeta in Hcases; cbn [pool reads w1] in Hcases.
  - destruct Hcases as [-> _]. cbn [pool index set_index].
    destruct (i' =? start_index)%nat.
    + intros H. inversion H; subst. cbn [reads pool].
      split; [lia | apply same_but_index_set_index].
    + intros H. apply IH in H. cbn zeta in H. cbn [pool reads] in H.
      destruct H as [Hreads H]. split; [lia |].
      destruct r as [item' | e].
      * destruct H as (Hin & k & mp & i & Hk & Hw' & Hcool & Hlim' & Hmax & Hpool).
        split; [exact Hin |]. exists k, mp, i. repeat split; try assumption; lia.
      * eapply same_but_index_trans; [apply same_but_index_set_index | exact H].
  - destruct Hcases as (Hcool & Hl & mp & Hmax & ->).
    intros H. inversion H; subst. cbn [reads pool].
    split; [lia |]. split; [eapply nth_error_In; exact Hnth |].
    exists (reads w), mp, i'. repeat split; try assumption; lia.
  - destruct Hcases as [-> _]. intros H. inversion H; subst. cbn [reads pool].
    split; [lia | apply same_but_index_set_index].
Qed.

(** The same of [next]. *)
Lemma next_spec model w :
  let r := fst (next time model w) in
  let w' := snd (next time model w) in
  let key := model_key_of model in
  let rate_limit := rate_limit_for (rate_limits (pool w)) model in
  (reads w <= reads w')%nat /\
  match r with
  | Raise _ => same_but_index (pool w) (pool w')
  | Ok item =>
      In item (items (pool w)) /\
      exists (k : nat) (max_period_ : Z) (i : nat),
        (reads w <= k)%nat /\ reads w' = S k /\
        cooling_of (pool w) item <= time k /\
        limit_reached (request_log (pool w) item key) (time k) rate_limit = false /\
        max_period rate_limit = Ok max_period_ /\
        pool w' = set_request_log (set_index (pool w) i) item key
                    (List.filter (fun req => time k - max_period_ <? req)
                       (request_log (pool w) item key) ++ [time k])
  end.
Proof.
  cbn zeta. unfold next.
  set (self := if String.eqb (schedule_algorithm (pool w)) "fixed_priority"
               then set_index (pool w) 0 else pool w).
  assert (Hs : same_but_index (pool w) self).
  { unfold self. destruct (String.eqb _ _);
      [apply same_but_index_set_index | apply same_but_index_refl]. }
  assert (Hself : exists j, self = set_index (pool w) j).
  { unfold self. destruct (String.eqb _ _); [exists O; reflexivity |].
    exists (index (pool w)). destruct (pool w); reflexivity. }
  destruct (next_loop time (S (List.length (items self))) (index self) model
              {| pool := self; reads := reads w |}) as [[r w'] |] eqn:Hloop.
  - apply next_loop_spec in Hloop. cbn zeta in Hloop. cbn [pool reads] in Hloop.
    cbn [fst snd]. destruct Hloop as [Hreads H]. split; [exact Hreads |].
    destruct Hself as [j Hj].
    destruct r as [item | e].
    + rewrite Hj in H. cbn [items set_index rate_limits] in H.
      rewrite !request_log_set_index in H. exact H.
    + eapply same_but_index_trans; [exact Hs | exact H].
  - cbn [fst snd pool reads]. split; [lia | exact Hs].
Qed.

End PoolFacts.

Lemma succ_mod i n :
  (i < n)%nat -> ((i + 1) mod n = if (i + 1 =? n)%nat then 0 else i + 1)%nat.
Proof.
  intros H. destruct (Nat.eqb_spec (i + 1) n) as [E | E].
  - rewrite E. apply Nat.Div0.mod_same.
  - apply Nat.mod_small. lia.
Qed.

(** The loop of [next] ends: the fuel it is given is enough. *)
Lemma next_loop_fuel time fuel start_index model w :
  (start_index < List.length (items (pool w)))%nat ->
  (rounds_left (index (pool w)) start_index (List.length (items (pool w))) <= fuel)%nat ->
  (0 < fuel)%nat ->
  exists r, next_loop time fuel start_index model w = Some r.
Proof.
  revert w. induction fuel as [| fuel IH]; intros w Hstart Hleft Hfuel; [lia |].
  cbn [next_loop].
  destruct (nth_error (items (pool w)) (index (pool w))) as [item |] eqn:Hnth;
    [| eexists; reflexivity].
  assert (Hi : (index (pool w) < List.length (items (pool w)))%nat).
  { apply nth_error_Some. congruence. }
  set (n := List.length (items (pool w))) in *.
  set (i' := ((index (pool w) + 1) mod n)%nat).
  set (w1 := {| pool := set_index (pool w) i'; reads := reads w |}).
  pose proof (is_rate_limited_cases time item model w1) as Hcases.
  destruct (is_rate_limited time item model w1) as [[[|] | e] w2] eqn:Hlim;
    cbn zeta in Hcases; cbn [pool reads w1] in Hcases;
    [| eexists; reflexivity | eexists; reflexivity].
  destruct Hcases as [-> _]. cbn [pool index set_index].
  destruct (Nat.eqb_spec i' start_index) as [E | E]; [eexists; reflexivity |].
  assert (Hi' : i' = if (index (pool w) + 1 =? n)%nat then 0%nat
                     else (index (pool w) + 1)%nat).
  { unfold i'. apply succ_mod. exact Hi. }
  apply IH; cbn [pool items index set_index]; fold n.
  - exact Hstart.
  - unfold rounds_left in *.
    destruct (Nat.eqb_spec (index (pool w) + 1) n);
      destruct (Nat.ltb_spec (index (pool w)) start_index);
      destruct (Nat.eqb_spec (index (pool w)) start_index);
      destruct (Nat.ltb_spec i' start_index);
      destruct (Nat.eqb_spec i' start_index); lia.
  - unfold rounds_left in Hleft.
    destruct (Nat.ltb_spec (index (pool w)) start_index);
      destruct (Nat.eqb_spec (index (pool w)) start_index);
      destruct (Nat.eqb_spec (index (pool w) + 1) n); lia.
Qed.

(** [next] is total: it returns a credential or raises an exception of
    the program, never the marker of the embedding. *)
Lemma next_never_out_of_fuel time model w :
  exists r,
    next_loop time
      (S (List.length (items (pool w))))
      (if String.eqb (schedule_algorithm (pool w)) "fixed_priority"
       then 0%nat else index (pool w))
      model
      {| pool := if String.eqb (schedule_algorithm (pool w)) "fixed_priority"
                 then set_index (pool w) 0 else pool w;
         reads := reads w |} = Some r /\
    next time model w = r.
Proof.
  unfold next.
  set (self := if String.eqb (schedule_algorithm (pool w)) "fixed_priority"
               then set_index (pool w) 0 else pool w).
  assert (Hitems : items self = items (pool w)).
  { unfold self. destruct (String.eqb _ _); reflexivity. }
  assert (Hindex : index self = if String.eqb (schedule_algorithm (pool w)) "fixed_priority"
                                then 0%nat else index (pool w)).
  { unfold self. destruct (String.eqb _ _); reflexivity. }
  rewrite Hitems, <- Hindex.
  destruct (Nat.ltb_spec (index self) (List.length (items self))) as [Hlt | Hge].
  - destruct (next_loop_fuel time (S (List.length (items self))) (index self) model
                {| pool := self; reads := reads w |}) as [r Hr]; cbn [pool].
    + exact Hlt.
    + unfold rounds_left. rewrite Nat.ltb_irrefl, Nat.eqb_refl. lia.
    + lia.
    + exists r. rewrite <- Hitems, Hr. split; reflexivity.
  - assert (Hnone : nth_error (items self) (index self) = None)
      by (apply nth_error_None; exact Hge).
    rewrite <- Hitems. cbn [next_loop pool]. rewrite Hnone.
    eexists. split; reflexivity.
Qed.

(** ** The table of a constructed pool *)

Lemma span_digits_fst s : all_chars is_digit (fst (span_digits s)) = true.
Proof.
  induction s as [| c s IH]; [reflexivity |]. cbn [span_digits].
  destruct (is_digit c) eqn:Hc; [| reflexivity].
  destruct (span_digits s) as [ds rest]. cbn [fst all_chars] in *.
  rewrite Hc, IH. reflexivity.
Qed.

Lemma digits_value_nonneg s acc :
  all_chars is_digit s = true -> 0 <= acc -> 0 <= digits_value acc s.
Proof.
  revert acc. induction s as [| c s IH]; intros acc Hd Hacc; [exact Hacc |].
  cbn [all_chars] in Hd. apply andb_true_iff in Hd as [Hc Hs].
  cbn [digits_value]. apply IH; [exact Hs |].
  unfold is_digit in Hc. apply andb_true_iff in Hc as [Hlo _].
  apply Nat.leb_le in Hlo. lia.
Qed.

Lemma parse_limits_nonneg pieces limits :
  parse_limits pieces = Ok limits -> Forall (fun l => 0 <= fst l) limits.
Proof.
  revert limits. induction pieces as [| limit pieces IH]; intros limits; cbn [parse_limits].
  - intros H. inversion H. constructor.
  - destruct (match_rate_limit (strip limit)) as [[count unit] |] eqn:Hm; [| discriminate].
    destruct (assoc unit time_units) as [seconds |]; [| discriminate].
    destruct (parse_limits pieces) as [limits' |]; [| discriminate].
    cbn [bind]. intros H. inversion H; subst. constructor; [| apply IH; reflexivity].
    cbn [fst]. apply digits_value_nonneg; [| lia].
    unfold match_rate_limit in Hm.
    pose proof (span_digits_fst (strip limit)) as Hd.
    destruct (span_digits (strip limit)) as [ds rest]. cbn [fst] in Hd.
    destruct ds; [discriminate |]. destruct rest; [discriminate |].
    destruct (span_word rest). destruct (_ && _); [| discriminate].
    inversion Hm; subst. exact Hd.
Qed.

Lemma split_go_not_nil sep skip cur s : split_go sep skip cur s <> [].
Proof.
  revert skip cur. induction s as [| c s IH]; intros skip cur; cbn [split_go];
    [discriminate |].
  destruct skip; [| apply IH].
  destruct (String.prefix sep (String c s)); [discriminate | apply IH].
Qed.

Lemma parse_rate_limit_ok limit_string limits :
  parse_rate_limit limit_string = Ok limits -> limits_ok limits.
Proof.
  unfold parse_rate_limit, split. intros H. split; [| eapply parse_limits_nonneg; exact H].
  pose proof (split_go_not_nil "," 0 EmptyString limit_string) as Hne.
  destruct (split_go "," 0 EmptyString limit_string) as [| limit pieces]; [contradiction |].
  cbn [parse_limits] in H.
  destruct (match_rate_limit (strip limit)) as [[count unit] |]; [| discriminate].
  destruct (assoc unit time_units); [| discriminate].
  destruct (parse_limits pieces); [| discriminate].
  cbn [bind] in H. inversion H. discriminate.
Qed.

Lemma parse_rate_limit_items_ok d tbl :
  parse_rate_limit_items d = Ok tbl -> table_ok tbl.
Proof.
  revert tbl. induction d as [| [m v] d IH]; intros tbl; cbn [parse_rate_limit_items].
  - intros H. inversion H. constructor.
  - destruct v; try discriminate.
    destruct (parse_rate_limit s) as [limits |] eqn:Hp; [| discriminate].
    destruct (parse_rate_limit_items d) as [rest |]; [| discriminate].
    cbn [bind]. intros H. inversion H; subst.
    constructor; [eapply parse_rate_limit_ok; exact Hp | apply IH; reflexivity].
Qed.

Lemma assoc_In {A} k (l : list (string * A)) v : assoc k l = Some v -> In (k, v) l.
Proof.
  induction l as [| [k' v'] l IH]; cbn [assoc]; [discriminate |].
  destruct (String.eqb_spec k k') as [-> | _].
  - intros H. inversion H. left. reflexivity.
  - intros H. right. apply IH. exact H.
Qed.

Lemma substring_match_In model tbl limits :
  substring_match model tbl = Some limits -> exists k, In (k, limits) tbl.
Proof.
  induction tbl as [| [k v] tbl IH]; cbn [substring_match]; [discriminate |].
  destruct (_ && _).
  - intros H. inversion H. exists k. left. reflexivity.
  - intros H. destruct (IH H) as [k' Hk']. exists k'. right. exact Hk'.
Qed.

(** The limits that a model is given come from the table or are the
    fallback of the program: they are not empty and count from zero up. *)
Lemma rate_limit_for_ok tbl model : table_ok tbl -> limits_ok (rate_limit_for tbl model).
Proof.
  intros Ht.
  assert (Hin : forall k limits, In (k, limits) tbl -> limits_ok limits).
  { intros k limits Hin. unfold table_ok in Ht. rewrite List.Forall_forall in Ht.
    apply (Ht (k, limits)). exact Hin. }
  assert (Hdefault : limits_ok match assoc "default" tbl with
                               | Some limits => limits
                               | None => [(999999, 60)]
                               end).
  { destruct (assoc "default" tbl) eqn:E.
    - eapply Hin. eapply assoc_In. exact E.
    - split; [discriminate | constructor; [cbn; lia | constructor]]. }
  unfold rate_limit_for.
  destruct model as [m |]; [| exact Hdefault].
  destruct (String.eqb m EmptyString); [exact Hdefault |].
  destruct (assoc m tbl) eqn:E; [eapply Hin; eapply assoc_In; exact E |].
  destruct (substring_match m tbl) eqn:E'; [| exact Hdefault].
  destruct (substring_match_In _ _ _ E') as [k Hk]. eapply Hin. exact Hk.
Qed.

(** What the constructor builds: an empty log, no cooling, the index 0 and
    a table that [parse_rate_limit] filled. *)
Lemma new_ThreadSafeCircularList_spec sampled items_ rate_limit algorithm self :
  new_ThreadSafeCircularList sampled items_ rate_limit algorithm = Ok self ->
  requests self = ∅ /\ cooling_until self = ∅ /\ index self = 0%nat /\
  table_ok (rate_limits self) /\
  items self = (if String.eqb algorithm "random" then sampled else items_).
Proof.
  unfold new_ThreadSafeCircularList. intros H.
  assert (Ht : forall tbl,
             match rate_limit with
             | PDict d => parse_rate_limit_items d
             | PStr s => let! limits := parse_rate_limit s in Ok [("default", limits)]
             | _ => Ok []
             end = Ok tbl -> table_ok tbl).
  { intros tbl. destruct rate_limit; intros E; try (inversion E; constructor).
    - destruct (parse_rate_limit s) as [limits |] eqn:Hp; [| discriminate].
      cbn [bind] in E. inversion E; subst.
      constructor; [eapply parse_rate_limit_ok; exact Hp | constructor].
    - eapply parse_rate_limit_items_ok. exact E. }
  destruct (match rate_limit with
            | PDict d => parse_rate_limit_items d
            | PStr s => let! limits := parse_rate_limit s in Ok [("default", limits)]
            | _ => Ok []
            end) as [tbl |] eqn:E.
  2:{ destruct (String.eqb algorithm "random"); [discriminate |].
      destruct (String.eqb algorithm "round_robin"); [discriminate |].
      destruct (String.eqb algorithm "fixed_priority"); discriminate. }
  specialize (Ht tbl eq_refl).
  destruct (String.eqb algorithm "random").
  - cbn [bind] in H. inversion H; subst. cbn. auto.
  - destruct (String.eqb algorithm "round_robin");
      [| destruct (String.eqb algorithm "fixed_priority")];
      cbn [bind] in H; inversion H; subst; cbn; auto.
Qed.

(** ** The credential pool: the claims *)

Lemma request_log_empty self item model_key :
  requests self = ∅ -> request_log self item model_key = [].
Proof. intros H. unfold request_log. rewrite H, lookup_empty. reflexivity. Qed.

Section PoolClaims.

Variable time : nat -> Z.
Hypothesis time_mono : forall i j : nat, (i <= j)%nat -> time i <= time j.

Lemma pool_inv_next model w : pool_inv time w -> pool_inv time (snd (next time model w)).
Proof.
  intros [Hcoh Hwin].
  pose proof (next_spec time model w) as Hspec. cbn zeta in Hspec.
  destruct Hspec as [Hreads Hspec].
  destruct (fst (next time model w)) as [item | e].
  - destruct Hspec as (_ & k & mp & i & Hk & Hw' & _ & Hlim & _ & Hpool).
    split.
    + rewrite Hpool. exact Hcoh.
    + intros n Hn item' model' count period Hin.
      rewrite Hpool in Hin |- *. cbn [rate_limits set_request_log set_requests set_index] in Hin.
      destruct (decide ((item', model_key_of model') = (item, model_key_of model)))
        as [E | E].
      * inversion E as [[Hitem Hkey]]. rewrite Hkey.
        rewrite request_log_set_same.
        rewrite (rate_limit_for_key _ model model' Hcoh Hkey) in Hin.
        pose proof (limit_reached_false _ _ _ Hlim count period Hin) as Hlt.
        pose proof (recent_requests_trim_append
                      (request_log (pool w) item (model_key_of model))
                      (time k) mp period) as Htrim.
        pose proof (recent_requests_mono
                      (List.filter (fun req => time k - mp <? req)
                         (request_log (pool w) item (model_key_of model)) ++ [time k])
                      (time k) (time n) period (time_mono k n ltac:(lia))) as Hmono.
        lia.
      * rewrite request_log_set_other by exact E.
        rewrite request_log_set_index.
        apply (Hwin n ltac:(lia)). exact Hin.
  - split.
    + destruct Hspec as (_ & _ & _ & _ & Hr). rewrite Hr. exact Hcoh.
    + intros n Hn. eapply windows_ok_same_but_index; [exact Hspec |].
      apply Hwin. lia.
Qed.


Lemma pool_inv_new sampled items_ rate_limit algorithm self :
  new_ThreadSafeCircularList sampled items_ rate_limit algorithm = Ok self ->
  assoc "default" (rate_limits self) <> None ->
  pool_inv time {| pool := self; reads := 0 |}.
Proof.
  intros Hnew Hdefault.
  destruct (new_ThreadSafeCircularList_spec _ _ _ _ _ Hnew) as (Hreq & _ & _ & Htbl & _).
  split; cbn [pool reads].
  - apply default_entry_coherent. exact Hdefault.
  - intros n _ item model count period Hin.
    rewrite (request_log_empty self item _ Hreq).
    destruct (rate_limit_for_ok (rate_limits self) model Htbl) as [_ Hnonneg].
    rewrite List.Forall_forall in Hnonneg.
    apply (Hnonneg (count, period)) in Hin. cbn [fst] in Hin.
    unfold recent_requests. cbn. exact Hin.
Qed.


End PoolClaims.


(** C3, as the claim states it, fails: on a fresh pool, one call of
    [is_rate_limited] at the time 100 answers false and leaves the log of
    the credential with the new timestamp 100. *)
Lemma is_rate_limited_appends :
  exists self w',
    new_ThreadSafeCircularList [] ["k"] default_rate_limit "round_robin" = Ok self /\
    is_rate_limited (fun _ => 100) "k" None {| pool := self; reads := 0 |}
    = (Ok false, w') /\
    request_log self "k" "default" = [] /\
    request_log (pool w') "k" "default" = [100].
Proof.
  eexists. eexists. split; [reflexivity |]. split; [reflexivity |].
  split; reflexivity.
Qed.

(** C3, amended. A call of [is_rate_limited] that answers true, or raises,
    leaves the pool as it was. A call that answers false records the
    request itself: the log of its credential and model key becomes the
    old log without the entries older than the largest configured period,
    followed by the time of the call; every other log, the cooling map,
    the items, the index and the table stay as they were. [next] records
    nothing of its own: when it raises, the request log is the one it
    found, and when it returns a credential the only change is the one
    record of the call of [is_rate_limited] that selected it. *)
Theorem is_rate_limited_frame (time : nat -> Z) (item : string)
    (model : option string) (w : world) :
  let key := model_key_of model in
  let now := time (reads w) in
  match is_rate_limited time item model w with
  | (Ok false, w') =>
      (exists max_period_,
          max_period (rate_limit_for (rate_limits (pool w)) model) = Ok max_period_ /\
          request_log (pool w') item key
          = (List.filter (fun req => now - max_period_ <? req)
               (request_log (pool w) item key) ++ [now])%list) /\
      (forall item' key', (item', key') <> (item, key) ->
          request_log (pool w') item' key' = request_log (pool w) item' key') /\
      cooling_until (pool w') = cooling_until (pool w) /\
      items (pool w') = items (pool w) /\
      index (pool w') = index (pool w) /\
      rate_limits (pool w') = rate_limits (pool w)
  | (_, w') => pool w' = pool w
  end /\
  match next time model w with
  | (Ok item, w') =>
      exists (now : Z) (max_period_ : Z),
        max_period (rate_limit_for (rate_limits (pool w)) model) = Ok max_period_ /\
        request_log (pool w') item key
        = (List.filter (fun req => now - max_period_ <? req)
             (request_log (pool w) item key) ++ [now])%list /\
        forall item' key', (item', key') <> (item, key) ->
          request_log (pool w') item' key' = request_log (pool w) item' key'
  | (Raise _, w') => requests (pool w') = requests (pool w)
  end.
Proof.
  intros key now. split.
  - pose proof (is_rate_limited_cases time item model w) as H. cbn zeta in H.
    destruct (is_rate_limited time item model w) as [[[|] | e] w'].
    + destruct H as [-> _]. reflexivity.
    + destruct H as (_ & _ & mp & Hmax & ->). cbn [pool].
      split; [exists mp; split; [exact Hmax | apply request_log_set_same] |].
      split; [intros item' key' Hne; apply request_log_set_other; exact Hne |].
      repeat split.
    + destruct H as [-> _]. reflexivity.
  - pose proof (next_spec time model w) as H. cbn zeta in H.
    destruct (next time model w) as [[item' | e] w']; cbn [fst snd] in H.
    + destruct H as (_ & _ & k & mp & i & _ & _ & _ & _ & Hmax & Hpool).
      exists (time k), mp. split; [exact Hmax |]. rewrite Hpool.
      split; [apply request_log_set_same |].
      intros item'' key' Hne. rewrite request_log_set_other by exact Hne.
      apply request_log_set_index.
    + destruct H as (_ & _ & _ & Hreq & _). exact Hreq.
Qed.

(** C9. On a pool constructed with an empty items list, [next] raises
    [IndexError] (a list index out of range), not the HTTP 429 of a pool
    whose credentials are all limited, and it raises before any limit is
    checked: the clock is not read. [after_next_current] on that pool
    returns [None]. The list that [random.sample] draws from an empty list
    is empty. *)
Theorem next_on_empty_pool (time : nat -> Z) (rate_limit : pyval)
    (algorithm : string) (self : ThreadSafeCircularList)
    (model : option string) (n : nat) :
  new_ThreadSafeCircularList [] [] rate_limit algorithm = Ok self ->
  fst (next time model {| pool := self; reads := n |}) = Raise IndexError /\
  reads (snd (next time model {| pool := self; reads := n |})) = n /\
  after_next_current self = None.
Proof.
  intros Hnew.
  destruct (new_ThreadSafeCircularList_spec _ _ _ _ _ Hnew) as (_ & _ & _ & _ & Hitems).
  assert (Hnil : items self = []) by (rewrite Hitems; destruct (String.eqb _ _); reflexivity).
  unfold next, after_next_current. cbn [pool reads].
  destruct (String.eqb (schedule_algorithm self) "fixed_priority");
    cbn [items set_index next_loop pool]; rewrite Hnil; cbn [List.length nth_error];
    destruct (index _); cbn; repeat split.
Qed.

Lemma next_on_empty_pool_witness :
  new_ThreadSafeCircularList [] [] default_rate_limit "round_robin"
  = Ok {| items := []; schedule_algorithm := "round_robin"; index := 0;
          requests := ∅; cooling_until := ∅;
          rate_limits := [("default", [(999999, 60)])] |} /\
  fst (next Z.of_nat None
         {| pool := {| items := []; schedule_algorithm := "round_robin"; index := 0;
                       requests := ∅; cooling_until := ∅;
                       rate_limits := [("default", [(999999, 60)])] |};
            reads := 0 |}) = Raise IndexError /\
  reads (snd (next Z.of_nat None
         {| pool := {| items := []; schedule_algorithm := "round_robin"; index := 0;
                       requests := ∅; cooling_until := ∅;
                       rate_limits := [("default", [(999999, 60)])] |};
            reads := 0 |})) = 0%nat /\
  after_next_current
    {| items := []; schedule_algorithm := "round_robin"; index := 0;
       requests := ∅; cooling_until := ∅;
       rate_limits := [("default", [(999999, 60)])] |} = None.
Proof.
  split; [reflexivity |].
  exact (next_on_empty_pool Z.of_nat default_rate_limit "round_robin" _ None 0 eq_refl).
Defined.

(** ** The first-chunk check *)

Lemma take_length n s : (String.length (take n s) <= n)%nat.
Proof.
  revert s. induction n as [| n IH]; intros s; [cbn; lia |].
  destruct s as [| c s]; cbn [take String.length]; [lia |].
  specialize (IH s). lia.
Qed.

(** A dict is no heartbeat: its [str] starts with a brace. *)
Lemma dict_is_no_heartbeat d : is_heartbeat (Val (PDict d)) = false.
Proof. reflexivity. Qed.

(** C4, as the claim states it, fails: an object whose [error] field is the
    empty string (and likewise the empty object or null) makes the check
    raise the HTTP error, with the status 500. *)
Lemma empty_error_string_raises :
  check_response_content json_decode (fun s => Some s) (fun s => Some s)
    (Val (PDict [("error", PStr "")])) "gpt" true []
  = Raise (HTTPException (PInt 500) "{'error': ''}") /\
  check_response_content json_decode (fun s => Some s) (fun s => Some s)
    (Val (PStr (quoted "data: {'error': ''}"))) "gpt" true []
  = Raise (HTTPException (PInt 500) "{'error': ''}") /\
  check_response_content json_decode (fun s => Some s) (fun s => Some s)
    (Val (PDict [("error", PDict [])])) "gpt" true []
  = Raise (HTTPException (PInt 500) "{'error': {}}") /\
  check_response_content json_decode (fun s => Some s) (fun s => Some s)
    (Val (PDict [("error", PNone)])) "gpt" true []
  = Raise (HTTPException (PInt 500) "{'error': None}").
Proof. repeat split; vm_compute; reflexivity. Qed.

(** C4, amended. For a first inspected event that is a JSON object: when
    the object has an [error] key whose value is not the blank error
    object (message, type and param empty strings, code null), the check
    raises an HTTP error whose status is the [status_code] field of the
    object, 500 when it has none, and whose detail is the [details] field
    (the object itself when it has none) as text, cut to 300 characters;
    the wrapper raises the same error when the event comes first. When
    the object has no [error] key, or the blank error object under it, the
    check raises no HTTP error. An event that is a string is checked as
    the object it decodes to, provided that it does not start with
    [[DONE]] and that no error trigger occurs in it. *)
Theorem first_chunk_error_check
    (json_loads : string -> option pyval)
    (unicode_escape utf8_decode : string -> option string)
    (d : list (string * pyval)) (engine : string) (stream : bool)
    (error_triggers : list string) (rest : list item) :
  let check := check_response_content json_loads unicode_escape utf8_decode in
  let status := dict_get "status_code" (PInt 500) d in
  let detail := take 300 (py_str (dict_get "details" (PStr (py_str (PDict d))) d)) in
  (if has_error d
   then check (Val (PDict d)) engine stream error_triggers
        = Raise (HTTPException status detail) /\
        (String.length detail <= 300)%nat /\
        error_handling_wrapper json_loads unicode_escape utf8_decode
          (Val (PDict d) :: rest) engine stream error_triggers
        = Raise (HTTPException status detail)
   else is_HTTPException (check (Val (PDict d)) engine stream error_triggers) = false) /\
  (forall s : string,
      let content := if startswith "data:" s then lstrip "data: " s else s in
      startswith "[DONE]" content = false ->
      existsb (fun x => contains x (match unicode_escape content with
                                    | Some e => e
                                    | None => content
                                    end)) error_triggers = false ->
      json_loads content = Some (PDict d) ->
      check (Val (PStr s)) engine stream error_triggers
      = check (Val (PDict d)) engine stream error_triggers).
Proof.
  intros check status detail. split.
  - unfold has_error, check. cbn [check_response_content].
    unfold error_handling_wrapper. rewrite dict_is_no_heartbeat.
    cbn [check_response_content]. unfold check_dict.
    destruct (dict_has "error" d && negb (py_eqb (dict_get "error" PNone d) empty_error)).
    + fold status. fold detail. split; [reflexivity |].
      split; [apply take_length | reflexivity].
    + destruct (negb (in_list engine unchecked_engines) && negb stream); [| reflexivity].
      destruct (existsb _ error_triggers); [reflexivity |].
      destruct (_ || _); reflexivity.
  - intros s content Hdone Htrig Hloads. unfold check.
    cbn [check_response_content]. unfold check_str. fold content.
    rewrite Hdone, Htrig, Hloads. reflexivity.
Qed.

Lemma first_chunk_error_check_witness :
  let s := quoted "data: {'error': 'bad', 'status_code': 429, 'details': 'quota'}" in
  let d := [("error", PStr "bad"); ("status_code", PInt 429); ("details", PStr "quota")] in
  let check := check_response_content json_decode (fun s => Some s) (fun s => Some s) in
  startswith "[DONE]" (lstrip "data: " s) = false /\
  json_decode (lstrip "data: " s) = Some (PDict d) /\
  check (Val (PStr s)) "gpt" true ["overloaded"]
  = check (Val (PDict d)) "gpt" true ["overloaded"] /\
  check (Val (PDict d)) "gpt" true ["overloaded"]
  = Raise (HTTPException (PInt 429) "quota").
Proof.
  cbv zeta.
  pose proof (first_chunk_error_check json_decode (fun s => Some s) (fun s => Some s)
                [("error", PStr "bad"); ("status_code", PInt 429); ("details", PStr "quota")]
                "gpt" true ["overloaded"] []) as [Hdict Hstr].
  split; [vm_compute; reflexivity |].
  split; [vm_compute; reflexivity |].
  split.
  - apply (Hstr (quoted "data: {'error': 'bad', 'status_code': 429, 'details': 'quota'}"));
      vm_compute; reflexivity.
  - vm_compute. reflexivity.
Defined.

(** ** The stream adapters and the terminal line *)

Lemma clean_gret {A} (a : A) : yields_no_DONE (gret a).
Proof. intros g. constructor. Qed.

Lemma clean_lift {A} (r : result A) : yields_no_DONE (lift r).
Proof. intros g. constructor. Qed.


Lemma clean_gbind {A B} (m : gen A) (k : A -> gen B) :
  yields_no_DONE m -> (forall a, yields_no_DONE (k a)) -> yields_no_DONE (gbind m k).
Proof.
  intros Hm Hk g. unfold gbind. specialize (Hm g).
  destruct (m g) as [[out [a | e]] g1]; cbn [fst] in Hm |- *; [| exact Hm].
  specialize (Hk a g1). destruct (k a g1) as [[out' r'] g2]. cbn [fst] in Hk |- *.
  apply Forall_app. split; assumption.
Qed.

Lemma clean_gbind_lift {A B} (r : result A) (k : A -> gen B) :
  (forall a, r = Ok a -> yields_no_DONE (k a)) -> yields_no_DONE (gbind (lift r) k).
Proof.
  intros Hk g. unfold gbind, lift. destruct r as [a | e]; [| constructor].
  specialize (Hk a eq_refl g). destruct (k a g) as [[out' r'] g2]. exact Hk.
Qed.

Lemma line_ok_clean {S} (m : gen (control * S)) :
  yields_no_DONE m ->
  (forall g st, snd (fst (m g)) <> Ok (Return, st)) ->
  line_ok m.
Proof.
  intros Hm Hr g. specialize (Hm g). specialize (Hr g).
  destruct (m g) as [[out r] g1]. cbn [fst snd] in *.
  destruct r as [[[| |] st] | e]; try exact Hm.
  contradiction (Hr st). reflexivity.
Qed.







(** A body that never returns keeps its loops free of the terminal line. *)
Lemma run_lines_clean {S} (handle : S -> string -> gen (control * S)) st lines :
  (forall st line, yields_no_DONE (handle st line)) ->
  yields_no_DONE (run_lines handle st lines).
Proof.
  intros Hh. revert st. induction lines as [| line lines IH]; intros st.
  - apply clean_gret.
  - cbn [run_lines]. apply clean_gbind; [apply Hh |].
    intros [c st1]. destruct c; cbn [fst snd]; [apply IH | apply clean_gret | apply clean_gret].
Qed.

Lemma run_chunks_clean {S} (handle : S -> string -> gen (control * S)) st buffer chunks_ :
  (forall st line, yields_no_DONE (handle st line)) ->
  yields_no_DONE (run_chunks handle st buffer chunks_).
Proof.
  intros Hh. revert st buffer. induction chunks_ as [| chunk chunks_ IH]; intros st buffer.
  - apply clean_gret.
  - cbn [run_chunks]. destruct (take_lines (buffer ++ chunk)) as [lines buffer'].
    apply clean_gbind; [apply run_lines_clean; exact Hh |].
    intros [c st1]. destruct c; cbn [fst snd]; [apply IH | apply clean_gret | apply clean_gret].
Qed.

(** A line of the emitter is not the terminal line: after [data: ] comes
    the brace of an object. *)
Lemma sse_line_not_DONE g timestamp model content tools_id function_call_name
    function_call_content role total_tokens prompt_tokens completion_tokens line :
  fst (generate_sse_response g timestamp model content tools_id function_call_name
         function_call_content role total_tokens prompt_tokens completion_tokens)
  = Ok line ->
  not_DONE (Val (PStr line)).
Proof.
  unfold generate_sse_response.
  destruct (seeded_random_str timestamp g) as [[random_str | e] g1]; cbn [fst bind];
    [| discriminate].
  rewrite sse_sample_data_eq.
  destruct (truthy total_tokens);
    [destruct (py_add prompt_tokens completion_tokens); cbn [bind]; [| discriminate] |];
    intros H; inversion H; subst; unfold not_DONE, DONE, DONE_line;
    cbn [json_dumps String.append]; discriminate.
Qed.

Lemma clean_yield_sse timestamp model content tools_id function_call_name
    function_call_content role total_tokens prompt_tokens completion_tokens :
  yields_no_DONE (yield_sse timestamp model content tools_id function_call_name
                    function_call_content role total_tokens prompt_tokens
                    completion_tokens).
Proof.
  intros g. unfold yield_sse.
  pose proof (sse_line_not_DONE g timestamp model content tools_id function_call_name
                function_call_content role total_tokens prompt_tokens
                completion_tokens) as H.
  destruct (generate_sse_response g timestamp model content tools_id function_call_name
              function_call_content role total_tokens prompt_tokens completion_tokens)
    as [[line | e] g1]; cbn [fst] in *; [| constructor].
  constructor; [apply H; reflexivity | constructor].
Qed.


Ltac clean_tac :=
  cbv zeta;
  repeat match goal with
         | |- yields_no_DONE (gret _) => apply clean_gret
         | |- yields_no_DONE (lift _) => apply clean_lift
         | |- yields_no_DONE (yield_sse _ _ _ _ _ _ _ _ _ _) => apply clean_yield_sse
         | |- yields_no_DONE (gbind _ _) => apply clean_gbind; [| intros ?]
         | |- yields_no_DONE (if ?b then _ else _) => destruct b
         | |- yields_no_DONE (match ?x with _ => _ end) => destruct x
         end.


Section AdapterFacts.

Variable json_loads : string -> option pyval.







End AdapterFacts.

Lemma ends_ok_DONE : ends_ok (yield DONE).
Proof. intros g. exists []. split; [constructor | reflexivity]. Qed.

Lemma ends_ok_gbind {A} (m : gen A) (k : A -> gen unit) :
  yields_no_DONE m -> (forall a, ends_ok (k a)) -> ends_ok (gbind m k).
Proof.
  intros Hm Hk g. unfold gbind. specialize (Hm g).
  destruct (m g) as [[out [a | e]] g1]; cbn [fst snd] in *.
  - destruct (Hk a g1) as (body & Hbody & H).
    destruct (k a g1) as [[out' r'] g2]. cbn [fst snd] in *.
    exists (out ++ body)%list. split; [apply Forall_app; split; assumption |].
    destruct r'; rewrite H; [apply app_assoc | reflexivity].
  - exists out. split; [exact Hm | reflexivity].
Qed.

Lemma check_response_cases json_loads r error_log :
  if accepted r
  then check_response json_loads r error_log = None
  else exists d, check_response json_loads r error_log = Some (PDict d).
Proof.
  unfold check_response, accepted.
  destruct ((200 <=? status_code r) && (status_code r <? 300)); cbn [negb];
    [reflexivity | eexists; reflexivity].
Qed.

Lemma error_event_ok always r d :
  accepted r = false -> adapter_ok always r (yield (Val (PDict d))).
Proof.
  intros Hacc g. cbn [yield fst snd]. split; [| split].
  - exists [Val (PDict d)]. split; [| left; reflexivity].
    constructor; [discriminate | constructor].
  - intros _. split; [eexists; reflexivity | reflexivity].
  - congruence.
Qed.

(** An adapter that closes its stream after its loop. *)
Lemma closing_adapter_ok r (m : gen unit) :
  accepted r = true -> ends_ok m -> adapter_ok true r m.
Proof.
  intros Hacc Hm g. destruct (Hm g) as (body & Hbody & H).
  split; [| split].
  - exists body. split; [exact Hbody |].
    destruct (snd (fst (m g))); [right | left]; exact H.
  - congruence.
  - intros _ Hok _. rewrite Hok in H. exists body. split; assumption.
Qed.


Lemma gbind_silent {A B} (m : gen A) (k : A -> gen B) g a g1 :
  m g = ([], Ok a, g1) -> gbind m k g = k a g1.
Proof.
  intros H. unfold gbind. rewrite H. destruct (k a g1) as [[out r] g2]. reflexivity.
Qed.

Section AdapterClaims.

Variable json_loads : string -> option pyval.







End AdapterClaims.




(** ** The line scanner *)

Lemma append_assoc_ (a b c : string) : (a ++ b) ++ c = a ++ (b ++ c).
Proof. induction a as [| x a IH]; cbn; [reflexivity | rewrite IH; reflexivity]. Qed.

(** The lines of a text in two pieces: those of the first piece, then those
    of what the first piece leaves followed by the second. *)
Lemma take_lines_app a b :
  take_lines (a ++ b)
  = ((fst (take_lines a) ++ fst (take_lines (snd (take_lines a) ++ b)))%list,
     snd (take_lines (snd (take_lines a) ++ b))).
Proof.
  induction a as [| c a IH].
  - cbn. destruct (take_lines b); reflexivity.
  - cbn [String.append take_lines]. rewrite IH.
    destruct (take_lines a) as [la ra]. cbn [fst snd].
    destruct (Ascii.eqb c LF) eqn:E.
    + cbn [fst snd]. reflexivity.
    + destruct la as [| l la'].
      * cbn [fst snd app String.append take_lines]. rewrite E.
        destruct (take_lines (ra ++ b)) as [lb rb]. cbn [fst snd].
        destruct lb; reflexivity.
      * cbn [fst snd app].
        destruct (take_lines (ra ++ b)) as [lb rb]. reflexivity.
Qed.

Lemma take_lines_no_LF s : mem_char LF s = false -> take_lines s = ([], s).
Proof.
  induction s as [| c s IH]; [reflexivity |].
  cbn [mem_char take_lines]. intros H. apply orb_false_iff in H as [Hc Hs].
  rewrite Ascii.eqb_sym in Hc. rewrite (IH Hs), Hc. reflexivity.
Qed.

Lemma take_lines_rest_no_LF s : mem_char LF (snd (take_lines s)) = false.
Proof.
  induction s as [| c s IH]; [reflexivity |].
  cbn [take_lines]. destruct (take_lines s) as [ls rest]. cbn [snd] in IH.
  destruct (Ascii.eqb c LF) eqn:E; [exact IH |].
  destruct ls; cbn [snd mem_char]; [| exact IH].
  rewrite Ascii.eqb_sym, E, IH. reflexivity.
Qed.

Lemma take_lines_line l rest :
  mem_char LF l = false ->
  take_lines (l ++ String LF rest) = (l :: fst (take_lines rest), snd (take_lines rest)).
Proof.
  induction l as [| c l IH]; cbn [String.append take_lines mem_char].
  - intros _. destruct (take_lines rest). rewrite Ascii.eqb_refl. reflexivity.
  - intros H. apply orb_false_iff in H as [Hc Hl]. rewrite Ascii.eqb_sym in Hc.
    rewrite (IH Hl), Hc. reflexivity.
Qed.

Lemma gbind_assoc {A B C} (m : gen A) (k : A -> gen B) (h : B -> gen C) g :
  gbind (gbind m k) h g = gbind m (fun a => gbind (k a) h) g.
Proof.
  unfold gbind. destruct (m g) as [[out [a | e]] g1]; [| reflexivity].
  destruct (k a g1) as [[out' [b | e]] g2]; [| reflexivity].
  destruct (h b g2) as [[out'' r] g3]. rewrite app_assoc. reflexivity.
Qed.

Lemma gbind_gret {A B} (a : A) (k : A -> gen B) g : gbind (gret a) k g = k a g.
Proof. unfold gbind, gret. destruct (k a g) as [[out r] g1]. reflexivity. Qed.

Lemma gbind_ext {A B} (m : gen A) (k k' : A -> gen B) g :
  (forall a g1, k a g1 = k' a g1) -> gbind m k g = gbind m k' g.
Proof.
  intros H. unfold gbind. destruct (m g) as [[out [a | e]] g1]; [| reflexivity].
  rewrite H. reflexivity.
Qed.

Lemma gbind_cong {A B} (m m' : gen A) (k : A -> gen B) g :
  m g = m' g -> gbind m k g = gbind m' k g.
Proof. intros H. unfold gbind. rewrite H. reflexivity. Qed.

Lemma run_lines_app {S} (handle : S -> string -> gen (control * S)) l1 l2 st g :
  run_lines handle st (l1 ++ l2) g
  = gbind (run_lines handle st l1)
      (fun r => match fst r with
                | Continue => run_lines handle (snd r) l2
                | _ => gret r
                end) g.
Proof.
  revert st g. induction l1 as [| line l1 IH]; intros st g.
  - cbn [app run_lines]. rewrite gbind_gret. reflexivity.
  - cbn [app run_lines]. rewrite gbind_assoc. apply gbind_ext. intros [c st1] g1.
    cbn [fst snd]. destruct c; [apply IH | |]; rewrite gbind_gret; reflexivity.
Qed.

(** The scanner does not depend on how the upstream cuts its text into
    chunks: the loops process the lines of the whole text, in order. *)
Lemma run_chunks_concat {S} (handle : S -> string -> gen (control * S))
    chunks_ st buffer g :
  mem_char LF buffer = false ->
  run_chunks handle st buffer chunks_ g
  = run_lines handle st (fst (take_lines (buffer ++ concat_chunks chunks_))) g.
Proof.
  revert st buffer g. induction chunks_ as [| chunk chunks_ IH]; intros st buffer g Hb.
  - cbn [run_chunks concat_chunks fold_right].
    assert (E : buffer ++ "" = buffer).
    { clear. induction buffer as [| c b IHb]; cbn; [reflexivity | rewrite IHb; reflexivity]. }
    rewrite E, (take_lines_no_LF buffer Hb). reflexivity.
  - cbn [run_chunks concat_chunks fold_right]. fold (concat_chunks chunks_).
    rewrite <- append_assoc_, (take_lines_app (buffer ++ chunk) (concat_chunks chunks_)).
    destruct (take_lines (buffer ++ chunk)) as [lines buffer'] eqn:E. cbn [fst snd].
    rewrite run_lines_app. apply gbind_ext. intros [c st1] g1. cbn [fst snd].
    destruct c; [| reflexivity | reflexivity].
    apply IH. pose proof (take_lines_rest_no_LF (buffer ++ chunk)) as H.
    rewrite E in H. exact H.
Qed.

(** The lines after a line on which the body of the loop stops are not
    read. *)
Lemma run_lines_stop {S} (handle : S -> string -> gen (control * S)) line l1 l2 l2' st g :
  (forall st g, exists c st', c <> Continue /\ handle st line g = ([], Ok (c, st'), g)) ->
  run_lines handle st (l1 ++ line :: l2) g = run_lines handle st (l1 ++ line :: l2') g.
Proof.
  intros H. rewrite !run_lines_app. apply gbind_ext. intros [c st1] g1. cbn [fst snd].
  destruct c; [| reflexivity | reflexivity].
  cbn [run_lines]. unfold gbind.
  destruct (H st1 g1) as (c & st' & Hc & ->). cbn [fst snd].
  destruct c; [contradiction | reflexivity | reflexivity].
Qed.

(** ** The Gemini adapter *)

Lemma contains_nonempty p s : contains p s = true -> p <> EmptyString -> nonempty s = true.
Proof.
  destruct s; [| reflexivity]. destruct p; [congruence |]. cbn. discriminate.
Qed.

Lemma gemini_line_finish json_loads timestamp model st line g :
  contains finishReason_trigger line = true ->
  gemini_line json_loads timestamp model st line g
  = ([], Ok (Break, {| revicing_function_call := revicing_function_call st;
                       function_full_response := function_full_response st;
                       need_function_call := need_function_call st;
                       is_finish := true |}), g).
Proof.
  intros H. unfold gemini_line.
  rewrite H, (contains_nonempty _ _ H) by discriminate. reflexivity.
Qed.

(** C8, as the claim states it, fails: a line that holds the field as the
    scenario S2 writes it, without a space after the colon, does not end
    the processing: the text line after it still yields its event. *)
Lemma finishReason_without_space_goes_on :
  exists line,
    fst (fetch_gemini_response_stream json_decode 1700000000
           {| status_code := 200; body := "";
              chunks := [quoted "'finishReason':'STOP'" ++ chr LF
                         ++ quoted "'text': 'after'" ++ chr LF] |}
           (PStr "gemini-pro") (seed_int 0))
    = ([Val (PStr line); DONE], Ok tt) /\
    contains (quoted "'finishReason':") (quoted "'finishReason':'STOP'") = true /\
    contains (quoted "'content': 'after'") line = true.
Proof.
  eexists. split; [vm_compute; reflexivity |]. split; vm_compute; reflexivity.
Qed.

(** C8, amended. For the Gemini adapter: the upstream line [hello_line],
    once the runtime decodes it, yields exactly one event, a text delta
    whose content is hello, a line feed, world. And a line that holds the
    field in the form that the upstream prints, the key, a colon, one space
    and the opening quote of a string, ends the processing of the stream:
    whatever text follows that line, in the same chunk or in later ones,
    the adapter yields the same output. *)
Theorem gemini_text_and_finishReason (json_loads : string -> option pyval)
    (timestamp : Z) (model : pyval) :
  json_loads ("{" ++ hello_line ++ "}") = Some (PDict [("text", PStr hello_decoded)]) ->
  (forall st g, exists sse_string obj st',
      fst (gemini_line json_loads (PInt timestamp) model st hello_line g)
      = ([Val (PStr sse_string)], Ok (Continue, st')) /\
      carries sse_string obj /\
      at_path obj delta_path = Some (PDict [("content", PStr hello_text)])) /\
  (forall r r' head line tail tail' g,
      status_code r' = status_code r -> body r' = body r ->
      concat_chunks (chunks r) = head ++ line ++ String LF tail ->
      concat_chunks (chunks r') = head ++ line ++ String LF tail' ->
      snd (take_lines head) = EmptyString ->
      mem_char LF line = false ->
      contains finishReason_trigger line = true ->
      fetch_gemini_response_stream json_loads timestamp r' model g
      = fetch_gemini_response_stream json_loads timestamp r model g).
Proof.
  intros Hloads. split.
  - intros st g. unfold gemini_line.
    change (nonempty hello_line && contains finishReason_trigger hello_line) with false.
    change (nonempty hello_line && contains text_trigger hello_line) with true.
    cbv iota. rewrite Hloads.
    change (nonempty hello_line
            && (contains functionCall_trigger hello_line || revicing_function_call st))
      with (revicing_function_call st).
    change (contains "]" hello_line) with false. cbv iota.
    unfold gbind, lift, py_get, dict_get. cbn [dict_lookup String.eqb Ascii.eqb Bool.eqb].
    change (join (chr LF) (split "\n" hello_decoded)) with hello_text.
    unfold yield_sse.
    pose proof (generate_sse_response_int g timestamp model (PStr hello_text)
                  PNone PNone PNone PNone (PInt 0) (PInt 0) (PInt 0)) as Hsse.
    rewrite sse_sample_data_eq in Hsse. cbn [truthy Z.eqb negb bind] in Hsse.
    destruct (generate_sse_response g (PInt timestamp) model (PStr hello_text)
                PNone PNone PNone PNone (PInt 0) (PInt 0) (PInt 0)) as [r g1].
    cbn [fst] in Hsse. subst r.
    destruct (revicing_function_call st);
      (eexists; eexists; eexists; split; [reflexivity | split; reflexivity]).
  - intros r r' head line tail tail' g Hstatus Hbody Hr Hr' Hhead Hline Hfinish.
    unfold fetch_gemini_response_stream, check_response.
    rewrite Hstatus, Hbody.
    destruct (negb ((200 <=? status_code r) && (status_code r <? 300))); [reflexivity |].
    apply gbind_cong.
    rewrite !run_chunks_concat by reflexivity.
    cbn [String.append]. rewrite Hr, Hr'.
    rewrite !(take_lines_app head), Hhead. cbn [String.append].
    rewrite !(take_lines_line line) by exact Hline. cbn [fst].
    rewrite (run_lines_stop _ line _ (fst (take_lines tail')) (fst (take_lines tail))).
    + reflexivity.
    + intros st1 g1. eexists. eexists. split; [| apply gemini_line_finish; exact Hfinish].
      discriminate.
Qed.

Lemma gemini_text_and_finishReason_witness :
  json_decode ("{" ++ hello_line ++ "}") = Some (PDict [("text", PStr hello_decoded)]) /\
  (exists sse_string obj st',
      fst (gemini_line json_decode (PInt 1700000000) (PStr "gemini-pro")
             {| revicing_function_call := false; function_full_response := "{";
                need_function_call := false; is_finish := false |}
             hello_line (seed_int 0))
      = ([Val (PStr sse_string)], Ok (Continue, st')) /\
      carries sse_string obj /\
      at_path obj delta_path = Some (PDict [("content", PStr hello_text)])) /\
  fetch_gemini_response_stream json_decode 1700000000
    {| status_code := 200; body := "";
       chunks := [hello_line ++ chr LF ++ quoted "'finishReason': 'STOP'" ++ chr LF
                  ++ quoted "'text': 'after'" ++ chr LF] |}
    (PStr "gemini-pro") (seed_int 0)
  = fetch_gemini_response_stream json_decode 1700000000
      {| status_code := 200; body := "";
         chunks := [hello_line ++ chr LF; quoted "'finishReason': 'STOP'" ++ chr LF] |}
      (PStr "gemini-pro") (seed_int 0).
Proof.
  assert (Hloads : json_decode ("{" ++ hello_line ++ "}")
                   = Some (PDict [("text", PStr hello_decoded)]))
    by (vm_compute; reflexivity).
  destruct (gemini_text_and_finishReason json_decode 1700000000 (PStr "gemini-pro") Hloads)
    as [Htext Hfinish].
  split; [exact Hloads |]. split; [apply Htext |].
  apply (Hfinish
           {| status_code := 200; body := "";
              chunks := [hello_line ++ chr LF; quoted "'finishReason': 'STOP'" ++ chr LF] |}
           {| status_code := 200; body := "";
              chunks := [hello_line ++ chr LF ++ quoted "'finishReason': 'STOP'" ++ chr LF
                         ++ quoted "'text': 'after'" ++ chr LF] |}
           (hello_line ++ chr LF) (quoted "'finishReason': 'STOP'")
           EmptyString (quoted "'text': 'after'" ++ chr LF));
    vm_compute; reflexivity.
Defined.

(** ** Further properties of the pool, the scanner and the error path *)

Lemma next_loop_raises time fuel start_index model w e w' :
  next_loop time fuel start_index model w = Some (Raise e, w') ->
  e = IndexError \/ e = HTTPException (PInt 429) "Too many requests" \/
  e = ValueError "max() arg is an empty sequence".
Proof.
  revert w. induction fuel as [| fuel IH]; intros w; cbn [next_loop]; [discriminate |].
  destruct (nth_error (items (pool w)) (index (pool w))) as [item |];
    [| intros H; inversion H; auto].
  unfold is_rate_limited. cbn [pool reads].
  destruct (_ <? cooling_of _ item).
  - cbn [pool index]. destruct (_ =? start_index)%nat; [intros H; inversion H; auto |].
    apply IH.
  - destruct (limit_reached _ _ _).
    + cbn [pool index]. destruct (_ =? start_index)%nat; [intros H; inversion H; auto |].
      apply IH.
    + destruct (rate_limit_for _ model); cbn [max_period]; intros H; inversion H; auto.
Qed.

(** X1. [next] always answers: it returns an item of the pool, or it raises
    [IndexError] (no item at the index), the HTTP error 429 (every
    credential limited) or the [ValueError] of an empty list of limits. The
    loop never runs out of the rounds that the embedding gives it. *)
Theorem next_always_answers (time : nat -> Z) (model : option string) (w : world) :
  match fst (next time model w) with
  | Ok item => In item (items (pool w))
  | Raise e =>
      e = IndexError \/ e = HTTPException (PInt 429) "Too many requests" \/
      e = ValueError "max() arg is an empty sequence"
  end.
Proof.
  destruct (next_never_out_of_fuel time model w) as ([r w'] & Hloop & Hnext).
  pose proof (next_spec time model w) as Hspec. cbn zeta in Hspec.
  rewrite Hnext in Hspec |- *. cbn [fst snd] in Hspec |- *.
  destruct r as [item | e].
  - destruct Hspec as (_ & Hin & _). exact Hin.
  - eapply next_loop_raises. exact Hloop.
Qed.

Section ChunkingFacts.

Variable json_loads : string -> option pyval.

Lemma response_eta r :
  r = {| status_code := status_code r; body := body r; chunks := chunks r |}.
Proof. destruct r. reflexivity. Qed.


End ChunkingFacts.

(** X3. Scenario S6, for the adapter of every engine: when the upstream
    answers with a status outside 200..299, the adapter yields one error
    event and the wrapper turns it into an HTTP error with the status of
    the upstream, whose detail is the body of the upstream (as the object
    it decodes to, or as it is), cut to 300 characters. No data line is
    emitted. An engine without an adapter raises [ValueError]. *)
Theorem upstream_error_surfaces (json_loads : string -> option pyval)
    (unicode_escape utf8_decode : string -> option string)
    (timestamp : Z) (r : response) (model : pyval) (g : mt_state)
    (engine : string) (stream : bool) (error_triggers : list string) :
  let details := match json_loads (body r) with
                 | Some v => v
                 | None => PStr (body r)
                 end in
  if accepted r then True
  else
    match response_gen json_loads engine timestamp r model with
    | Ok adapter =>
        error_handling_wrapper json_loads unicode_escape utf8_decode
          (fst (fst (adapter g))) engine stream error_triggers
        = Raise (HTTPException (PInt (status_code r)) (take 300 (py_str details)))
    | Raise e => e = ValueError "Unknown response"
    end.
Proof.
  intros details. unfold accepted.
  destruct ((200 <=? status_code r) && (status_code r <? 300)) eqn:Hacc; [exact I |].
  assert (Hcheck : forall error_log,
             check_response json_loads r error_log
             = Some (PDict [("error", PStr (error_log ++ " HTTP Error"));
                            ("status_code", PInt (status_code r));
                            ("details", details)])).
  { intros error_log. unfold check_response. rewrite Hacc. reflexivity. }
  assert (Hwrap : forall error_log,
             error_handling_wrapper json_loads unicode_escape utf8_decode
               [Val (PDict [("error", PStr (error_log ++ " HTTP Error"));
                            ("status_code", PInt (status_code r));
                            ("details", details)])] engine stream error_triggers
             = Raise (HTTPException (PInt (status_code r)) (take 300 (py_str details)))).
  { intros error_log. unfold error_handling_wrapper. rewrite dict_is_no_heartbeat.
    reflexivity. }
  unfold response_gen.
  repeat match goal with
         | |- context [if String.eqb engine ?e then _ else _] =>
             destruct (String.eqb engine e)
         | |- context [if (?a || ?b)%bool then _ else _] => destruct (a || b)%bool
         end;
    try reflexivity;
    unfold fetch_gemini_response_stream, fetch_claude_response_stream,
      fetch_gpt_response_stream, fetch_azure_response_stream,
      fetch_cloudflare_response_stream, fetch_cohere_response_stream;
    try (erewrite gbind_silent;
         [| unfold seeded_random_str, random_seed;
            destruct (random_choices alphabet 29 (seed_int timestamp)); reflexivity]);
    rewrite Hcheck; apply Hwrap.
Qed.

(** X4. A credential that has just been set to cool for [cooling_time]
    seconds is limited for every model as long as the clock reads less
    than the time of the call plus [cooling_time]. *)
Theorem cooling_is_honoured (time : nat -> Z) (item : string) (cooling_time : Z)
    (model : option string) (w : world) :
  let w1 := set_cooling time (Some item) cooling_time w in
  if time (reads w1) <? time (reads w) + cooling_time
  then fst (is_rate_limited time item model w1) = Ok true
  else True.
Proof.
  cbn zeta. unfold set_cooling. cbn [reads pool].
  destruct (Z.ltb_spec (time (S (reads w))) (time (reads w) + cooling_time)) as [H | _];
    [| exact I].
  unfold is_rate_limited, cooling_of. cbn [pool reads cooling_until set_cooling_until].
  rewrite lookup_insert_eq. simpl default.
  destruct (Z.ltb_spec (time (S (reads w))) (time (reads w) + cooling_time));
    [reflexivity | lia].
Qed.

(** ** The pool: which credential [next] picks *)

Lemma is_rate_limited_limited time item model w :
  rate_limit_for (rate_limits (pool w)) model <> [] ->
  fst (is_rate_limited time item model w)
  = Ok (limited_at (pool w) item model (time (reads w))) /\
  reads (snd (is_rate_limited time item model w)) = S (reads w) /\
  index (pool (snd (is_rate_limited time item model w))) = index (pool w) /\
  (limited_at (pool w) item model (time (reads w)) = true ->
   pool (snd (is_rate_limited time item model w)) = pool w).
Proof.
  intros Hne. unfold is_rate_limited, limited_at.
  destruct (_ <? cooling_of _ _); [cbn; auto |].
  destruct (limit_reached _ _ _); [cbn; auto |].
  destruct (rate_limit_for _ _) as [| l rate_limit]; [contradiction |].
  cbn. repeat split. discriminate.
Qed.

Lemma set_index_set_index self i j : set_index (set_index self i) j = set_index self j.
Proof. reflexivity. Qed.

Lemma set_index_index self : set_index self (index self) = self.
Proof. destruct self. reflexivity. Qed.

Lemma mod_succ_back start j n :
  (start < n)%nat -> (j < n)%nat ->
  (((start + j) mod n + 1) mod n = start)%nat -> S j = n.
Proof.
  intros Hs Hj H.
  rewrite Nat.Div0.add_mod_idemp_l in H.
  destruct (Nat.lt_ge_cases (start + j + 1) n) as [Hlt | Hge].
  - rewrite Nat.mod_small in H by exact Hlt. lia.
  - assert (E : (start + j + 1 = (start + j + 1 - n) + 1 * n)%nat) by lia.
    rewrite E, Nat.Div0.mod_add, Nat.mod_small in H by lia. lia.
Qed.

Lemma mod_succ_next start j n :
  (((start + j) mod n + 1) mod n = (start + S j) mod n)%nat.
Proof.
  rewrite Nat.Div0.add_mod_idemp_l. f_equal. lia.
Qed.

Section PickFacts.

Variable time : nat -> Z.
Variable model : option string.
Variable self : ThreadSafeCircularList.
Variable reads0 : nat.

Let n := List.length (items self).
Let start := start_index_of self.

Hypothesis start_lt : (start < n)%nat.
Hypothesis limits_nonempty : rate_limit_for (rate_limits self) model <> [].

Lemma next_loop_rounds fuel j r w' :
  (j < n)%nat ->
  (forall j', (j' < j)%nat -> slot_limited time self model reads0 j' = true) ->
  next_loop time fuel start model
    {| pool := set_index self ((start + j) mod n); reads := (reads0 + j)%nat |}
  = Some (r, w') ->
  match r with
  | Ok item =>
      exists j0, (j0 < n)%nat /\ slot self j0 = Some item /\
        slot_limited time self model reads0 j0 = false /\
        (forall j', (j' < j0)%nat -> slot_limited time self model reads0 j' = true) /\
        reads w' = S (reads0 + j0) /\
        index (pool w') = ((start + S j0) mod n)%nat
  | Raise e =>
      e = HTTPException (PInt 429) "Too many requests" /\
      (forall j', (j' < n)%nat -> slot_limited time self model reads0 j' = true) /\
      pool w' = set_index self start /\ reads w' = (reads0 + n)%nat
  end.
Proof.
  revert j. induction fuel as [| fuel IH]; intros j Hj Hprev; cbn [next_loop];
    [discriminate |].
  cbn [pool items set_index index reads]. fold n.
  assert (Hslot : slot self j = nth_error (items self) ((start + j) mod n)) by reflexivity.
  destruct (nth_error (items self) ((start + j) mod n)) as [item |] eqn:Hnth.
  2:{ apply nth_error_None in Hnth. fold n in Hnth.
      pose proof (Nat.mod_upper_bound (start + j) n). lia. }
  set (w1 := {| pool := set_index self (((start + j) mod n + 1) mod n);
                reads := (reads0 + j)%nat |}).
  change {| pool := set_index (set_index self ((start + j) mod n))
                      (((start + j) mod n + 1) mod n);
            reads := (reads0 + j)%nat |} with w1.
  destruct (is_rate_limited_limited time item model w1 limits_nonempty)
    as (Hres & Hreads & Hindex & Hsame).
  destruct (is_rate_limited time item model w1) as [res w2].
  cbn [fst snd] in Hres, Hreads, Hindex, Hsame.
  cbn [pool reads w1 index set_index] in Hres, Hreads, Hindex, Hsame.
  assert (Hlim : slot_limited time self model reads0 j
                 = limited_at self item model (time (reads0 + j)%nat)).
  { unfold slot_limited. rewrite Hslot. reflexivity. }
  change (limited_at (set_index self (((start + j) mod n + 1) mod n)) item model)
    with (limited_at self item model) in Hres, Hsame.
  rewrite <- Hlim in Hres, Hsame. subst res.
  destruct (slot_limited time self model reads0 j) eqn:Hl.
  - specialize (Hsame eq_refl).
    assert (Hw2 : w2 = {| pool := set_index self (((start + j) mod n + 1) mod n);
                          reads := S (reads0 + j) |}).
    { destruct w2 as [p2 r2]. cbn [pool reads] in Hsame, Hreads. subst. reflexivity. }
    subst w2. cbn [pool index set_index].
    destruct (Nat.eqb_spec (((start + j) mod n + 1) mod n) start) as [Hback | Hgo].
    + intros H. inversion H; subst. cbn [pool reads].
      pose proof (mod_succ_back start j n start_lt Hj Hback) as Hn.
      split; [reflexivity |]. split.
      * intros j' Hj'. destruct (Nat.eq_dec j' j) as [-> | Hne]; [exact Hl |].
        apply Hprev. lia.
      * rewrite Hback. split; [reflexivity | lia].
    + assert (HSj : (S j < n)%nat).
      { destruct (Nat.eq_dec (S j) n) as [E | E]; [| lia].
        exfalso. apply Hgo. rewrite mod_succ_next, E.
        replace (start + n)%nat with (start + 1 * n)%nat by lia.
        rewrite Nat.Div0.mod_add. apply Nat.mod_small. exact start_lt. }
      rewrite mod_succ_next.
      replace (S (reads0 + j)) with (reads0 + S j)%nat by lia.
      intros H. apply IH in H; [exact H | exact HSj |].
      intros j' Hj'. destruct (Nat.eq_dec j' j) as [-> | Hne]; [exact Hl |].
      apply Hprev. lia.
  - intros H. inversion H; subst. exists j.
    split; [exact Hj |]. split; [exact Hslot |]. split; [exact Hl |].
    split; [exact Hprev |]. split; [exact Hreads |].
    rewrite Hindex. apply mod_succ_next.
Qed.

End PickFacts.
Lemma start_index_lt self :
  pool_wf self -> items self <> [] ->
  (start_index_of self < List.length (items self))%nat.
Proof.
  intros [Hidx _] Hne. unfold start_index_of.
  destruct (String.eqb _ _); [| apply Hidx; exact Hne].
  destruct (items self); [contradiction | cbn; lia].
Qed.

Lemma pool_wf_limits self model :
  pool_wf self -> rate_limit_for (rate_limits self) model <> [].
Proof. intros [_ Htbl]. apply (rate_limit_for_ok _ model) in Htbl. apply Htbl. Qed.

Lemma next_as_rounds time model w :
  (start_index_of (pool w) < List.length (items (pool w)))%nat ->
  exists r,
    next_loop time (S (List.length (items (pool w)))) (start_index_of (pool w)) model
      {| pool := set_index (pool w)
                   ((start_index_of (pool w) + 0) mod List.length (items (pool w)));
         reads := (reads w + 0)%nat |} = Some r /\
    next time model w = r.
Proof.
  intros Hlt.
  destruct (next_never_out_of_fuel time model w) as (r & Hloop & Hnext).
  exists r. split; [| exact Hnext].
  rewrite Nat.add_0_r, Nat.add_0_r, Nat.mod_small by exact Hlt.
  unfold start_index_of in *.
  destruct (String.eqb (schedule_algorithm (pool w)) "fixed_priority");
    [exact Hloop |].
  rewrite set_index_index. exact Hloop.
Qed.

Lemma next_rounds time model w :
  pool_wf (pool w) -> items (pool w) <> [] ->
  match next time model w with
  | (Ok item, w') =>
      exists j, (j < List.length (items (pool w)))%nat /\
        slot (pool w) j = Some item /\
        slot_limited time (pool w) model (reads w) j = false /\
        (forall j', (j' < j)%nat -> slot_limited time (pool w) model (reads w) j' = true) /\
        reads w' = S (reads w + j) /\
        index (pool w') = ((start_index_of (pool w) + S j) mod List.length (items (pool w)))%nat
  | (Raise e, w') =>
      e = HTTPException (PInt 429) "Too many requests" /\
      (forall j, (j < List.length (items (pool w)))%nat ->
         slot_limited time (pool w) model (reads w) j = true) /\
      reads w' = (reads w + List.length (items (pool w)))%nat
  end.
Proof.
  intros Hwf Hne.
  pose proof (start_index_lt _ Hwf Hne) as Hlt.
  destruct (next_as_rounds time model w Hlt) as ([r w'] & Hloop & Hnext).
  rewrite Hnext.
  apply (next_loop_rounds time model (pool w) (reads w) Hlt
           (pool_wf_limits _ model Hwf)) in Hloop.
  - destruct r as [item | e].
    + destruct Hloop as (j & Hj & Hs & Hl & Hprev & Hr & Hi). exists j. auto 7.
    + destruct Hloop as (He & Hall & _ & Hr). auto.
  - destruct (items (pool w)); [contradiction | cbn; lia].
  - intros j' Hj'. lia.
Qed.

(** X5. On a pool whose index is inside its list of credentials and whose
    table has no empty list of limits (every pool that the constructor
    builds is one, after any calls), [next] returns the first credential,
    in the order of the list from its start index round, that
    [is_rate_limited] does not refuse, and it raises the HTTP error 429
    exactly when it has found every credential refused, each at the reading
    of the clock of its round. The start index is 0 under [fixed_priority]
    and the index of the pool otherwise. *)
Theorem next_picks_first_available (time : nat -> Z) (model : option string)
    (w : world) :
  pool_wf (pool w) -> items (pool w) <> [] ->
  match fst (next time model w) with
  | Ok item =>
      exists j, (j < List.length (items (pool w)))%nat /\
        slot (pool w) j = Some item /\
        slot_limited time (pool w) model (reads w) j = false /\
        forall j', (j' < j)%nat -> slot_limited time (pool w) model (reads w) j' = true
  | Raise e =>
      e = HTTPException (PInt 429) "Too many requests" /\
      forall j, (j < List.length (items (pool w)))%nat ->
        slot_limited time (pool w) model (reads w) j = true
  end.
Proof.
  intros Hwf Hne. pose proof (next_rounds time model w Hwf Hne) as H.
  destruct (next time model w) as [[item | e] w']; cbn [fst].
  - destruct H as (j & Hj & Hs & Hl & Hprev & _). exists j. auto.
  - destruct H as (He & Hall & _). auto.
Qed.

Lemma next_picks_first_available_witness :
  let self := {| items := ["k1"; "k2"]; schedule_algorithm := "round_robin"; index := 1;
                 requests := ∅; cooling_until := {["k2" := 100]};
                 rate_limits := [("default", [(5, 60)])] |} in
  pool_wf self /\ items self <> [] /\
  fst (next Z.of_nat None {| pool := self; reads := 7 |}) = Ok "k1" /\
  exists j, (j < 2)%nat /\ slot self j = Some "k1" /\
    slot_limited Z.of_nat self None 7 j = false /\
    forall j', (j' < j)%nat -> slot_limited Z.of_nat self None 7 j' = true.
Proof.
  intros self.
  assert (Hwf : pool_wf self).
  { split; [intros _; cbn; lia |].
    repeat constructor; cbn; [discriminate | lia]. }
  assert (Hne : items self <> []) by discriminate.
  split; [exact Hwf |]. split; [exact Hne |].
  pose proof (next_picks_first_available Z.of_nat None
                {| pool := self; reads := 7 |} Hwf Hne) as H.
  assert (Hnext : fst (next Z.of_nat None {| pool := self; reads := 7 |}) = Ok "k1")
    by (vm_compute; reflexivity).
  rewrite Hnext in H. split; [exact Hnext | exact H].
Defined.

(** ** The pool: [after_next_current] *)

Lemma pred_mod_succ i n :
  (i < n)%nat ->
  Z.to_nat ((Z.of_nat ((i + 1) mod n)%nat - 1) mod Z.of_nat n) = i.
Proof.
  intros Hi. destruct (Nat.eq_dec (i + 1)%nat n) as [E | E].
  - rewrite E, Nat.Div0.mod_same.
    assert (H : (Z.of_nat 0 - 1) mod Z.of_nat n = Z.of_nat i).
    { symmetry. apply (Z.mod_unique_pos _ _ (-1)); lia. }
    rewrite H. lia.
  - rewrite Nat.mod_small by lia.
    assert (H : (Z.of_nat (i + 1) - 1) mod Z.of_nat n = Z.of_nat i).
    { rewrite Z.mod_small; lia. }
    rewrite H. lia.
Qed.

Lemma is_rate_limited_items time item model w :
  items (pool (snd (is_rate_limited time item model w))) = items (pool w) /\
  index (pool (snd (is_rate_limited time item model w))) = index (pool w) /\
  rate_limits (pool (snd (is_rate_limited time item model w))) = rate_limits (pool w) /\
  schedule_algorithm (pool (snd (is_rate_limited time item model w)))
  = schedule_algorithm (pool w).
Proof.
  unfold is_rate_limited.
  destruct (_ <? cooling_of _ _); [cbn; auto |].
  destruct (limit_reached _ _ _); [cbn; auto |].
  destruct (max_period _); cbn; auto.
Qed.

Lemma next_loop_after time fuel start_index model w item w' :
  next_loop time fuel start_index model w = Some (Ok item, w') ->
  after_next_current (pool w') = Some item.
Proof.
  revert w. induction fuel as [| fuel IH]; intros w; cbn [next_loop]; [discriminate |].
  destruct (nth_error (items (pool w)) (index (pool w))) as [item0 |] eqn:Hnth;
    [| discriminate].
  assert (Hlt : (index (pool w) < List.length (items (pool w)))%nat).
  { apply nth_error_Some. rewrite Hnth. discriminate. }
  set (w1 := {| pool := set_index (pool w)
                          ((index (pool w) + 1) mod List.length (items (pool w)));
                reads := reads w |}).
  destruct (is_rate_limited_items time item0 model w1) as (Hitems & Hindex & _).
  destruct (is_rate_limited time item0 model w1) as [[[|] | e] w2];
    cbn [snd] in Hitems, Hindex; cbn [w1 pool items index set_index] in Hitems, Hindex.
  - destruct (_ =? start_index)%nat; [discriminate | apply IH].
  - intros H. inversion H; subst. unfold after_next_current.
    rewrite Hitems, Hindex.
    destruct (Nat.eqb_spec (List.length (items (pool w))) 0) as [E | _]; [lia |].
    rewrite pred_mod_succ by exact Hlt. exact Hnth.
  - discriminate.
Qed.

(** X6. After a call of [next] that returns a credential,
    [after_next_current] returns that credential. *)
Theorem after_next_current_is_last_pick (time : nat -> Z) (model : option string)
    (w : world) :
  match fst (next time model w) with
  | Ok item => after_next_current (pool (snd (next time model w))) = Some item
  | Raise _ => True
  end.
Proof.
  destruct (next_never_out_of_fuel time model w) as ([r w'] & Hloop & Hnext).
  rewrite Hnext. cbn [fst snd]. destruct r as [item | e]; [| exact I].
  eapply next_loop_after. exact Hloop.
Qed.

(** ** The pool under any sequence of calls *)

Lemma next_loop_wf time fuel start_index model w r w' :
  next_loop time fuel start_index model w = Some (r, w') ->
  (index (pool w) < List.length (items (pool w)))%nat ->
  items (pool w') = items (pool w) /\
  rate_limits (pool w') = rate_limits (pool w) /\
  schedule_algorithm (pool w') = schedule_algorithm (pool w) /\
  (index (pool w') < List.length (items (pool w)))%nat.
Proof.
  revert w. induction fuel as [| fuel IH]; intros w; cbn [next_loop]; [discriminate |].
  destruct (nth_error (items (pool w)) (index (pool w))) as [item0 |];
    [| intros H Hlt; inversion H; subst; auto].
  set (w1 := {| pool := set_index (pool w)
                          ((index (pool w) + 1) mod List.length (items (pool w)));
                reads := reads w |}).
  destruct (is_rate_limited_items time item0 model w1) as (Hitems & Hindex & Htbl & Halg).
  destruct (is_rate_limited time item0 model w1) as [[[|] | e] w2];
    cbn [snd] in Hitems, Hindex, Htbl, Halg;
    cbn [w1 pool items index set_index rate_limits schedule_algorithm]
      in Hitems, Hindex, Htbl, Halg;
    intros H Hlt;
    assert (Hmod : (index (pool w2) < List.length (items (pool w)))%nat)
      by (rewrite Hindex; apply Nat.mod_upper_bound; lia).
  - destruct (_ =? start_index)%nat.
    + inversion H; subst. auto.
    + apply IH in H; [| rewrite Hitems; exact Hmod].
      rewrite Hitems, Htbl, Halg in H. exact H.
  - inversion H; subst. auto.
  - inversion H; subst. auto.
Qed.

Lemma next_wf time model w :
  pool_wf (pool w) ->
  pool_wf (pool (snd (next time model w))) /\
  items (pool (snd (next time model w))) = items (pool w) /\
  rate_limits (pool (snd (next time model w))) = rate_limits (pool w) /\
  schedule_algorithm (pool (snd (next time model w))) = schedule_algorithm (pool w).
Proof.
  intros [Hidx Htbl].
  destruct (next_never_out_of_fuel time model w) as ([r w'] & Hloop & Hnext).
  rewrite Hnext. cbn [snd].
  set (p0 := if String.eqb (schedule_algorithm (pool w)) "fixed_priority"
             then set_index (pool w) 0 else pool w) in Hloop.
  assert (E : items p0 = items (pool w) /\ rate_limits p0 = rate_limits (pool w) /\
              schedule_algorithm p0 = schedule_algorithm (pool w) /\
              (items (pool w) <> [] -> (index p0 < List.length (items (pool w)))%nat)).
  { unfold p0. destruct (String.eqb _ _); cbn [set_index items index]; repeat split; auto.
    intros Hne. destruct (items (pool w)); [contradiction | cbn; lia]. }
  destruct E as (E1 & E2 & E3 & E4).
  destruct (Nat.lt_ge_cases (index p0) (List.length (items p0))) as [Hlt | Hge].
  - apply next_loop_wf in Hloop; [| exact Hlt]. cbn [pool] in Hloop.
    rewrite E1, E2, E3 in Hloop. destruct Hloop as (H1 & H2 & H3 & H4).
    repeat split; try assumption.
    + intros _. rewrite H1. exact H4.
    + rewrite H2. exact Htbl.
  - assert (Hnil : items (pool w) = []).
    { destruct (items (pool w)) eqn:Hi; [reflexivity |].
      rewrite E1 in Hge. assert (Hne : s :: l <> []) by discriminate.
      specialize (E4 Hne). lia. }
    apply nth_error_None in Hge. cbn [next_loop pool] in Hloop.
    rewrite Hge in Hloop. inversion Hloop; subst. cbn [pool].
    repeat split; try assumption.
    + rewrite E1, Hnil. intros Hc. contradiction.
    + rewrite E2. exact Htbl.
Qed.

Lemma pool_run_wf time calls w :
  pool_wf (pool w) ->
  pool_wf (pool (pool_run time calls w)) /\
  items (pool (pool_run time calls w)) = items (pool w) /\
  rate_limits (pool (pool_run time calls w)) = rate_limits (pool w) /\
  schedule_algorithm (pool (pool_run time calls w)) = schedule_algorithm (pool w).
Proof.
  revert w. induction calls as [| call calls IH]; intros w Hwf; [cbn; auto |].
  destruct call as [model | item model | item cooling_time]; cbn [pool_run].
  - destruct (next_wf time model w Hwf) as (Hwf' & H1 & H2 & H3).
    destruct (IH _ Hwf') as (Hwf'' & H1' & H2' & H3').
    repeat split; try congruence; apply Hwf''.
  - destruct (is_rate_limited_items time item model w) as (H1 & H0 & H2 & H3).
    assert (Hwf' : pool_wf (pool (snd (is_rate_limited time item model w)))).
    { destruct Hwf as [Hidx Htbl]. split; [| rewrite H2; exact Htbl].
      rewrite H1, H0. exact Hidx. }
    destruct (IH _ Hwf') as (Hwf'' & H1' & H2' & H3').
    repeat split; try congruence; apply Hwf''.
  - assert (Hwf' : pool_wf (pool (set_cooling time item cooling_time w))
                   /\ items (pool (set_cooling time item cooling_time w)) = items (pool w)
                   /\ rate_limits (pool (set_cooling time item cooling_time w))
                      = rate_limits (pool w)
                   /\ schedule_algorithm (pool (set_cooling time item cooling_time w))
                      = schedule_algorithm (pool w)).
    { destruct item; cbn; auto. }
    destruct Hwf' as (Hwf' & H1 & H2 & H3).
    destruct (IH _ Hwf') as (Hwf'' & H1' & H2' & H3').
    repeat split; try congruence; apply Hwf''.
Qed.

(** X7. A pool that its constructor has built with at least one credential
    answers every [next], after any sequence of calls of [next],
    [is_rate_limited] and [set_cooling], with one of its credentials or
    with the HTTP error 429: never with [IndexError] or the [ValueError]
    of an empty list of limits. The calls change neither the list of
    credentials, nor the table of limits, nor the discipline. *)
Theorem constructed_pool_answers (time : nat -> Z) (sampled items_ : list string)
    (rate_limit : pyval) (algorithm : string) (self : ThreadSafeCircularList)
    (calls : list pool_call) (model : option string) :
  new_ThreadSafeCircularList sampled items_ rate_limit algorithm = Ok self ->
  items self <> [] ->
  let w := pool_run time calls {| pool := self; reads := 0 |} in
  items (pool w) = items self /\
  rate_limits (pool w) = rate_limits self /\
  schedule_algorithm (pool w) = schedule_algorithm self /\
  match fst (next time model w) with
  | Ok item => In item (items self)
  | Raise e => e = HTTPException (PInt 429) "Too many requests"
  end.
Proof.
  intros Hnew Hne w.
  destruct (new_ThreadSafeCircularList_spec _ _ _ _ _ Hnew) as (_ & _ & Hidx & Htbl & _).
  assert (Hwf : pool_wf self).
  { split; [| exact Htbl]. intros _. rewrite Hidx.
    destruct (items self); [contradiction | cbn; lia]. }
  destruct (pool_run_wf time calls {| pool := self; reads := 0 |} Hwf)
    as (Hwf' & H1 & H2 & H3).
  fold w in Hwf', H1, H2, H3. cbn [pool] in H1, H2, H3.
  repeat split; try assumption.
  assert (Hne' : items (pool w) <> []) by (rewrite H1; exact Hne).
  pose proof (next_rounds time model w Hwf' Hne') as H.
  destruct (next time model w) as [[item | e] w']; cbn [fst].
  - destruct H as (j & _ & Hs & _). unfold slot in Hs.
    apply nth_error_In in Hs. rewrite H1 in Hs. exact Hs.
  - apply H.
Qed.

(** ** The pool: the windows under any sequence of calls *)

Section PoolCalls.

Variable time : nat -> Z.
Hypothesis time_mono : forall i j : nat, (i <= j)%nat -> time i <= time j.

Lemma pool_inv_is_rate_limited item model w :
  pool_inv time w -> pool_inv time (snd (is_rate_limited time item model w)).
Proof.
  intros [Hcoh Hwin].
  pose proof (is_rate_limited_cases time item model w) as Hcases. cbn zeta in Hcases.
  destruct (is_rate_limited time item model w) as [[[|] | e] w']; cbn [snd].
  - destruct Hcases as [-> _]. split; [exact Hcoh |].
    intros n Hn. cbn [pool reads] in *. apply Hwin. lia.
  - destruct Hcases as (_ & Hlim & mp & _ & ->). split; [exact Hcoh |].
    cbn [pool reads]. intros n Hn item' model' count period Hin.
    cbn [rate_limits set_request_log set_requests] in Hin.
    destruct (decide ((item', model_key_of model') = (item, model_key_of model)))
      as [E | E].
    + inversion E as [[Hitem Hkey]]. rewrite Hkey.
      rewrite request_log_set_same.
      rewrite (rate_limit_for_key _ model model' Hcoh Hkey) in Hin.
      pose proof (limit_reached_false _ _ _ Hlim count period Hin) as Hlt.
      pose proof (recent_requests_trim_append
                    (request_log (pool w) item (model_key_of model))
                    (time (reads w)) mp period) as Htrim.
      pose proof (recent_requests_mono
                    (List.filter (fun req => time (reads w) - mp <? req)
                       (request_log (pool w) item (model_key_of model))
                     ++ [time (reads w)])
                    (time (reads w)) (time n) period
                    (time_mono (reads w) n ltac:(lia))) as Hmono.
      lia.
    + rewrite request_log_set_other by exact E.
      apply (Hwin n ltac:(lia)). exact Hin.
  - destruct Hcases as [-> _]. split; [exact Hcoh |].
    intros n Hn. cbn [pool reads] in *. apply Hwin. lia.
Qed.

Lemma pool_inv_set_cooling item cooling_time w :
  pool_inv time w -> pool_inv time (set_cooling time item cooling_time w).
Proof.
  intros [Hcoh Hwin]. destruct item as [item |]; [| split; assumption].
  split; [exact Hcoh |]. cbn [set_cooling pool reads].
  intros n Hn item' model' count period Hin.
  apply (Hwin n ltac:(lia)). exact Hin.
Qed.

Lemma pool_inv_run calls w : pool_inv time w -> pool_inv time (pool_run time calls w).
Proof.
  revert w. induction calls as [| call calls IH]; intros w Hinv; [exact Hinv |].
  destruct call as [model | item model | item cooling_time]; cbn [pool_run]; apply IH.
  - apply pool_inv_next; assumption.
  - apply pool_inv_is_rate_limited; assumption.
  - apply pool_inv_set_cooling; assumption.
Qed.

(** X8. The windows hold under every use of the pool, not under [next]
    alone: take a pool as its constructor builds it, with a [default]
    entry in its table, a clock that does not run backwards and any
    sequence of calls of [next], [is_rate_limited] and [set_cooling]. At
    every reading of the clock from the last one on, the log of every
    credential and model key holds at most [count] requests inside every
    [(count, period)] window of the model. *)
Theorem windows_hold_under_all_calls sampled items_ rate_limit algorithm self
    (calls : list pool_call) :
  new_ThreadSafeCircularList sampled items_ rate_limit algorithm = Ok self ->
  assoc "default" (rate_limits self) <> None ->
  let w := pool_run time calls {| pool := self; reads := 0 |} in
  forall n item m count period,
    (reads w <= S n)%nat ->
    In (count, period) (rate_limit_for (rate_limits (pool w)) m) ->
    recent_requests (request_log (pool w) item (model_key_of m)) (time n) period <= count.
Proof.
  intros Hnew Hdefault w.
  assert (Hinv : pool_inv time w).
  { apply pool_inv_run. eapply pool_inv_new; eassumption. }
  destruct Hinv as [_ Hwin].
  intros n item m count period Hn Hin. eapply (Hwin n Hn). exact Hin.
Qed.

End PoolCalls.

(** ** The pool: the order of the credentials under a light load *)

Lemma recent_requests_le_length log now period :
  recent_requests log now period <= Z.of_nat (List.length log).
Proof.
  unfold recent_requests. apply inj_le. apply List.filter_length_le.
Qed.

Lemma limit_reached_light log now rate_limit (k : nat) :
  (List.length log <= k)%nat ->
  (forall count period, In (count, period) rate_limit -> Z.of_nat k < count) ->
  limit_reached log now rate_limit = false.
Proof.
  intros Hlog Hcount. unfold limit_reached.
  apply Bool.not_true_is_false. intros H. apply existsb_exists in H.
  destruct H as ([count period] & Hin & Hle). cbn [fst snd] in Hle.
  apply Z.leb_le in Hle. specialize (Hcount count period Hin).
  pose proof (recent_requests_le_length log now period). lia.
Qed.

Section LightLoad.

Variable time : nat -> Z.
Hypothesis time_nonneg : forall n : nat, 0 <= time n.
Variable self : ThreadSafeCircularList.
Hypothesis self_items : items self <> [].

Lemma turn_lt k : (turn self k < List.length (items self))%nat.
Proof.
  assert (0 < List.length (items self))%nat
    by (destruct (items self); [contradiction | cbn; lia]).
  unfold turn. destruct (String.eqb _ _); [lia | apply Nat.mod_upper_bound; lia].
Qed.

Lemma light_step k w model :
  light_inv self k w ->
  (forall count period,
      In (count, period) (rate_limit_for (rate_limits self) model) -> Z.of_nat k < count) ->
  fst (next time model w) = Ok (nth (turn self k) (items self) EmptyString) /\
  light_inv self (S k) (snd (next time model w)).
Proof.
  intros (Hwf & Hitems & Htbl & Halg & Hstart & Hcool & Hreads & Hlogs) Hcount.
  assert (Hne : items (pool w) <> []) by (rewrite Hitems; exact self_items).
  pose proof (turn_lt k) as Hturn.
  assert (Hslot0 : slot (pool w) 0 = Some (nth (turn self k) (items self) EmptyString)).
  { unfold slot. rewrite Hstart, Hitems, Nat.add_0_r, Nat.mod_small by exact Hturn.
    apply nth_error_nth'. exact Hturn. }
  assert (Hfree : slot_limited time (pool w) model (reads w) 0 = false).
  { unfold slot_limited. rewrite Hslot0. unfold limited_at, cooling_of.
    rewrite Hcool, lookup_empty. cbn [default].
    destruct (Z.ltb_spec (time (reads w + 0)) 0) as [Hneg | _];
      [pose proof (time_nonneg (reads w + 0)); lia |].
    cbn [orb]. apply (limit_reached_light _ _ _ k); [apply Hlogs |].
    rewrite Htbl. exact Hcount. }
  pose proof (next_rounds time model w Hwf Hne) as Hrounds.
  pose proof (next_spec time model w) as Hspec. cbn zeta in Hspec.
  destruct (next_wf time model w Hwf) as (Hwf' & Hi' & Ht' & Ha').
  destruct (next time model w) as [[item | e] w']; cbn [fst snd] in *.
  2:{ destruct Hrounds as (_ & Hall & _).
      rewrite Hall in Hfree; [discriminate |].
      destruct (items (pool w)); [contradiction | cbn; lia]. }
  destruct Hrounds as (j & Hj & Hs & Hl & Hprev & Hr & Hidx).
  assert (Hj0 : j = 0%nat).
  { destruct j as [| j]; [reflexivity |].
    rewrite Hprev in Hfree by lia. discriminate. }
  subst j. rewrite Hslot0 in Hs. inversion Hs; subst item. split; [reflexivity |].
  destruct Hspec as (_ & _ & k' & mp & i & _ & _ & _ & _ & _ & Hpool).
  repeat split; try congruence; try apply Hwf'.
  - unfold start_index_of, turn. rewrite Ha', Halg.
    destruct (String.eqb (schedule_algorithm self) "fixed_priority") eqn:Hf;
      [reflexivity |].
    rewrite Hidx, Hstart, Hitems. unfold turn. rewrite Hf.
    rewrite Nat.Div0.add_mod_idemp_l. f_equal. lia.
  - rewrite Hpool. cbn [cooling_until set_request_log set_requests set_index]. exact Hcool.
  - lia.
  - intros item' model_key'. rewrite Hpool.
    destruct (decide ((item', model_key')
                      = (nth (turn self k) (items self) EmptyString, model_key_of model)))
      as [E | E].
    + inversion E; subst. rewrite request_log_set_same.
      rewrite List.length_app. cbn [List.length].
      pose proof (List.filter_length_le
                    (fun req => time k' - mp <? req)
                    (request_log (pool w) (nth (turn self (reads w)) (items self) EmptyString)
                       (model_key_of model))).
      specialize (Hlogs (nth (turn self (reads w)) (items self) EmptyString)
                        (model_key_of model)).
      lia.
    + rewrite request_log_set_other by exact E. rewrite request_log_set_index.
      specialize (Hlogs item' model_key'). lia.
Qed.

Lemma light_calls models k w :
  light_inv self k w ->
  (forall model count period,
      In model models ->
      In (count, period) (rate_limit_for (rate_limits self) model) ->
      Z.of_nat (k + List.length models) <= count) ->
  fst (next_calls time models w)
  = List.map (fun i => Ok (nth (turn self i) (items self) EmptyString))
      (seq k (List.length models)).
Proof.
  revert k w. induction models as [| model models IH]; intros k w Hinv Hcount;
    [reflexivity |].
  cbn [next_calls List.length seq List.map].
  destruct (light_step k w model Hinv) as [Hres Hinv'].
  { intros count period Hin.
    specialize (Hcount model count period (or_introl eq_refl) Hin).
    cbn [List.length] in Hcount. lia. }
  destruct (next time model w) as [r w1]. cbn [fst snd] in Hres, Hinv'.
  specialize (IH (S k) w1 Hinv').
  destruct (next_calls time models w1) as [rs w2]. cbn [fst] in IH |- *.
  rewrite Hres, IH; [reflexivity |].
  intros model' count period Hin Hcp.
  specialize (Hcount model' count period (or_intror Hin) Hcp).
  cbn [List.length] in Hcount. lia.
Qed.

End LightLoad.

(** X9. Under a light load the disciplines give their order: take a pool
    that the constructor has built with at least one credential, a clock
    that never reads below zero, and a sequence of calls of [next] shorter
    than every count of the limits of its models. No call finds a
    credential limited, and call number [k] (from 0) returns the first
    credential under [fixed_priority] and the credential at position
    [k mod len(items)] otherwise: in turn under [round_robin], in turn
    through the shuffled list under [random]. *)
Theorem light_load_order (time : nat -> Z) (sampled items_ : list string)
    (rate_limit : pyval) (algorithm : string) (self : ThreadSafeCircularList)
    (models : list (option string)) :
  new_ThreadSafeCircularList sampled items_ rate_limit algorithm = Ok self ->
  items self <> [] ->
  (forall n : nat, 0 <= time n) ->
  (forall model count period,
      In model models ->
      In (count, period) (rate_limit_for (rate_limits self) model) ->
      Z.of_nat (List.length models) <= count) ->
  fst (next_calls time models {| pool := self; reads := 0 |})
  = List.map (fun k => Ok (nth (turn self k) (items self) EmptyString))
      (seq 0 (List.length models)).
Proof.
  intros Hnew Hne Htime Hcount.
  destruct (new_ThreadSafeCircularList_spec _ _ _ _ _ Hnew)
    as (Hreq & Hcool & Hidx & Htbl & _).
  apply (light_calls time Htime self Hne models 0).
  - repeat split; cbn [pool reads]; try assumption; try reflexivity.
    + intros _. rewrite Hidx. destruct (items self); [contradiction | cbn; lia].
    + unfold start_index_of, turn. rewrite Hidx.
      destruct (String.eqb _ _); [reflexivity |].
      symmetry. apply Nat.Div0.mod_0_l.
    + intros item model_key. rewrite (request_log_empty self item model_key Hreq).
      cbn. lia.
  - exact Hcount.
Qed.

Lemma light_load_order_witness :
  let self := {| items := ["k1"; "k2"]; schedule_algorithm := "round_robin"; index := 0;
                 requests := ∅; cooling_until := ∅;
                 rate_limits := [("default", [(5, 60)])] |} in
  new_ThreadSafeCircularList [] ["k1"; "k2"] (PStr "5/min") "round_robin" = Ok self /\
  fst (next_calls Z.of_nat [None; Some "gpt-4"; None] {| pool := self; reads := 0 |})
  = [Ok "k1"; Ok "k2"; Ok "k1"].
Proof.
  intros self.
  assert (Hnew : new_ThreadSafeCircularList [] ["k1"; "k2"] (PStr "5/min") "round_robin"
                 = Ok self) by reflexivity.
  split; [exact Hnew |].
  apply (light_load_order Z.of_nat [] ["k1"; "k2"] (PStr "5/min") "round_robin" self
           [None; Some "gpt-4"; None] Hnew).
  - discriminate.
  - intros n. lia.
  - intros model count period _ Hin.
    assert (E : rate_limit_for (rate_limits self) model = [(5, 60)]).
    { unfold rate_limit_for. cbn [rate_limits self assoc substring_match].
      destruct model as [m |]; [| reflexivity].
      destruct (String.eqb m EmptyString); [reflexivity |].
      destruct (String.eqb m "default"); reflexivity. }
    rewrite E in Hin. destruct Hin as [Hin | []]. inversion Hin. cbn. lia.
Defined.

Lemma constructed_pool_answers_witness :
  let self := {| items := ["k1"; "k2"]; schedule_algorithm := "round_robin"; index := 0;
                 requests := ∅; cooling_until := ∅;
                 rate_limits := [("default", [(1, 60)])] |} in
  let calls := [call_next None; call_set_cooling (Some "k2") 30;
                call_is_rate_limited "k1" (Some "gpt-4")] in
  let w := pool_run Z.of_nat calls {| pool := self; reads := 0 |} in
  new_ThreadSafeCircularList [] ["k1"; "k2"] (PStr "1/min") "round_robin" = Ok self /\
  items (pool w) = items self /\
  rate_limits (pool w) = rate_limits self /\
  schedule_algorithm (pool w) = schedule_algorithm self /\
  match fst (next Z.of_nat None w) with
  | Ok item => In item (items self)
  | Raise e => e = HTTPException (PInt 429) "Too many requests"
  end.
Proof.
  intros self calls w.
  assert (Hnew : new_ThreadSafeCircularList [] ["k1"; "k2"] (PStr "1/min") "round_robin"
                 = Ok self) by reflexivity.
  split; [exact Hnew |].
  apply (constructed_pool_answers Z.of_nat [] ["k1"; "k2"] (PStr "1/min") "round_robin"
           self calls None Hnew).
  discriminate.
Defined.

Lemma windows_hold_under_all_calls_witness :
  let self := {| items := ["k1"; "k2"]; schedule_algorithm := "round_robin"; index := 0;
                 requests := ∅; cooling_until := ∅;
                 rate_limits := [("default", [(1, 60)])] |} in
  let calls := [call_next None; call_is_rate_limited "k1" None;
                call_set_cooling (Some "k2") 30; call_next None] in
  let w := pool_run Z.of_nat calls {| pool := self; reads := 0 |} in
  (forall i j : nat, (i <= j)%nat -> Z.of_nat i <= Z.of_nat j) /\
  new_ThreadSafeCircularList [] ["k1"; "k2"] (PStr "1/min") "round_robin" = Ok self /\
  assoc "default" (rate_limits self) <> None /\
  (reads w <= S 9)%nat /\
  In (1, 60) (rate_limit_for (rate_limits (pool w)) None) /\
  recent_requests (request_log (pool w) "k1" (model_key_of None)) (Z.of_nat 9) 60 <= 1.
Proof.
  intros self calls w.
  assert (Hmono : forall i j : nat, (i <= j)%nat -> Z.of_nat i <= Z.of_nat j)
    by (intros i j H; lia).
  assert (Hnew : new_ThreadSafeCircularList [] ["k1"; "k2"] (PStr "1/min") "round_robin"
                 = Ok self) by reflexivity.
  assert (Hdef : assoc "default" (rate_limits self) <> None) by discriminate.
  assert (Hreads : (reads w <= S 9)%nat) by (vm_compute; lia).
  assert (Hin : In (1, 60) (rate_limit_for (rate_limits (pool w)) None))
    by (vm_compute; left; reflexivity).
  repeat split; try assumption.
  exact (windows_hold_under_all_calls Z.of_nat Hmono [] ["k1"; "k2"] (PStr "1/min")
           "round_robin" self calls Hnew Hdef 9%nat "k1" None 1 60 Hreads Hin).
Defined.

(** ** Rate limits: writing and reading *)







Lemma append_nil_r_ (s : string) : s ++ EmptyString = s.
Proof. induction s as [| c s IH]; cbn; [reflexivity | rewrite IH; reflexivity]. Qed.

Lemma prefix_nil (s : string) : String.prefix EmptyString s = true.
Proof. destruct s; reflexivity. Qed.


















(** X11. What [parse_rate_limit] returns, when it returns: as many limits as
    the text has pieces between commas, so at least one; every count is
    zero or more and every period is the number of seconds of a unit of
    [time_units], so at least one second. The text without a limit, the
    empty string, raises [ValueError]. *)
Theorem parse_rate_limit_shape (limit_string : string) :
  match parse_rate_limit limit_string with
  | Ok limits =>
      limits <> [] /\
      List.length limits = List.length (split "," limit_string) /\
      Forall (fun l => 0 <= fst l /\ 1 <= snd l /\
                       exists unit, assoc unit time_units = Some (snd l)) limits
  | Raise e => exists msg, e = ValueError msg
  end /\
  parse_rate_limit EmptyString = Raise (ValueError "Invalid rate limit format: ").
Proof.
  split; [| reflexivity].
  unfold parse_rate_limit.
  assert (H : forall pieces,
             match parse_limits pieces with
             | Ok limits =>
                 List.length limits = List.length pieces /\
                 Forall (fun l => 0 <= fst l /\ 1 <= snd l /\
                                  exists unit, assoc unit time_units = Some (snd l)) limits
             | Raise e => exists msg, e = ValueError msg
             end).
  { induction pieces as [| limit pieces IH]; cbn [parse_limits]; [split; [reflexivity | constructor] |].
    destruct (match_rate_limit (strip limit)) as [[count unit] |] eqn:Hm; [| eauto].
    destruct (assoc unit time_units) as [seconds |] eqn:Hu; [| eauto].
    destruct (parse_limits pieces) as [limits | e]; cbn [bind]; [| exact IH].
    destruct IH as [Hlen Hall]. split; [cbn [List.length]; congruence |].
    constructor; [| exact Hall]. cbn [fst snd].
    split; [| split; [| exists unit; exact Hu]].
    - apply digits_value_nonneg; [| lia].
      unfold match_rate_limit in Hm.
      pose proof (span_digits_fst (strip limit)) as Hd.
      destruct (span_digits (strip limit)) as [c rest].
      destruct c; [discriminate |]. destruct rest; [discriminate |].
      destruct (span_word rest). destruct (_ && _); [| discriminate].
      inversion Hm; subst. exact Hd.
    - apply assoc_In in Hu. cbn in Hu.
      repeat (destruct Hu as [Hu | Hu]; [inversion Hu; lia |]). contradiction. }
  specialize (H (split "," limit_string)).
  destruct (parse_limits (split "," limit_string)) as [limits | e]; [| exact H].
  destruct H as [Hlen Hall]. split; [| split; assumption].
  intros ->. cbn in Hlen. symmetry in Hlen. apply List.length_zero_iff_nil in Hlen.
  revert Hlen. apply split_go_not_nil.
Qed.

(** ** The rate limiter of the module *)

Lemma read_log_spec key self :
  fst (InMemoryRateLimiter.read_log key self) = InMemoryRateLimiter.log_of self key /\
  forall key',
    InMemoryRateLimiter.log_of (snd (InMemoryRateLimiter.read_log key self)) key'
    = InMemoryRateLimiter.log_of self key'.
Proof.
  unfold InMemoryRateLimiter.read_log, InMemoryRateLimiter.log_of.
  destruct (InMemoryRateLimiter.requests self !! key) as [log |] eqn:E;
    cbn [fst snd InMemoryRateLimiter.requests]; [auto |].
  split; [reflexivity |]. intros key'.
  destruct (decide (key' = key)) as [-> | Hne].
  - rewrite lookup_insert_eq, E. reflexivity.
  - rewrite lookup_insert_ne by congruence. reflexivity.
Qed.

Lemma limiter_log_insert self key log key' :
  InMemoryRateLimiter.log_of
    {| InMemoryRateLimiter.requests := <[key := log]> (InMemoryRateLimiter.requests self) |}
    key'
  = if decide (key' = key) then log else InMemoryRateLimiter.log_of self key'.
Proof.
  unfold InMemoryRateLimiter.log_of. cbn [InMemoryRateLimiter.requests].
  destruct (decide (key' = key)) as [-> | Hne].
  - rewrite lookup_insert_eq. reflexivity.
  - rewrite lookup_insert_ne by congruence. reflexivity.
Qed.

(** What a call answers and what it leaves. *)
Lemma limiter_call_cases time key limits w :
  let now := time (InMemoryRateLimiter.reads w) in
  let log := InMemoryRateLimiter.log_of (InMemoryRateLimiter.limiter w) key in
  let r := InMemoryRateLimiter.is_rate_limited time key limits w in
  InMemoryRateLimiter.reads (snd r) = S (InMemoryRateLimiter.reads w) /\
  match fst r with
  | Ok true =>
      limit_reached log now limits = true /\
      forall key', InMemoryRateLimiter.log_of (InMemoryRateLimiter.limiter (snd r)) key'
                   = InMemoryRateLimiter.log_of (InMemoryRateLimiter.limiter w) key'
  | Ok false =>
      limit_reached log now limits = false /\
      exists max_period_,
        max_period limits = Ok max_period_ /\
        forall key',
          InMemoryRateLimiter.log_of (InMemoryRateLimiter.limiter (snd r)) key'
          = if decide (key' = key)
            then (List.filter (fun req => now - max_period_ <? req) log ++ [now])%list
            else InMemoryRateLimiter.log_of (InMemoryRateLimiter.limiter w) key'
  | Raise e =>
      limits = [] /\ e = ValueError "max() arg is an empty sequence" /\
      InMemoryRateLimiter.limiter (snd r) = InMemoryRateLimiter.limiter w
  end.
Proof.
  cbn zeta. unfold InMemoryRateLimiter.is_rate_limited.
  destruct limits as [| l0 limits0]; [cbn; auto |].
  destruct (read_log_spec key (InMemoryRateLimiter.limiter w)) as [Hlog Hothers].
  destruct (InMemoryRateLimiter.read_log key (InMemoryRateLimiter.limiter w))
    as [log self'].
  cbn [fst snd] in Hlog, Hothers. subst log.
  destruct (limit_reached _ _ (l0 :: limits0)) eqn:Hl.
  - cbn [fst snd InMemoryRateLimiter.reads InMemoryRateLimiter.limiter]. auto.
  - cbn [max_period fst snd InMemoryRateLimiter.reads InMemoryRateLimiter.limiter].
    split; [reflexivity |]. split; [reflexivity |].
    eexists. split; [reflexivity |]. intros key'.
    rewrite limiter_log_insert. destruct (decide (key' = key)); [reflexivity |].
    apply Hothers.
Qed.

Section LimiterFacts.

Variable time : nat -> Z.
Hypothesis time_mono : forall i j : nat, (i <= j)%nat -> time i <= time j.

(** The limits that every call gives for a key. *)
Variable limits_of : string -> list (Z * Z).

Lemma limiter_inv_step key w :
  limiter_inv time limits_of w ->
  limiter_inv time limits_of
    (snd (InMemoryRateLimiter.is_rate_limited time key (limits_of key) w)).
Proof.
  intros Hinv.
  pose proof (limiter_call_cases time key (limits_of key) w) as Hcases.
  cbn zeta in Hcases. destruct Hcases as [Hreads Hcases].
  destruct (InMemoryRateLimiter.is_rate_limited time key (limits_of key) w) as [r w'].
  cbn [fst snd] in *.
  intros n key' limit period Hn Hin. rewrite Hreads in Hn.
  destruct r as [[|] | e].
  - destruct Hcases as [_ Hsame]. rewrite Hsame. apply Hinv; [lia | exact Hin].
  - destruct Hcases as (Hlim & mp & _ & Hlogs). rewrite Hlogs.
    destruct (decide (key' = key)) as [-> | Hne]; [| apply Hinv; [lia | exact Hin]].
    pose proof (limit_reached_false _ _ _ Hlim limit period Hin) as Hlt.
    pose proof (recent_requests_trim_append
                  (InMemoryRateLimiter.log_of (InMemoryRateLimiter.limiter w) key)
                  (time (InMemoryRateLimiter.reads w)) mp period) as Htrim.
    pose proof (recent_requests_mono
                  (List.filter (fun req => time (InMemoryRateLimiter.reads w) - mp <? req)
                     (InMemoryRateLimiter.log_of (InMemoryRateLimiter.limiter w) key)
                   ++ [time (InMemoryRateLimiter.reads w)])
                  (time (InMemoryRateLimiter.reads w)) (time n) period
                  (time_mono (InMemoryRateLimiter.reads w) n ltac:(lia))) as Hmono.
    lia.
  - destruct Hcases as (_ & _ & Hsame). rewrite Hsame. apply Hinv; [lia | exact Hin].
Qed.

Lemma limiter_inv_calls l w :
  Forall (fun c => snd c = limits_of (fst c)) l ->
  limiter_inv time limits_of w ->
  limiter_inv time limits_of (snd (InMemoryRateLimiter.calls time l w)).
Proof.
  revert w. induction l as [| [key limits] l IH]; intros w Hall Hinv; [exact Hinv |].
  inversion Hall as [| ? ? Hc Hrest]; subst. cbn [fst snd] in Hc. subst limits.
  cbn [InMemoryRateLimiter.calls].
  pose proof (limiter_inv_step key w Hinv) as H1.
  destruct (InMemoryRateLimiter.is_rate_limited time key (limits_of key) w) as [r w1].
  cbn [snd] in H1. specialize (IH w1 Hrest H1).
  destruct (InMemoryRateLimiter.calls time l w1) as [rs w2]. exact IH.
Qed.

(** X12. The rate limiter of the module keeps every window within its
    limit: start from a new limiter, with a clock that does not run
    backwards, and make any sequence of calls of [is_rate_limited] in which
    every key always comes with the same limits, none of them below zero.
    At every reading of the clock from the last one on, the log of every
    key holds at most [limit] requests inside every [(limit, period)]
    window of the key. *)
Theorem limiter_keeps_windows (l : list (string * list (Z * Z))) :
  Forall (fun c => snd c = limits_of (fst c)) l ->
  (forall key limit period, In (limit, period) (limits_of key) -> 0 <= limit) ->
  let w := snd (InMemoryRateLimiter.calls time l
                  {| InMemoryRateLimiter.limiter := InMemoryRateLimiter.new;
                     InMemoryRateLimiter.reads := 0 |}) in
  forall n key limit period,
    (InMemoryRateLimiter.reads w <= S n)%nat ->
    In (limit, period) (limits_of key) ->
    recent_requests (InMemoryRateLimiter.log_of (InMemoryRateLimiter.limiter w) key)
      (time n) period <= limit.
Proof.
  intros Hall Hnonneg w.
  apply (limiter_inv_calls l _ Hall).
  intros n key limit period _ Hin. cbn. eapply Hnonneg. exact Hin.
Qed.

End LimiterFacts.

(** X13. A call of the rate limiter of the module that refuses a request
    ([True]) leaves every log as it was; a call that lets one pass ([False])
    found every window strictly below its limit, trims the log of its key
    to the longest period and appends the time of the call, and leaves the
    logs of the other keys; with no limit at all the call raises the
    [ValueError] of [max] over nothing and changes nothing. *)
Theorem limiter_call_frame (time : nat -> Z) (key : string) (limits : list (Z * Z))
    (w : InMemoryRateLimiter.world) :
  let now := time (InMemoryRateLimiter.reads w) in
  let log := InMemoryRateLimiter.log_of (InMemoryRateLimiter.limiter w) key in
  let r := InMemoryRateLimiter.is_rate_limited time key limits w in
  match fst r with
  | Ok true =>
      (exists limit period, In (limit, period) limits /\
         limit <= recent_requests log now period) /\
      forall key', InMemoryRateLimiter.log_of (InMemoryRateLimiter.limiter (snd r)) key'
                   = InMemoryRateLimiter.log_of (InMemoryRateLimiter.limiter w) key'
  | Ok false =>
      (forall limit period, In (limit, period) limits ->
         recent_requests log now period < limit) /\
      exists max_period_,
        max_period limits = Ok max_period_ /\
        forall key',
          InMemoryRateLimiter.log_of (InMemoryRateLimiter.limiter (snd r)) key'
          = if decide (key' = key)
            then (List.filter (fun req => now - max_period_ <? req) log ++ [now])%list
            else InMemoryRateLimiter.log_of (InMemoryRateLimiter.limiter w) key'
  | Raise e =>
      limits = [] /\ e = ValueError "max() arg is an empty sequence" /\
      InMemoryRateLimiter.limiter (snd r) = InMemoryRateLimiter.limiter w
  end.
Proof.
  pose proof (limiter_call_cases time key limits w) as H. cbn zeta in H |- *.
  destruct H as [_ H].
  destruct (fst (InMemoryRateLimiter.is_rate_limited time key limits w)) as [[|] | e].
  - destruct H as [Hl Hsame]. split; [| exact Hsame].
    apply limit_reached_true. exact Hl.
  - destruct H as (Hl & mp & Hmp & Hlogs). split; [| eauto].
    apply limit_reached_false. exact Hl.
  - exact H.
Qed.

Lemma limiter_keeps_windows_witness :
  let limits_of := fun _ : string => [(1, 60)] in
  let l := [("a", [(1, 60)]); ("a", [(1, 60)]); ("b", [(1, 60)])] in
  let w := snd (InMemoryRateLimiter.calls Z.of_nat l
                  {| InMemoryRateLimiter.limiter := InMemoryRateLimiter.new;
                     InMemoryRateLimiter.reads := 0 |}) in
  (forall i j : nat, (i <= j)%nat -> Z.of_nat i <= Z.of_nat j) /\
  Forall (fun c : string * list (Z * Z) => snd c = limits_of (fst c)) l /\
  (InMemoryRateLimiter.reads w <= S 5)%nat /\
  In (1, 60) (limits_of "a") /\
  recent_requests (InMemoryRateLimiter.log_of (InMemoryRateLimiter.limiter w) "a")
    (Z.of_nat 5) 60 <= 1.
Proof.
  intros limits_of l w.
  assert (Hmono : forall i j : nat, (i <= j)%nat -> Z.of_nat i <= Z.of_nat j)
    by (intros i j H; lia).
  assert (Hall : Forall (fun c : string * list (Z * Z) => snd c = limits_of (fst c)) l)
    by (repeat constructor).
  assert (Hnonneg : forall key limit period,
             In (limit, period) (limits_of key) -> 0 <= limit).
  { intros key limit period [H | []]. inversion H. lia. }
  assert (Hreads : (InMemoryRateLimiter.reads w <= S 5)%nat) by (vm_compute; lia).
  assert (Hin : In (1, 60) (limits_of "a")) by (left; reflexivity).
  split; [exact Hmono |]. split; [exact Hall |]. split; [exact Hreads |].
  split; [exact Hin |].
  exact (limiter_keeps_windows Z.of_nat Hmono limits_of l Hall Hnonneg 5%nat "a" 1 60
           Hreads Hin).
Defined.

(** ** The models of a configuration *)

Lemma existsb_py_eqb_str m names :
  existsb (py_eqb (PStr m)) (List.map PStr names) = true <-> In m names.
Proof.
  rewrite existsb_exists. split.
  - intros (x & Hin & Heq). apply in_map_iff in Hin as (n & <- & Hn).
    cbn in Heq. apply String.eqb_eq in Heq. subst. exact Hn.
  - intros Hin. exists (PStr m). split; [apply in_map; exact Hin |].
    cbn. apply String.eqb_refl.
Qed.

Lemma add_model_names m names :
  add_model (PStr m) (names_state names) = names_state (names ++ [m]).
Proof. unfold add_model, names_state. cbn. rewrite !List.map_app. reflexivity. Qed.

Lemma NoDup_snoc {A} (l : list A) (x : A) :
  List.NoDup l -> ~ In x l -> List.NoDup (l ++ [x]).
Proof.
  induction l as [| a l IH]; intros Hnd Hx; cbn [app].
  - constructor; [intros [] | constructor].
  - inversion Hnd; subst. constructor.
    + rewrite List.in_app_iff. cbn [In]. intros [H | [H | []]]; [contradiction |].
      subst. apply Hx. left. reflexivity.
    + apply IH; [assumption |]. intros H. apply Hx. right. exact H.
Qed.

Lemma add_keys_names keep keys names :
  List.NoDup names ->
  exists names',
    add_keys keep keys (names_state names) = Ok (names_state names') /\
    List.NoDup names' /\
    forall m, In m names' <-> In m names \/ (In m keys /\ keep m = true).
Proof.
  revert names. induction keys as [| key keys IH]; intros names Hnd.
  - exists names. cbn. repeat split; auto; tauto.
  - cbn [add_keys]. unfold in_unique. cbn [hashable bind].
    cbn [unique_models names_state].
    destruct (existsb (py_eqb (PStr key)) (List.map PStr names)) eqn:Hseen.
    + apply existsb_py_eqb_str in Hseen. cbn [negb andb].
      destruct (IH names Hnd) as (names' & Hrun & Hnd' & Hiff).
      exists names'. split; [exact Hrun |]. split; [exact Hnd' |].
      intros m. rewrite Hiff. cbn [In]. split; [tauto |].
      intros [H | [[<- | H] Hk]]; auto.
    + assert (Hnot : ~ In key names).
      { intros Hin. apply existsb_py_eqb_str in Hin. congruence. }
      cbn [negb andb]. destruct (keep key) eqn:Hkeep.
      * rewrite add_model_names.
        assert (Hnd1 : List.NoDup (names ++ [key])).
        { apply NoDup_snoc; assumption. }
        destruct (IH _ Hnd1) as (names' & Hrun & Hnd' & Hiff).
        exists names'. split; [exact Hrun |]. split; [exact Hnd' |].
        intros m. rewrite Hiff, List.in_app_iff. cbn [In]. split.
        -- intros [[H | [<- | []]] | [H Hk]]; auto.
        -- intros [H | [[<- | H] Hk]]; auto.
      * destruct (IH names Hnd) as (names' & Hrun & Hnd' & Hiff).
        exists names'. split; [exact Hrun |]. split; [exact Hnd' |].
        intros m. rewrite Hiff. cbn [In]. split; [tauto |].
        intros [H | [[<- | H] Hk]]; auto. congruence.
Qed.

Lemma dict_has_In m (d : list (string * pyval)) :
  dict_has m d = true <-> In m (List.map fst d).
Proof.
  unfold dict_has. induction d as [| [k v] d IH]; cbn [dict_lookup List.map In fst].
  - split; [discriminate | intros []].
  - destruct (String.eqb_spec m k) as [-> | Hne]; [tauto |].
    rewrite IH. split; [tauto | intros [H | H]; [congruence | exact H]].
Qed.

Lemma get_all_models_loop_names providers names st' :
  List.NoDup names ->
  get_all_models_loop providers (names_state names) = Ok st' ->
  exists names',
    st' = names_state names' /\ List.NoDup names' /\
    forall m, In m names' <-> In m names \/ offered providers m.
Proof.
  revert names. induction providers as [| provider providers IH]; intros names Hnd.
  - cbn [get_all_models_loop]. intros H. inversion H; subst. exists names.
    repeat split; auto. intros [H1 | (p & d & [] & _)]. exact H1.
  - cbn [get_all_models_loop].
    destruct (get_model_dict provider) as [model_dict | e] eqn:Hd; cbn [bind];
      [| discriminate].
    destruct (add_keys_names (fun _ => true) (List.map fst model_dict) names Hnd)
      as (names1 & Hrun & Hnd1 & Hiff1).
    rewrite Hrun. cbn [bind]. intros H.
    destruct (IH names1 Hnd1 H) as (names' & -> & Hnd' & Hiff).
    exists names'. repeat split; auto.
    + intros Hin. apply Hiff in Hin as [Hin | (p & d & Hp & Hpd & Hm)].
      * apply Hiff1 in Hin as [Hin | [Hin _]]; [left; exact Hin |].
        right. exists provider, model_dict. repeat split; auto.
        -- left. reflexivity.
        -- apply dict_has_In. exact Hin.
      * right. exists p, d. repeat split; auto. right. exact Hp.
    + intros [Hin | (p & d & [<- | Hp] & Hpd & Hm)]; apply Hiff.
      * left. apply Hiff1. left. exact Hin.
      * left. apply Hiff1. right. rewrite Hd in Hpd. inversion Hpd; subst.
        split; [apply dict_has_In; exact Hm | reflexivity].
      * right. exists p, d. auto.
Qed.

Lemma get_all_models_names config infos :
  get_all_models config = Ok infos ->
  exists providers names,
    providers_of config = Ok providers /\
    infos = List.map (fun m => model_info (PStr m)) names /\
    List.NoDup names /\
    forall m, In m names <-> offered providers m.
Proof.
  unfold get_all_models, providers_of.
  destruct (py_getitem config "providers") as [v | e]; cbn [bind]; [| discriminate].
  destruct (py_iter v) as [providers | e]; cbn [bind]; [| discriminate].
  change {| all_models := []; unique_models := [] |} with (names_state []).
  destruct (get_all_models_loop providers (names_state [])) as [st | e] eqn:Hloop;
    cbn [bind]; [| discriminate].
  intros H. inversion H; subst.
  destruct (get_all_models_loop_names providers [] st (List.NoDup_nil _) Hloop)
    as (names & -> & Hnd & Hiff).
  exists providers, names. repeat split; auto.
  - intros Hin. apply Hiff in Hin as [[] | H']. exact H'.
  - intros H'. apply Hiff. right. exact H'.
Qed.

Lemma get_all_models_loop_raises providers names e :
  List.NoDup names ->
  get_all_models_loop providers (names_state names) = Raise e ->
  exists provider, In provider providers /\ get_model_dict provider = Raise e.
Proof.
  revert names. induction providers as [| p providers IH]; intros names Hnd;
    cbn [get_all_models_loop]; [discriminate |].
  destruct (get_model_dict p) as [d | e'] eqn:Hd; cbn [bind].
  - destruct (add_keys_names (fun _ => true) (List.map fst d) names Hnd)
      as (names1 & Hrun & Hnd1 & _).
    rewrite Hrun. cbn [bind]. intros H.
    destruct (IH names1 Hnd1 H) as (p' & Hin & Hp'). exists p'. split; [right |]; auto.
  - intros H. inversion H; subst. exists p. split; [left |]; auto.
Qed.

(** X14. The list that [get_all_models] returns holds one entry, of the fixed
    shape, for every model name that a provider of the configuration
    offers (a key of its model dict), and no name twice. It returns
    whenever [get_model_dict] does for every provider, and raises what the
    first failing one raises otherwise. *)
Theorem get_all_models_distinct (config : pyval) :
  match get_all_models config with
  | Ok infos =>
      exists providers names,
        providers_of config = Ok providers /\
        infos = List.map (fun m => model_info (PStr m)) names /\
        List.NoDup names /\
        forall m, In m names <-> offered providers m
  | Raise e =>
      providers_of config = Raise e \/
      exists providers provider,
        providers_of config = Ok providers /\ In provider providers /\
        get_model_dict provider = Raise e
  end.
Proof.
  destruct (get_all_models config) as [infos | e] eqn:Hget;
    [apply get_all_models_names; exact Hget |].
  revert Hget. unfold get_all_models, providers_of.
  destruct (py_getitem config "providers") as [v | e']; cbn [bind];
    [| intros H; inversion H; auto].
  destruct (py_iter v) as [providers | e']; cbn [bind]; [| intros H; inversion H; auto].
  change {| all_models := []; unique_models := [] |} with (names_state []).
  destruct (get_all_models_loop providers (names_state [])) as [st | e'] eqn:Hloop;
    cbn [bind]; [discriminate |].
  intros H. inversion H; subst. right. exists providers.
  destruct (get_all_models_loop_raises providers [] e (List.NoDup_nil _) Hloop)
    as (p & Hin & Hp).
  exists p. auto.
Qed.

Lemma distinct_values_snoc l x :
  distinct_values l -> existsb (py_eqb x) l = false -> distinct_values (l ++ [x]).
Proof.
  unfold distinct_values. induction l as [| a l IH]; intros Hd Hx; cbn [app].
  - constructor; [constructor | constructor].
  - inversion Hd; subst. cbn [existsb] in Hx. apply orb_false_iff in Hx as [Ha Hx].
    constructor; [| apply IH; assumption].
    apply Forall_app. split; [assumption |]. constructor; [exact Ha | constructor].
Qed.

Lemma distinct_values_names names :
  List.NoDup names -> distinct_values (List.map PStr names).
Proof.
  unfold distinct_values. induction 1 as [| m names Hm Hnd IH]; cbn [List.map];
    constructor; [| exact IH].
  apply List.Forall_forall. intros x Hin. apply in_map_iff in Hin as (n & <- & Hn).
  cbn. apply String.eqb_neq. intros ->. contradiction.
Qed.

Lemma add_model_ok model st :
  models_state_ok st -> existsb (py_eqb model) (unique_models st) = false ->
  models_state_ok (add_model model st).
Proof.
  intros [Hall Hd] Hnew. split; cbn [add_model all_models unique_models].
  - rewrite Hall, List.map_app. reflexivity.
  - apply distinct_values_snoc; assumption.
Qed.

Lemma add_if_new_ok model st st' :
  models_state_ok st -> add_if_new model st = Ok st' -> models_state_ok st'.
Proof.
  intros Hok. unfold add_if_new, in_unique.
  destruct (hashable model); cbn [bind]; [| discriminate].
  destruct (existsb (py_eqb model) (unique_models st)) eqn:Hseen;
    intros H; inversion H; subst; [exact Hok |].
  apply add_model_ok; assumption.
Qed.

Lemma add_keys_ok keep keys st st' :
  models_state_ok st -> add_keys keep keys st = Ok st' -> models_state_ok st'.
Proof.
  revert st. induction keys as [| key keys IH]; intros st Hok; cbn [add_keys].
  - intros H. inversion H; subst. exact Hok.
  - unfold in_unique. cbn [hashable bind].
    destruct (existsb (py_eqb (PStr key)) (unique_models st)) eqn:Hseen; cbn [negb andb].
    + apply IH. exact Hok.
    + destruct (keep key); apply IH; [apply add_model_ok |]; assumption.
Qed.

Lemma add_items_ok models st st' :
  models_state_ok st -> add_items models st = Ok st' -> models_state_ok st'.
Proof.
  revert st. induction models as [| model models IH]; intros st Hok; cbn [add_items].
  - intros H. inversion H; subst. exact Hok.
  - destruct (add_if_new model st) as [st1 | e] eqn:H1; cbn [bind]; [| discriminate].
    apply IH. eapply add_if_new_ok; eassumption.
Qed.

Lemma add_provider_models_ok keep provider providers st st' :
  models_state_ok st -> add_provider_models keep provider providers st = Ok st' ->
  models_state_ok st'.
Proof.
  revert st. induction providers as [| p providers IH]; intros st Hok;
    cbn [add_provider_models].
  - intros H. inversion H; subst. exact Hok.
  - destruct (py_getitem p "provider") as [name | e]; cbn [bind]; [| discriminate].
    destruct (negb (py_eqb name (PStr provider))); [apply IH; exact Hok |].
    destruct (get_model_dict p) as [d | e]; cbn [bind]; [| discriminate].
    destruct (add_keys keep (List.map fst d) st) as [st1 | e] eqn:H1; cbn [bind];
      [| discriminate].
    apply IH. eapply add_keys_ok; eassumption.
Qed.

Lemma post_model_ok config api_list models_list model st st' :
  models_state_ok st -> post_model config api_list models_list model st = Ok st' ->
  models_state_ok st'.
Proof.
  intros Hok. unfold post_model.
  destruct (py_contains "/" model) as [[|] | e]; cbn [bind]; [| | discriminate];
    (destruct model as [| | | s | |]; try discriminate).
  - destruct (is_own_key _ api_list) as [own | e]; cbn [bind]; [| discriminate].
    destruct (String.eqb _ "*"), own.
    + destruct (py_getitem models_list _) as [v | e]; cbn [bind]; [| discriminate].
      destruct (py_iter v) as [l | e]; cbn [bind]; [| discriminate].
      apply add_items_ok. exact Hok.
    + destruct (py_getitem config "providers") as [v | e]; cbn [bind]; [| discriminate].
      destruct (py_iter v) as [l | e]; cbn [bind]; [| discriminate].
      apply add_provider_models_ok. exact Hok.
    + destruct (py_getitem models_list _) as [v | e]; cbn [bind]; [| discriminate].
      destruct (py_contains _ v) as [[|] | e]; cbn [bind]; [| | discriminate].
      * apply add_if_new_ok. exact Hok.
      * intros H. inversion H; subst. exact Hok.
    + destruct (py_getitem config "providers") as [v | e]; cbn [bind]; [| discriminate].
      destruct (py_iter v) as [l | e]; cbn [bind]; [| discriminate].
      apply add_provider_models_ok. exact Hok.
  - destruct (is_own_key s api_list) as [[|] | e]; cbn [bind]; [| | discriminate].
    + intros H. inversion H; subst. exact Hok.
    + apply add_if_new_ok. exact Hok.
Qed.

Lemma post_all_models_loop_ok config api_list models_list models st r :
  models_state_ok st ->
  post_all_models_loop config api_list models_list models st = Ok r ->
  match r with
  | inl infos => get_all_models config = Ok infos
  | inr st' => models_state_ok st' /\ ~ In (PStr "all") models
  end.
Proof.
  revert st. induction models as [| model models IH]; intros st Hok;
    cbn [post_all_models_loop].
  - intros H. inversion H; subst. split; [exact Hok | intros []].
  - destruct (py_eqb model (PStr "all")) eqn:Hall.
    + destruct (get_all_models config) as [infos | e]; cbn [bind]; [| discriminate].
      intros H. inversion H; subst. reflexivity.
    + destruct (post_model config api_list models_list model st) as [st1 | e] eqn:H1;
        cbn [bind]; [| discriminate].
      intros H. apply IH in H; [| eapply post_model_ok; eassumption].
      destruct r as [infos | st']; [exact H |].
      destruct H as [Hok' Hnot]. split; [exact Hok' |].
      intros [-> | Hin]; [cbn in Hall; discriminate | contradiction].
Qed.

(** X15. The list that [post_all_models] returns holds entries of the fixed
    shape and no model twice; and when the model list of the API key holds
    [all], it is the list that [get_all_models] returns for the
    configuration, whatever else the model list holds. *)
Theorem post_all_models_distinct (api_index : Z) (config api_list models_list : pyval) :
  match post_all_models api_index config api_list models_list with
  | Ok infos =>
      (exists ids, infos = List.map model_info ids /\ distinct_values ids) /\
      (forall models,
          key_models_of config api_index = Ok models -> In (PStr "all") models ->
          get_all_models config = Ok infos)
  | Raise _ => True
  end.
Proof.
  unfold post_all_models, key_models_of.
  destruct (py_getitem config "api_keys") as [api_keys | e]; cbn [bind]; [| exact I].
  destruct (py_getitem_int api_keys api_index) as [api_key | e]; cbn [bind]; [| exact I].
  destruct (py_getitem api_key "model") as [models | e]; cbn [bind]; [| exact I].
  destruct (truthy models) eqn:Htruthy.
  - destruct (py_iter models) as [l | e]; cbn [bind]; [| exact I].
    destruct (post_all_models_loop config api_list models_list l _) as [r | e] eqn:Hloop;
      cbn [bind]; [| exact I].
    apply post_all_models_loop_ok in Hloop.
    2:{ split; [reflexivity | constructor]. }
    destruct r as [infos | st'].
    + split.
      * destruct (get_all_models_names config infos Hloop)
          as (providers & names & _ & -> & Hnd & _).
        exists (List.map PStr names). split; [rewrite List.map_map; reflexivity |].
        apply distinct_values_names. exact Hnd.
      * intros models' H _. exact Hloop.
    + destruct Hloop as [[Hall Hd] Hnot]. split.
      * exists (unique_models st'). split; assumption.
      * intros models' H Hin. inversion H; subst. contradiction.
  - split; [exists []; split; [reflexivity | constructor] |].
    intros l H Hin. exfalso.
    destruct models as [| b | z | s | l' | d]; cbn in Htruthy, H; try discriminate.
    + destruct s; [| discriminate]. inversion H; subst. destruct Hin.
    + destruct l'; [| discriminate]. inversion H; subst. destruct Hin.
    + destruct d; [| discriminate]. inversion H; subst. destruct Hin.
Qed.

(** ** The audio formats and the wrapper *)

Lemma prefix_take p n s :
  (String.length p <= n)%nat -> String.prefix p (take n s) = String.prefix p s.
Proof.
  revert n s. induction p as [| c p IH]; intros n s Hlen.
  - rewrite !prefix_nil. reflexivity.
  - cbn [String.length] in Hlen. destruct n as [| n]; [lia |].
    destruct s as [| d s]; [reflexivity |]. cbn [take String.prefix].
    destruct (ascii_dec c d); [apply IH; lia | reflexivity].
Qed.

Lemma substring_take a len n s :
  (a + len <= n)%nat -> String.substring a len (take n s) = String.substring a len s.
Proof.
  revert a len s. induction n as [| n IH]; intros a len s Hle.
  - assert (a = 0%nat) by lia. assert (len = 0%nat) by lia. subst.
    cbn [take]. destruct s; reflexivity.
  - destruct s as [| c s]; [reflexivity |]. cbn [take].
    destruct a as [| a].
    + destruct len as [| len]; [reflexivity |]. cbn [String.substring].
      f_equal. apply (IH 0%nat). lia.
    + cbn [String.substring]. apply IH. lia.
Qed.

Section WrapperFacts.

Variable json_loads : string -> option pyval.
Variable unicode_escape utf8_decode : string -> option string.

(** X16. The audio format of a chunk of bytes is decided by its first twelve
    bytes. A chunk whose format is known is audio to the check, whatever
    the engine, and the wrapper that meets it first returns that chunk
    itself and not a stream: what the generator would yield after it is
    not forwarded. *)
Theorem audio_is_decided_by_twelve_bytes (b : string) (rest : list item)
    (engine : string) (stream : bool) (error_triggers : list string) :
  identify_audio_format (take 12 b) = identify_audio_format b /\
  (if String.eqb (identify_audio_format b) "Unknown/PCM" then True
   else
     check_response_content json_loads unicode_escape utf8_decode (Bytes b)
       engine stream error_triggers = Ok (Bytes b, true) /\
     error_handling_wrapper json_loads unicode_escape utf8_decode (Bytes b :: rest)
       engine stream error_triggers = Ok (Audio (Bytes b))).
Proof.
  split.
  - unfold identify_audio_format, startswith, slice.
    rewrite !prefix_take by (cbn; lia).
    rewrite substring_take by lia. reflexivity.
  - unfold error_handling_wrapper. cbn [is_heartbeat check_response_content].
    unfold identify_audio_format.
    repeat match goal with
           | |- context [if ?c then _ else _] =>
               match c with
               | String.eqb _ _ => fail 1
               | in_list _ _ => fail 1
               | _ => destruct c
               end
           end; cbn; auto.
Qed.

Lemma plain_generator_text l :
  Forall is_text l -> plain_generator utf8_decode l = (l, None).
Proof.
  induction 1 as [| x l [s ->] _ IH]; [reflexivity |].
  cbn [plain_generator text ensure_string]. rewrite IH. reflexivity.
Qed.

Lemma heartbeat_text_is_heartbeat x : heartbeat_text x -> is_heartbeat x = true.
Proof. intros (s & -> & Hs). exact Hs. Qed.

Lemma heartbeat_rest_seen l engine stream error_triggers :
  Forall is_text l ->
  heartbeat_generator_rest json_loads unicode_escape utf8_decode true l
    engine stream error_triggers = (l, None).
Proof.
  induction 1 as [| x l [s ->] _ IH]; [reflexivity |].
  cbn [heartbeat_generator_rest negb andb text ensure_string]. rewrite IH. reflexivity.
Qed.

Lemma heartbeat_rest_beats hbs l engine stream error_triggers :
  Forall heartbeat_text hbs ->
  heartbeat_generator_rest json_loads unicode_escape utf8_decode false (hbs ++ l)
    engine stream error_triggers
  = let '(out, e) := heartbeat_generator_rest json_loads unicode_escape utf8_decode
                       false l engine stream error_triggers in
    ((hbs ++ out)%list, e).
Proof.
  induction 1 as [| x hbs Hx _ IH]; cbn [app].
  - destruct (heartbeat_generator_rest _ _ _ false l _ _ _). reflexivity.
  - pose proof (heartbeat_text_is_heartbeat x Hx) as Hb. destruct Hx as (s & -> & _).
    cbn [heartbeat_generator_rest]. rewrite Hb. cbn [negb andb text ensure_string].
    rewrite IH. destruct (heartbeat_generator_rest _ _ _ false l _ _ _). reflexivity.
Qed.

(** X17. On a stream of lines of text the wrapper looks at one line only,
    the first that is no heartbeat: when that line is not empty and passes
    the check as no audio, the stream that the wrapper returns yields
    every line of the generator, as it is and in order, and ends without an
    exception, whatever the lines after the first hold. Heartbeat lines
    may come before the first line. *)
Theorem wrapper_forwards_text (hbs : list item) (first : item) (rest : list item)
    (engine : string) (stream : bool) (error_triggers : list string)
    (checked : item) :
  Forall heartbeat_text hbs -> is_text first -> Forall is_text rest ->
  is_heartbeat first = false -> item_truthy first = true ->
  check_response_content json_loads unicode_escape utf8_decode first
    engine stream error_triggers = Ok (checked, false) ->
  error_handling_wrapper json_loads unicode_escape utf8_decode
    (hbs ++ first :: rest) engine stream error_triggers
  = Ok (Stream (hbs ++ first :: rest) None).
Proof.
  intros Hhbs Hfirst Hrest Hnb Htruthy Hcheck.
  assert (Hreal : heartbeat_generator_rest json_loads unicode_escape utf8_decode false
                    (first :: rest) engine stream error_triggers
                  = (first :: rest, None)).
  { cbn [heartbeat_generator_rest]. rewrite Hnb, Hcheck. cbn [negb andb].
    destruct Hfirst as [s ->]. cbn [text ensure_string].
    rewrite Htruthy, heartbeat_rest_seen by exact Hrest. reflexivity. }
  destruct hbs as [| hb hbs]; cbn [app]; unfold error_handling_wrapper.
  - rewrite Hnb, Hcheck. rewrite plain_generator_text; [reflexivity |].
    constructor; assumption.
  - inversion Hhbs as [| ? ? Hhb Hhbs']; subst.
    rewrite (heartbeat_text_is_heartbeat hb Hhb).
    rewrite heartbeat_rest_beats by exact Hhbs'. rewrite Hreal. reflexivity.
Qed.

(** X18. After a heartbeat the wrapper no longer raises. When the generator
    yields heartbeat lines and then an object with an error (an [error]
    key that does not hold the blank error object), the wrapper returns a
    stream: the stream yields the heartbeats and then raises the HTTP
    error that the check raises for the object. When the heartbeats are
    followed by the terminal line, whose check raises
    [StopAsyncIteration], the stream yields the heartbeats and raises
    [RuntimeError]; without a heartbeat before it the terminal line makes
    the wrapper raise the HTTP error 400. *)
Theorem wrapper_defers_after_heartbeat (hb : item) (hbs : list item)
    (d : list (string * pyval)) (rest : list item)
    (engine : string) (stream : bool) (error_triggers : list string) :
  heartbeat_text hb -> Forall heartbeat_text hbs ->
  let wrapper := error_handling_wrapper json_loads unicode_escape utf8_decode in
  let status := dict_get "status_code" (PInt 500) d in
  let detail := take 300 (py_str (dict_get "details" (PStr (py_str (PDict d))) d)) in
  (has_error d = true ->
   wrapper (hb :: hbs ++ Val (PDict d) :: rest) engine stream error_triggers
   = Ok (Stream (hb :: hbs) (Some (HTTPException status detail)))) /\
  wrapper (hb :: hbs ++ DONE :: rest) engine stream error_triggers
  = Ok (Stream (hb :: hbs) (Some RuntimeError)) /\
  wrapper (DONE :: rest) engine stream error_triggers
  = Raise (HTTPException (PInt 400) "data: {'error': 'No data returned'}").
Proof.
  intros Hhb Hhbs wrapper status detail. unfold wrapper, error_handling_wrapper.
  rewrite (heartbeat_text_is_heartbeat hb Hhb).
  assert (Hdone : check_response_content json_loads unicode_escape utf8_decode DONE
                    engine stream error_triggers = Raise StopAsyncIteration)
    by reflexivity.
  split; [| split].
  - intros Herr. rewrite heartbeat_rest_beats by exact Hhbs.
    cbn [heartbeat_generator_rest]. rewrite dict_is_no_heartbeat. cbn [negb andb].
    cbn [check_response_content]. unfold check_dict. unfold has_error in Herr.
    rewrite Herr. rewrite List.app_nil_r. reflexivity.
  - rewrite heartbeat_rest_beats by exact Hhbs.
    cbn [heartbeat_generator_rest].
    change (is_heartbeat DONE) with false. cbn [negb andb]. rewrite Hdone.
    rewrite List.app_nil_r. reflexivity.
  - change (is_heartbeat DONE) with false. rewrite Hdone. reflexivity.
Qed.

End WrapperFacts.

Lemma wrapper_forwards_text_witness :
  let first := text (quoted "data: {'choices': []}") in
  let rest := [text (quoted "data: {'error': 'late'}"); DONE] in
  Forall heartbeat_text [heartbeat] /\ is_text first /\ Forall is_text rest /\
  is_heartbeat first = false /\ item_truthy first = true /\
  check_response_content json_decode (fun s => Some s) (fun s => Some s) first
    "gpt" true [] = Ok (Val (PDict [("choices", PList [])]), false) /\
  error_handling_wrapper json_decode (fun s => Some s) (fun s => Some s)
    (heartbeat :: first :: rest) "gpt" true []
  = Ok (Stream (heartbeat :: first :: rest) None).
Proof.
  intros first rest.
  assert (Hhb : Forall heartbeat_text [heartbeat]).
  { constructor; [| constructor]. exists heartbeat_line. split; reflexivity. }
  assert (Hfirst : is_text first) by (eexists; reflexivity).
  assert (Hrest : Forall is_text rest) by (repeat constructor; eexists; reflexivity).
  assert (Hnb : is_heartbeat first = false) by reflexivity.
  assert (Htruthy : item_truthy first = true) by reflexivity.
  assert (Hcheck : check_response_content json_decode (fun s => Some s) (fun s => Some s)
                     first "gpt" true []
                   = Ok (Val (PDict [("choices", PList [])]), false))
    by (vm_compute; reflexivity).
  repeat (split; [assumption |]).
  exact (wrapper_forwards_text json_decode (fun s => Some s) (fun s => Some s)
           [heartbeat] first rest "gpt" true [] _ Hhb Hfirst Hrest Hnb Htruthy Hcheck).
Defined.

Lemma wrapper_defers_after_heartbeat_witness :
  let d := [("error", PStr "upstream HTTP Error"); ("status_code", PInt 503);
            ("details", PStr "overloaded")] in
  let wrapper := error_handling_wrapper json_decode (fun s => Some s) (fun s => Some s) in
  heartbeat_text heartbeat /\ Forall heartbeat_text [heartbeat] /\
  has_error d = true /\
  wrapper [heartbeat; heartbeat; Val (PDict d); DONE] "gpt" true []
  = Ok (Stream [heartbeat; heartbeat] (Some (HTTPException (PInt 503) "overloaded"))) /\
  wrapper [heartbeat; heartbeat; DONE] "gpt" true []
  = Ok (Stream [heartbeat; heartbeat] (Some RuntimeError)) /\
  wrapper [DONE] "gpt" true []
  = Raise (HTTPException (PInt 400) "data: {'error': 'No data returned'}").
Proof.
  intros d wrapper.
  assert (Hhb : heartbeat_text heartbeat) by (exists heartbeat_line; split; reflexivity).
  assert (Hhbs : Forall heartbeat_text [heartbeat]) by (constructor; [exact Hhb | constructor]).
  assert (Herr : has_error d = true) by reflexivity.
  split; [exact Hhb |]. split; [exact Hhbs |]. split; [exact Herr |].
  destruct (wrapper_defers_after_heartbeat json_decode (fun s => Some s) (fun s => Some s)
              heartbeat [heartbeat] d [DONE] "gpt" true [] Hhb Hhbs) as (H1 & _ & _).
  destruct (wrapper_defers_after_heartbeat json_decode (fun s => Some s) (fun s => Some s)
              heartbeat [heartbeat] d [] "gpt" true [] Hhb Hhbs) as (_ & H2 & H3).
  split; [exact (H1 Herr) |]. split; [exact H2 | exact H3].
Defined.

(** ** The Vertex Claude adapter *)

Lemma vertex_claude_line_clean json_loads timestamp model st line :
  yields_no_DONE (vertex_claude.line_body json_loads timestamp model st line).
Proof. unfold vertex_claude.line_body. clean_tac. Qed.

(** X19. The Vertex Claude adapter closes its stream as the Gemini and Claude
    adapters do: the terminal line occurs in its output at most once, and
    last; an upstream that answers outside 200..299 gives one error event
    and nothing else; on an upstream that it accepts, every run that ends
    without an exception ends with exactly one terminal line. And its
    output does not depend on how the upstream cuts its text into
    chunks. *)
Theorem vertex_claude_adapter_closes (json_loads : string -> option pyval)
    (timestamp : Z) (r r' : response) (model : pyval) (g : mt_state) :
  adapter_ok true r (fetch_vertex_claude_response_stream json_loads timestamp r model) /\
  (if Z.eqb (status_code r') (status_code r) && String.eqb (body r') (body r)
      && String.eqb (concat_chunks (chunks r')) (concat_chunks (chunks r))
   then fetch_vertex_claude_response_stream json_loads timestamp r' model g
        = fetch_vertex_claude_response_stream json_loads timestamp r model g
   else True).
Proof.
  split.
  - unfold fetch_vertex_claude_response_stream.
    pose proof (check_response_cases json_loads r "fetch_vertex_claude_response_stream")
      as Hc.
    destruct (accepted r) eqn:Hacc.
    + rewrite Hc. apply closing_adapter_ok; [exact Hacc |].
      apply ends_ok_gbind.
      * apply run_chunks_clean. intros st line. apply vertex_claude_line_clean.
      * intros st. cbv zeta.
        apply ends_ok_gbind; [clean_tac | intros ?; apply ends_ok_DONE].
    + destruct Hc as [d ->]. apply error_event_ok. exact Hacc.
  - destruct (Z.eqb_spec (status_code r') (status_code r)) as [Hs | _]; [| exact I].
    destruct (String.eqb_spec (body r') (body r)) as [Hb | _]; [| exact I].
    destruct (String.eqb_spec (concat_chunks (chunks r')) (concat_chunks (chunks r)))
      as [Hc | _]; [| exact I].
    cbn [andb]. unfold fetch_vertex_claude_response_stream, check_response.
    rewrite Hs, Hb.
    destruct (negb _); [reflexivity |].
    apply gbind_cong. rewrite !run_chunks_concat by reflexivity.
    cbn [String.append]. rewrite Hc. reflexivity.
Qed.

(** ** The stream with heartbeats *)

Lemma taken_until_cons x taken rest ending e :
  holds_DONE x = Ok false ->
  taken_until taken rest ending e -> taken_until (x :: taken) (x :: rest) ending e.
Proof.
  intros Hx. destruct e as [| e |]; cbn [taken_until].
  - intros (body & y & rest' & -> & -> & Hbody & Hy).
    exists (x :: body), y, rest'. repeat split; [constructor; assumption | exact Hy].
  - intros [(-> & Hno & ->) | (body & y & rest' & -> & -> & Hbody & Hy)].
    + left. repeat split. constructor; assumption.
    + right. exists (x :: body), y, rest'.
      repeat split; [constructor; assumption | exact Hy].
  - intros (rest' & -> & Hno). exists rest'.
    split; [reflexivity | constructor; assumption].
Qed.

(** One round of the adapter, then what [after] does. *)
Lemma response_round (after : list item -> list item * stream_end) rest ending :
  (forall rest0, exists taken,
      with_heartbeats taken (fst (after rest0)) /\
      taken_until taken rest0 ending (snd (after rest0))) ->
  let res :=
    match rest with
    | [] => ([], raised (end_exn ending))
    | x :: rest' =>
        match holds_DONE x with
        | Raise e => ([x], raised e)
        | Ok true => ([x], returned)
        | Ok false => let '(out, e) := after rest' in (x :: out, e)
        end
    end in
  exists taken, with_heartbeats taken (fst res) /\ taken_until taken rest ending (snd res).
Proof.
  intros Hafter. cbv zeta. destruct rest as [| x rest'].
  - exists []. split; [constructor |]. left. repeat split. constructor.
  - destruct (holds_DONE x) as [[|] | e] eqn:Hd.
    + exists [x]. split; [repeat constructor |].
      exists [], x, rest'. repeat split; [constructor | exact Hd].
    + destruct (Hafter rest') as (taken & Hm & Hend).
      destruct (after rest') as [out e]. cbn [fst snd] in *.
      exists (x :: taken). split; [constructor; exact Hm |].
      apply taken_until_cons; assumption.
    + exists [x]. split; [repeat constructor |].
      right. exists [], x, rest'. repeat split; [constructor | exact Hd].
Qed.

Lemma fetch_loop_spec schedule rest ending :
  exists taken,
    with_heartbeats taken (fst (fetch_loop schedule rest ending)) /\
    taken_until taken rest ending (snd (fetch_loop schedule rest ending)).
Proof.
  revert rest. induction schedule as [| done schedule IH]; intros rest.
  - exists []. split; [constructor |]. exists rest. split; [reflexivity | constructor].
  - cbn [fetch_loop].
    assert (Hbeat : forall rest0, exists taken,
               with_heartbeats taken
                 (fst (let '(out, e) := fetch_loop schedule rest0 ending in
                       (heartbeat :: out, e))) /\
               taken_until taken rest0 ending
                 (snd (let '(out, e) := fetch_loop schedule rest0 ending in
                       (heartbeat :: out, e)))).
    { intros rest0. destruct (IH rest0) as (taken & Hm & Hend).
      destruct (fetch_loop schedule rest0 ending) as [out e]. cbn [fst snd] in *.
      exists taken. split; [constructor; exact Hm | exact Hend]. }
    destruct done.
    + apply response_round. exact IH.
    + apply Hbeat.
    + apply response_round. exact Hbeat.
    + pose proof (response_round (fun rest' => fetch_loop schedule rest' ending)
                    rest ending IH) as Hresp.
      cbv zeta in Hresp. destruct Hresp as (taken & Hm & Hend).
      match goal with
      | |- context [let '(out, e) := ?X in (heartbeat :: out, e)] =>
          destruct X as [out e]
      end.
      cbn [fst snd] in *. exists taken. split; [constructor; exact Hm | exact Hend].
Qed.

(** X20. [fetch_response_stream] yields what its adapter yields, in order,
    with heartbeats put in where the timing puts them, and stops after the
    first element in which the text [[DONE]] occurs: it returns there, and
    what the adapter would yield after it is dropped. It returns nowhere
    else: when the adapter ends before such an element (a gpt upstream
    that sends no terminator, an error event), asking the stream for more
    raises [RuntimeError], the [StopAsyncIteration] of the adapter as it
    leaves an asynchronous generator. An engine without an adapter raises
    [ValueError] at the first element asked for. *)
Theorem fetch_response_stream_cuts_at_DONE (json_loads : string -> option pyval)
    (engine : string) (timestamp : Z) (r : response) (model : pyval)
    (schedule : list done_tasks) (g : mt_state) :
  let res := fetch_response_stream json_loads engine timestamp r model schedule g in
  match response_gen json_loads engine timestamp r model with
  | Raise e => res = ([], raised e) /\ e = ValueError "Unknown response"
  | Ok adapter =>
      let out := fst (fst (adapter g)) in
      let ending := snd (fst (adapter g)) in
      (exists taken, with_heartbeats taken (fst res) /\
                     taken_until taken out ending (snd res)) /\
      (no_DONE_text out -> ending = Ok tt ->
       snd res = suspended \/ snd res = raised RuntimeError)
  end.
Proof.
  cbv zeta. unfold fetch_response_stream.
  destruct (response_gen json_loads engine timestamp r model) as [adapter | e] eqn:Hgen.
  - destruct (adapter g) as [[out ending] g1]. cbn [fst snd].
    destruct (fetch_loop_spec schedule out ending) as (taken & Hm & Hend).
    split; [exists taken; split; assumption |].
    intros Hno ->.
    destruct (snd (fetch_loop schedule out (Ok tt))) as [| e |]; cbn [taken_until] in Hend.
    + exfalso. destruct Hend as (body & x & rest' & -> & -> & _ & Hx).
      unfold no_DONE_text in Hno. rewrite !Forall_app in Hno.
      destruct Hno as [[_ Hx'] _]. inversion Hx'; subst. congruence.
    + right. destruct Hend as [(_ & _ & ->) | (body & x & rest' & -> & -> & _ & Hx)];
        [reflexivity |].
      exfalso. unfold no_DONE_text in Hno. rewrite !Forall_app in Hno.
      destruct Hno as [[_ Hx'] _]. inversion Hx'; subst. congruence.
    + left. reflexivity.
  - split; [reflexivity |]. revert Hgen. unfold response_gen.
    repeat match goal with
           | |- context [if ?b then _ else _] => destruct b
           end; intros H; inversion H; reflexivity.
Qed.

(** ** The lines that the adapters pass over *)



Section SkipFacts.

Variable json_loads : string -> option pyval.


Section SkipLine.

Variables (r r' : response) (a line b : string).
Hypothesis same_status : status_code r' = status_code r.
Hypothesis same_body : body r' = body r.
Hypothesis text_r : concat_chunks (chunks r) = a ++ line ++ chr LF ++ b.
Hypothesis text_r' : concat_chunks (chunks r') = a ++ b.
Hypothesis whole_lines : snd (take_lines a) = EmptyString.
Hypothesis one_line : mem_char LF line = false.








End SkipLine.


End SkipFacts.


(** ** The response that is not streamed *)

Lemma dict_has_delete k d : dict_has k (dict_delete k d) = false.
Proof.
  unfold dict_has, dict_delete. induction d as [| [k' v] d IH]; [reflexivity |].
  cbn [List.filter fst]. destruct (String.eqb_spec k' k) as [-> | Hne]; cbn [negb].
  - exact IH.
  - cbn [dict_lookup]. destruct (String.eqb_spec k k') as [-> | _]; [contradiction |].
    exact IH.
Qed.

Lemma dict_lookup_delete k k' d :
  k' <> k -> dict_lookup k' (dict_delete k d) = dict_lookup k' d.
Proof.
  intros Hne. unfold dict_delete. induction d as [| [k0 v] d IH]; [reflexivity |].
  cbn [List.filter fst dict_lookup].
  destruct (String.eqb_spec k0 k) as [-> | Hne0]; cbn [negb].
  - destruct (String.eqb_spec k' k) as [-> | _]; [contradiction | exact IH].
  - cbn [dict_lookup]. rewrite IH. reflexivity.
Qed.

Lemma dict_delete_absent k d : dict_has k d = false -> dict_delete k d = d.
Proof.
  unfold dict_has, dict_delete. induction d as [| [k0 v] d IH]; [reflexivity |].
  cbn [List.filter fst dict_lookup].
  destruct (String.eqb_spec k k0) as [-> | Hne]; [discriminate |].
  intros H. destruct (String.eqb_spec k0 k) as [-> | _]; [contradiction |].
  cbn [negb]. rewrite (IH H). reflexivity.
Qed.

Lemma dict_lookup_set k v d : dict_lookup k (dict_set k v d) = Some v.
Proof.
  induction d as [| [k0 v0] d IH]; cbn [dict_set dict_lookup].
  - rewrite String.eqb_refl. reflexivity.
  - destruct (String.eqb_spec k k0) as [-> | Hne]; cbn [dict_lookup].
    + rewrite String.eqb_refl. reflexivity.
    + destruct (String.eqb_spec k k0); [contradiction | exact IH].
Qed.

Lemma dict_lookup_set_other k k' v d :
  k' <> k -> dict_lookup k' (dict_set k v d) = dict_lookup k' d.
Proof.
  intros Hne. induction d as [| [k0 v0] d IH]; cbn [dict_set dict_lookup].
  - destruct (String.eqb_spec k' k); [contradiction | reflexivity].
  - destruct (String.eqb_spec k k0) as [-> | Hne0]; cbn [dict_lookup].
    + destruct (String.eqb_spec k' k0); [contradiction | reflexivity].
    + rewrite IH. reflexivity.
Qed.

Lemma delete_if_in_cases k v :
  match delete_if_in k v with
  | Ok v' => v' = without_key k v
  | Raise e => e = TypeError
  end.
Proof.
  unfold delete_if_in. destruct v as [| b | z | s | l | d]; cbn [py_contains bind];
    try reflexivity.
  - destruct (contains k s); reflexivity.
  - destruct (existsb _ l); reflexivity.
  - cbn [py_delitem without_key]. destruct (dict_has k d) eqn:Hh; [reflexivity |].
    rewrite dict_delete_absent by exact Hh. reflexivity.
Qed.

Lemma delete_in_each_cases k l :
  match delete_in_each k l with
  | Ok l' => l' = List.map (without_key k) l
  | Raise e => e = TypeError
  end.
Proof.
  induction l as [| v l IH]; cbn [delete_in_each List.map]; [reflexivity |].
  pose proof (delete_if_in_cases k v) as Hv.
  destruct (delete_if_in k v) as [v' | e]; cbn [bind]; [| exact Hv].
  destruct (delete_in_each k l) as [l' | e]; cbn [bind]; [| exact IH].
  subst. reflexivity.
Qed.

Lemma azure_final d d1 :
  (forall k, k <> "choices" -> dict_lookup k d1 = dict_lookup k d) ->
  match delete_if_in "prompt_filter_results" (PDict d1) with
  | Ok v =>
      exists d', v = PDict d' /\
        dict_has "prompt_filter_results" d' = false /\
        (forall k, k <> "prompt_filter_results" -> k <> "choices" ->
                   dict_lookup k d' = dict_lookup k d) /\
        dict_lookup "choices" d' = dict_lookup "choices" d1
  | Raise e => e = TypeError
  end.
Proof.
  intros Hd1. pose proof (delete_if_in_cases "prompt_filter_results" (PDict d1)) as H.
  destruct (delete_if_in "prompt_filter_results" (PDict d1)) as [v | e]; [| exact H].
  cbn [without_key] in H. subst v. eexists. split; [reflexivity |].
  split; [apply dict_has_delete |]. split.
  - intros k H1 H2. rewrite dict_lookup_delete by exact H1. apply Hd1. exact H2.
  - apply dict_lookup_delete. discriminate.
Qed.

Lemma azure_filtered_cases d :
  match azure_filtered (PDict d) with
  | Ok v =>
      exists d', v = PDict d' /\
        dict_has "prompt_filter_results" d' = false /\
        (forall k, k <> "prompt_filter_results" -> k <> "choices" ->
                   dict_lookup k d' = dict_lookup k d) /\
        (forall choices,
            dict_lookup "choices" d = Some (PList choices) ->
            dict_lookup "choices" d'
            = Some (PList (List.map (without_key "content_filter_results") choices)))
  | Raise e => e = TypeError
  end.
Proof.
  unfold azure_filtered. cbn [py_contains bind]. unfold dict_has at 1.
  cbn [py_getitem].
  destruct (dict_lookup "choices" d) as [choices |] eqn:Hchoices; cbn [bind].
  - assert (Hsame : match delete_if_in "prompt_filter_results" (PDict d) with
                    | Ok v =>
                        exists d', v = PDict d' /\
                          dict_has "prompt_filter_results" d' = false /\
                          (forall k, k <> "prompt_filter_results" -> k <> "choices" ->
                                     dict_lookup k d' = dict_lookup k d) /\
                          dict_lookup "choices" d' = Some choices
                    | Raise e => e = TypeError
                    end).
    { pose proof (azure_final d d (fun k _ => eq_refl)) as H.
      destruct (delete_if_in "prompt_filter_results" (PDict d)); [| exact H].
      destruct H as (d' & -> & H1 & H2 & H3). exists d'. repeat split; auto.
      rewrite H3. exact Hchoices. }
    assert (Hother : forall items,
               match (let! _ := delete_in_each "content_filter_results" items in
                      Ok (PDict d)) with
               | Ok v => v = PDict d
               | Raise e => e = TypeError
               end).
    { intros items. pose proof (delete_in_each_cases "content_filter_results" items) as H.
      destruct (delete_in_each "content_filter_results" items); cbn [bind];
        [reflexivity | exact H]. }
    destruct choices as [| b | z | s | l | cd]; cbn [py_iter bind]; try reflexivity.
    + specialize (Hother (List.map (fun c => PStr (chr c)) (list_ascii_of_string s))).
      destruct (let! _ := delete_in_each _ _ in Ok (PDict d)) as [v | e];
        cbn [bind]; [| exact Hother].
      subst v. destruct (delete_if_in "prompt_filter_results" (PDict d)); [| exact Hsame].
      destruct Hsame as (d' & -> & H1 & H2 & H3). exists d'. repeat split; auto.
      intros choices Hc. discriminate.
    + pose proof (delete_in_each_cases "content_filter_results" l) as Heach.
      destruct (delete_in_each "content_filter_results" l) as [l' | e]; cbn [bind];
        [| exact Heach].
      subst l'. cbn [py_setitem bind]. clear Hsame Hother.
      pose proof (azure_final d
                    (dict_set "choices"
                       (PList (List.map (without_key "content_filter_results") l)) d)
                    (fun k Hk => dict_lookup_set_other "choices" k _ d Hk)) as H.
      destruct (delete_if_in "prompt_filter_results"
                  (PDict (dict_set "choices"
                            (PList (List.map (without_key "content_filter_results") l)) d)));
        [| exact H].
      destruct H as (d' & -> & H1 & H2 & H3). exists d'. repeat split; auto.
      intros choices Hc. inversion Hc; subst. rewrite H3. apply dict_lookup_set.
    + specialize (Hother (List.map (fun kv => PStr (fst kv)) cd)).
      destruct (let! _ := delete_in_each _ _ in Ok (PDict d)) as [v | e];
        cbn [bind]; [| exact Hother].
      subst v. destruct (delete_if_in "prompt_filter_results" (PDict d)); [| exact Hsame].
      destruct Hsame as (d' & -> & H1 & H2 & H3). exists d'. repeat split; auto.
      intros choices Hc. discriminate.
  - pose proof (azure_final d d (fun k _ => eq_refl)) as H.
    destruct (delete_if_in "prompt_filter_results" (PDict d)); [| exact H].
    destruct H as (d' & -> & H1 & H2 & H3). exists d'. repeat split; auto.
    intros choices Hc. discriminate.
Qed.

(** X22. The Azure branch of [fetch_response] takes the filter results out
    of an object: when the upstream is accepted and its body decodes to an
    object, the branch yields one object, with no [prompt_filter_results]
    key, whose [choices], when they are a list, are the choices of the
    upstream in order, every object among them without its
    [content_filter_results] key, and whose other keys hold what they
    held. The only exception that the branch raises on an object is
    [TypeError], and then it yields nothing. *)
Theorem azure_reply_without_filter_results (json_loads : string -> option pyval)
    (timestamp : Z) (r : response) (model : pyval) (g : mt_state)
    (d : list (string * pyval)) :
  accepted r = true -> json_loads (body r) = Some (PDict d) ->
  match fetch_response json_loads "azure" timestamp r model g with
  | (out, Ok _, _) =>
      exists d',
        out = [Val (PDict d')] /\
        dict_has "prompt_filter_results" d' = false /\
        (forall k, k <> "prompt_filter_results" -> k <> "choices" ->
                   dict_lookup k d' = dict_lookup k d) /\
        (forall choices,
            dict_lookup "choices" d = Some (PList choices) ->
            dict_lookup "choices" d'
            = Some (PList (List.map (without_key "content_filter_results") choices)))
  | (out, Raise e, _) => out = [] /\ e = TypeError
  end.
Proof.
  intros Hacc Hjson. unfold fetch_response.
  pose proof (check_response_cases json_loads r "fetch_response") as Hc.
  rewrite Hacc in Hc. rewrite Hc.
  change (String.eqb "azure" "tts") with false.
  change (String.eqb "azure" "gemini" || String.eqb "azure" "vertex-gemini") with false.
  change (String.eqb "azure" "azure") with true. cbv iota.
  unfold loads. rewrite Hjson.
  pose proof (azure_filtered_cases d) as H.
  unfold gbind, lift, yield.
  destruct (azure_filtered (PDict d)) as [v | e].
  - destruct H as (d' & -> & H1 & H2 & H3). exists d'. repeat split; auto.
  - split; [reflexivity | exact H].
Qed.

Lemma gbind_lift_ok {A B} (a : A) (k : A -> gen B) g : gbind (lift (Ok a)) k g = k a g.
Proof. apply (gbind_gret a k g). Qed.

Lemma gemini_content_texts items content :
  Forall text_or_falsy items ->
  gemini_content items content
  = Ok (content ++ String.concat EmptyString (gemini_texts items)).
Proof.
  intros Hall. revert content.
  induction Hall as [| item items Hitem _ IH]; intros content;
    cbn [gemini_content gemini_texts flat_map].
  - cbn. rewrite append_nil_r_. reflexivity.
  - fold (gemini_texts items). unfold text_or_falsy in Hitem.
    destruct (safe_get item gemini_text_path PNone) as [| b | z | s | l | d] eqn:Hc;
      try (rewrite Hitem, IH; reflexivity).
    assert (Hjoin : forall s' l', String.concat EmptyString (s' :: l')
                                  = s' ++ String.concat EmptyString l').
    { intros s' [| x l']; cbn [String.concat]; [rewrite append_nil_r_ |]; reflexivity. }
    cbn [app]. rewrite Hjoin.
    destruct (truthy (PStr s)) eqn:Ht.
    + rewrite IH, append_assoc_. reflexivity.
    + cbn in Ht. apply negb_false_iff, String.eqb_eq in Ht. subst s.
      rewrite IH. reflexivity.
Qed.

(** X23. The Gemini branch of [fetch_response] joins the texts of a
    response: when the upstream is accepted, its body decodes to a list
    whose elements have a string or nothing for text, and its last element
    has the usage metadata with integer counts, the branch yields one JSON
    text, of an object whose message has the role [assistant] and, for
    content, the texts of the elements one after the other. The total of
    the usage is the prompt count plus the candidates count, whatever
    total the upstream reports; a total of zero leaves the usage null. *)
Theorem gemini_reply_joins_text (json_loads : string -> option pyval)
    (engine : string) (timestamp : Z) (r : response) (model : pyval) (g : mt_state)
    (items : list pyval) (u : list (string * pyval)) (prompt candidates total : Z) :
  accepted r = true ->
  engine = "gemini" \/ engine = "vertex-gemini" ->
  json_loads (body r) = Some (PList items) ->
  Forall text_or_falsy items ->
  safe_get (PList items) [KIdx (-1); KStr "usageMetadata"] PNone = PDict u ->
  dict_get "promptTokenCount" (PInt 0) u = PInt prompt ->
  dict_get "candidatesTokenCount" (PInt 0) u = PInt candidates ->
  dict_get "totalTokenCount" (PInt 0) u = PInt total ->
  exists obj,
    fst (fetch_response json_loads engine timestamp r model g)
    = ([Val (PStr (json_dumps false obj))], Ok tt) /\
    at_path obj [KStr "id"] = Some (PStr (chat_id timestamp)) /\
    at_path obj [KStr "model"] = Some model /\
    at_path obj [KStr "choices"; KIdx 0; KStr "message"; KStr "role"]
    = Some (PStr "assistant") /\
    at_path obj [KStr "choices"; KIdx 0; KStr "message"; KStr "content"]
    = Some (PStr (String.concat EmptyString (gemini_texts items))) /\
    at_path obj [KStr "usage"]
    = Some (if total =? 0 then PNone
            else PDict [("prompt_tokens", PInt prompt);
                        ("completion_tokens", PInt candidates);
                        ("total_tokens", PInt (prompt + candidates))]).
Proof.
  intros Hacc Hengine Hjson Htexts Husage Hp Hc Ht.
  assert (Hbranch : String.eqb engine "tts" = false /\
                    String.eqb engine "gemini" || String.eqb engine "vertex-gemini" = true).
  { destruct Hengine as [-> | ->]; split; reflexivity. }
  destruct Hbranch as [Htts Hgem].
  unfold fetch_response.
  pose proof (check_response_cases json_loads r "fetch_response") as Hcheck.
  rewrite Hacc in Hcheck. rewrite Hcheck, Htts, Hgem.
  unfold loads. rewrite Hjson.
  rewrite gbind_lift_ok. cbv beta iota.
  rewrite gbind_lift_ok. cbn [py_iter]. rewrite gbind_lift_ok.
  rewrite (gemini_content_texts items EmptyString Htexts). rewrite gbind_lift_ok.
  cbv zeta. rewrite Husage. cbn [py_get]. rewrite Hp, Hc, Ht.
  rewrite !gbind_lift_ok. cbn [String.append].
  unfold yield_no_stream.
  pose proof (generate_no_stream_response_int g timestamp model
                (PStr (String.concat EmptyString (gemini_texts items)))
                PNone PNone PNone (PStr "assistant")
                (PInt total) (PInt prompt) (PInt candidates)) as Hgen.
  destruct (generate_no_stream_response g (PInt timestamp) model _ _ _ _ _ _ _ _)
    as [res g1].
  cbn [fst] in Hgen. subst res.
  unfold no_stream_sample_data. cbn [truthy].
  destruct (Z.eqb_spec total 0) as [-> | Hne]; cbn [negb py_add bind fst].
  - eexists. split; [reflexivity |]. repeat split; reflexivity.
  - eexists. split; [reflexivity |]. repeat split; reflexivity.
Qed.

Lemma azure_reply_without_filter_results_witness :
  let d := [("id", PStr "x");
            ("choices", PList [PDict [("index", PInt 0);
                                      ("content_filter_results", PDict [])]]);
            ("prompt_filter_results", PList [])] in
  let r := {| status_code := 200;
              body := quoted "{'id': 'x', 'choices': [{'index': 0, 'content_filter_results': {}}], 'prompt_filter_results': []}";
              chunks := [] |} in
  accepted r = true /\ json_decode (body r) = Some (PDict d) /\
  fst (fetch_response json_decode "azure" 1700000000 r (PStr "m") (seed_int 0))
  = ([Val (PDict [("id", PStr "x"); ("choices", PList [PDict [("index", PInt 0)]])])],
     Ok tt).
Proof.
  intros d r.
  assert (Hacc : accepted r = true) by reflexivity.
  assert (Hjson : json_decode (body r) = Some (PDict d)) by (vm_compute; reflexivity).
  split; [exact Hacc |]. split; [exact Hjson |].
  pose proof (azure_reply_without_filter_results json_decode 1700000000 r (PStr "m")
                (seed_int 0) d Hacc Hjson) as H.
  assert (E : fetch_response json_decode "azure" 1700000000 r (PStr "m") (seed_int 0)
              = ([Val (PDict [("id", PStr "x");
                              ("choices", PList [PDict [("index", PInt 0)]])])],
                 Ok tt, seed_int 0)).
  { unfold fetch_response. cbn [check_response r status_code negb andb Z.leb Z.ltb Z.compare
                                 Pos.compare Pos.compare_cont].
    unfold loads. rewrite Hjson. reflexivity. }
  rewrite E in H |- *. reflexivity.
Defined.

Lemma gemini_reply_joins_text_witness :
  let part s := PDict [("candidates",
                        PList [PDict [("content",
                                       PDict [("parts", PList [PDict [("text", PStr s)]]);
                                              ("role", PStr "model")])]])] in
  let u := [("promptTokenCount", PInt 3); ("candidatesTokenCount", PInt 4);
            ("totalTokenCount", PInt 99)] in
  let items := [part "Hel"; part "lo";
                PDict [("usageMetadata", PDict u)]] in
  let r := {| status_code := 200; body := "[...]"; chunks := [] |} in
  let json_loads := fun _ : string => Some (PList items) in
  accepted r = true /\
  Forall text_or_falsy items /\
  exists obj,
    fst (fetch_response json_loads "gemini" 1700000000 r (PStr "gemini-pro") (seed_int 0))
    = ([Val (PStr (json_dumps false obj))], Ok tt) /\
    at_path obj [KStr "choices"; KIdx 0; KStr "message"; KStr "content"]
    = Some (PStr "Hello") /\
    at_path obj [KStr "usage"]
    = Some (PDict [("prompt_tokens", PInt 3); ("completion_tokens", PInt 4);
                   ("total_tokens", PInt 7)]).
Proof.
  intros part u items r json_loads.
  assert (Hacc : accepted r = true) by reflexivity.
  assert (Htexts : Forall text_or_falsy items) by (repeat constructor).
  split; [exact Hacc |]. split; [exact Htexts |].
  destruct (gemini_reply_joins_text json_loads "gemini" 1700000000 r (PStr "gemini-pro")
              (seed_int 0) items u 3 4 99 Hacc (or_introl eq_refl) eq_refl Htexts
              eq_refl eq_refl eq_refl eq_refl)
    as (obj & Hout & _ & _ & _ & Hcontent & Husage).
  exists obj. split; [exact Hout |]. split; [exact Hcontent | exact Husage].
Defined.
